(** * Sheriff: CLI entry resolution, error handling, command dispatch and
    the plugin API, embedded from the TypeScript sources.

    Conventions of the embedding.
    - A JavaScript string is a [string]; one character stands for one code
      unit below 256.
    - A computation that may throw is a [Result]: [Return a] or [Throw e],
      with [try_catch] for [try { .. } catch { .. }].
    - A plain object used as a record (own enumerable properties, in
      enumeration order) is an association list, [Record V].
    - An object used as a dictionary is the [gmap string V] of its own
      properties, written to with [assign].
    - Output and process termination go through the [cli] object; calls to it
      are collected as a trace of events. *)

From Stdlib Require Import Ascii.
From stdpp Require Import base option list gmap strings.

(** ** JavaScript values that are thrown, and computations that may throw *)

(** [UserErrorCode] of error/user-error.ts. *)
Inductive UserErrorCode :=
| SH_001 | SH_002 | SH_003 | SH_004 | SH_005
| SH_006 | SH_007 | SH_008 | SH_009 | SH_010
| SH_011 | SH_012 | SH_013 | SH_014 | SH_015.

Definition code_text (c : UserErrorCode) : string :=
  match c with
  | SH_001 => "SH-001" | SH_002 => "SH-002" | SH_003 => "SH-003"
  | SH_004 => "SH-004" | SH_005 => "SH-005" | SH_006 => "SH-006"
  | SH_007 => "SH-007" | SH_008 => "SH-008" | SH_009 => "SH-009"
  | SH_010 => "SH-010" | SH_011 => "SH-011" | SH_012 => "SH-012"
  | SH_013 => "SH-013" | SH_014 => "SH-014" | SH_015 => "SH-015"
  end.

(** A thrown value: an instance of [UserError] (or of one of its subclasses),
    another instance of [Error] ([Error], [TypeError], [SyntaxError]), or a
    value that is no [Error] at all. Of such a value the code only asks
    [String(value)]: it is kept as the string this gives, or it is
    [Unconvertible], a value on which [String] throws, kept as what is
    thrown then: a [TypeError] of the engine for a value without a
    conversion to a string (an object made by [Object.create(null)], say),
    or whatever the [toString] of the value itself throws. *)
Inductive Thrown :=
| UserError (code : UserErrorCode) (message : string)
| Error (message : string)
| TypeError (message : string)
| SyntaxError (message : string)
| NonError (rendering : string)
| Unconvertible (thrown : Thrown).

Inductive Result (A : Type) :=
| Return (a : A)
| Throw (e : Thrown).
Arguments Return {A} a.
Arguments Throw {A} e.

#[export] Instance Result_ret : MRet Result := @Return.
#[export] Instance Result_bind : MBind Result := λ A B f m,
  match m with
  | Return a => f a
  | Throw e => Throw e
  end.

#[export] Instance Result_fmap : FMap Result := λ A B f m,
  match m with
  | Return a => Return (f a)
  | Throw e => Throw e
  end.

(** [try { body } catch (error) { handler }] *)
Definition try_catch {A} (body : Result A) (handler : Thrown → Result A) : Result A :=
  match body with
  | Return a => Return a
  | Throw e => handler e
  end.

Definition returns {A} (m : Result A) : Prop := ∃ a, m = Return a.

(** [error instanceof UserError], [error instanceof Error], [error.message] *)
Definition instanceof_UserError (e : Thrown) : bool :=
  match e with UserError _ _ => true | _ => false end.

Definition instanceof_Error (e : Thrown) : bool :=
  match e with NonError _ | Unconvertible _ => false | _ => true end.

Definition error_code (e : Thrown) : option UserErrorCode :=
  match e with UserError c _ => Some c | _ => None end.

(** [error.message]; the code reads it only after [instanceof Error]. *)
Definition error_message (e : Thrown) : string :=
  match e with
  | UserError _ m | Error m | TypeError m | SyntaxError m => m
  | NonError _ | Unconvertible _ => "undefined"
  end.

(** [error.name]; [UserError] and its subclasses do not set it. *)
Definition error_name (e : Thrown) : string :=
  match e with
  | UserError _ _ | Error _ => "Error"
  | TypeError _ => "TypeError"
  | SyntaxError _ => "SyntaxError"
  | NonError _ | Unconvertible _ => "undefined"
  end.

(** [String(error)]: [Error.prototype.toString] for an [Error], the value's
    own rendering otherwise; it throws what the conversion of a value
    without one throws. *)
Definition String_of (e : Thrown) : Result string :=
  match e with
  | NonError s => Return s
  | Unconvertible thrown => Throw thrown
  | _ =>
      match error_message e with
      | EmptyString => Return (error_name e)
      | m => Return (error_name e +:+ ": " +:+ m)
      end
  end.

(** ** Records *)

(** An object used as a record: its own enumerable properties with string
    keys, in the order in which the object enumerates them, which is what
    [Object.keys], [Object.values] and [Object.entries] go by. *)
Definition Record (V : Type) : Type := list (string * V).

Definition Object_keys {V} (r : Record V) : list string := r.*1.
Definition Object_values {V} (r : Record V) : list V := r.*2.
Definition Object_entries {V} (r : Record V) : list (string * V) := r.

(** An object as it is written down, in a literal or in a JSON text, is a
    list of properties in the order they are declared. The object that
    results does not enumerate them in that order throughout: a key that is
    an array index (a canonical decimal numeral below 2^32 - 1) comes before
    every other key, the array indices in ascending order, the other keys
    in the order they were first declared; and a key declared again keeps
    its place and takes the later value. [object_of] below is the object
    that defining the listed properties one after the other gives, as
    [JSON.parse] does for the members of a JSON text and an object literal
    for its property definitions (in a literal, [__proto__: v] is none). *)
Definition digit_of (c : ascii) : option N :=
  let n := N_of_ascii c in
  if (48 <=? n)%N && (n <=? 57)%N then Some (n - 48)%N else None.

Fixpoint numeral_value (acc : N) (s : string) : option N :=
  match s with
  | EmptyString => Some acc
  | String c rest => d ← digit_of c; numeral_value (acc * 10 + d)%N rest
  end.

Definition array_index (key : string) : option N :=
  match key with
  | EmptyString => None
  | String "0" EmptyString => Some 0%N
  | String "0" _ => None
  | _ => n ← numeral_value 0 key; if (n <? 4294967295)%N then Some n else None
  end.

(** Whether a new key [key] is enumerated before the present key [key']. *)
Definition enumerated_before (key key' : string) : bool :=
  match array_index key, array_index key' with
  | Some i, Some j => (i <? j)%N
  | Some _, None => true
  | None, _ => false
  end.

(** One more property defined on an object. *)
Fixpoint define_property {V} (key : string) (value : V) (object : Record V) : Record V :=
  match object with
  | [] => [(key, value)]
  | (key', value') :: rest =>
      if bool_decide (key' = key) then (key, value) :: rest
      else if enumerated_before key key' then (key, value) :: (key', value') :: rest
      else (key', value') :: define_property key value rest
  end.

Definition object_of {V} (declared : list (string * V)) : Record V :=
  foldl (λ object property, define_property property.1 property.2 object) [] declared.

(** ** error/user-error.ts: the subclasses of [UserError] *)

(** The double-quote character, as a one-character string. *)
Definition DQUOTE : string := String "034"%char EmptyString.

Definition InvalidPathError (pathAlias path : string) : Thrown :=
  UserError SH_001
    ("invalid path mapping detected: " +:+ pathAlias +:+ ": " +:+ path
       +:+ ". Please verify that the path exists.").

Definition NoDependencyRuleForTagError (tag : string) : Thrown :=
  UserError SH_002
    ("No dependency rule for tag '" +:+ tag +:+ "' found in sheriff.config.ts").

Definition NoAssignedTagError (moduleDir : string) : Thrown :=
  UserError SH_003
    ("No assigned Tag for '" +:+ moduleDir +:+ "' in sheriff.config.ts").

Definition TagWithoutValueError (path : string) : Thrown :=
  UserError SH_004
    ("Tag configuration '/" +:+ path +:+ "' in sheriff.config.ts has no value").

Definition ExistingTagPlaceholderError (placeholder : string) : Thrown :=
  UserError SH_005
    ("placeholder for value " +:+ DQUOTE +:+ placeholder
       +:+ DQUOTE +:+ " does already exist").

Definition InvalidPlaceholderError (placeholder path : string) : Thrown :=
  UserError SH_006
    ("cannot find a placeholder for " +:+ DQUOTE +:+ placeholder
       +:+ DQUOTE +:+ " in tag configuration. Module: " +:+ path).

Definition MissingModulesWithoutAutoTaggingError : Thrown :=
  UserError SH_007
    "sheriff.config.ts must have either modules or autoTagging set to true".

Definition TaggingAndModulesError : Thrown :=
  UserError SH_008
    "sheriff.config.ts contains both tagging and modules. Use only modules.".

Definition CollidingEncapsulationSettings : Thrown :=
  UserError SH_009
    "sheriff.config.ts contains both encapsulatedFolderNameForBarrelLess and encapsulationPatternForBarrellLess. Use encapsulationPatternForBarrellLess.".

Definition TsExtendsResolutionError (tsConfigPath extendsPath : string) : Thrown :=
  UserError SH_010
    ("Cannot resolve path " +:+ extendsPath +:+ " of "
       +:+ DQUOTE +:+ "extends" +:+ DQUOTE +:+ " property in "
       +:+ tsConfigPath +:+ ". Please verify that the path exists.").

Definition CollidingEntrySettings : Thrown :=
  UserError SH_011
    "sheriff.config.ts contains both entryFile and entryPoints. Use only one of them.".

Definition NoEntryPointsFoundError : Thrown :=
  UserError SH_012 "No entryPoints defined in sheriff.config.ts.".

Definition PluginNotFoundError (pluginName : string) : Thrown :=
  UserError SH_013
    ("Plugin '" +:+ pluginName
       +:+ "' not found. Make sure to register the plugin in your sheriff.config.ts plugins array.").

Definition PluginInvalidError (details : string) : Thrown :=
  UserError SH_014
    ("Invalid plugin configuration: " +:+ details
       +:+ ". Plugins must have a 'name' property and an 'execute' method.").

(** [Error | string], the type of [originalError]. *)
Inductive ErrorOrString :=
| AnError (error : Thrown)
| JustString (text : string).

(** An [Error] contributes its message, a string itself. *)
Definition PluginExecutionError (pluginName : string) (originalError : ErrorOrString)
  : Thrown :=
  let errorMessage :=
    match originalError with
    | AnError error => error_message error
    | JustString text => text
    end in
  UserError SH_015
    ("Plugin '" +:+ pluginName +:+ "' failed during execution: " +:+ errorMessage).

(** ** The [cli] object and traces *)

(** What the code does through [cli]: [cli.log], [cli.logError],
    [cli.endProcessOk] and [cli.endProcessError]. *)
Inductive CliEvent :=
| Log (message : string)
| LogError (message : string)
| EndProcessOk
| EndProcessError.

(** Running a piece of code: the events it emitted, in order, and how it
    ended. *)
Definition Run (E A : Type) : Type := list E * Result A.

(** What becomes of a promise: it is fulfilled, it is rejected, or it stays
    pending for ever. *)
Inductive Outcome (A : Type) :=
| Fulfilled (a : A)
| Rejected (e : Thrown)
| Pending.
Arguments Fulfilled {A} a.
Arguments Rejected {A} e.
Arguments Pending {A}.

(** A promise: what ran on its behalf, and what became of it. *)
Definition Promise (E A : Type) : Type := list E * Outcome A.

(** [await p] inside an [async] function, for [p] the value of an expression
    that may itself throw before it yields a promise: the function goes on
    with the value ([Fulfilled]), goes on with an exception at this place
    ([Rejected]), or never goes on ([Pending]). *)
Definition await {E A} (call : Run E (Promise E A)) : Promise E A :=
  match call with
  | (t, Throw e) => (t, Rejected e)
  | (t, Return (t', outcome)) => (t ++ t', outcome)
  end.

(** A trace type that [cli] can write to. *)
Class Cli (E : Type) := cli : CliEvent → E.

#[export] Instance Cli_CliEvent : Cli CliEvent := λ e, e.

(** ** cli/internal/handle-error.ts *)

Definition handleErrorOutput `{Cli E} (error : Thrown) : Run E () :=
  if instanceof_UserError error then ([cli (LogError (error_message error))], Return ())
  else if instanceof_Error error then ([cli (LogError (error_message error))], Return ())
  else
    match String_of error with
    | Return text => ([cli (LogError text)], Return ())
    | Throw e => ([], Throw e)
    end.

(** What is thrown in the [catch] block leaves [handleError]. *)
Definition handleError `{Cli E} (fn : Run E ()) : Run E () :=
  match fn with
  | (t, Return _) => (t ++ [cli EndProcessOk], Return ())
  | (t, Throw error) =>
      match handleErrorOutput error with
      | (t', Return _) => (t ++ t' ++ [cli EndProcessError], Return ())
      | (t', Throw e) => (t ++ t', Throw e)
      end
  end.

(** The promise that the [async] function [handleErrorAsync] returns. *)
Definition handleErrorAsync `{Cli E} (fn : Run E (Promise E ())) : Promise E () :=
  match await fn with
  | (t, Fulfilled _) => (t ++ [cli EndProcessOk], Fulfilled ())
  | (t, Rejected error) =>
      match handleErrorOutput error with
      | (t', Return _) => (t ++ t' ++ [cli EndProcessError], Fulfilled ())
      | (t', Throw e) => (t ++ t', Rejected e)
      end
  | (t, Pending) => (t, Pending)
  end.

(** ** cli/internal/parse-string-or-record.ts *)

(** What [JSON.parse] yields. A number is kept as its lexeme: the code only
    asks a value for its [typeof]. An object is the list of its own
    properties. *)
#[warnings="-register-all"] Inductive JsonValue :=
| JNull
| JBool (b : bool)
| JNumber (lexeme : string)
| JString (s : string)
| JArray (items : list JsonValue)
| JObject (props : Record JsonValue).

(** [JSON.parse] is the language's; the code is embedded over any
    implementation of it. It throws a [SyntaxError] on a malformed text. *)
Class Json := { JSON_parse : string → Result JsonValue }.

(** What the JSON grammar gives for a text whose first character is an
    opening brace: if it parses at all, it parses to an object. *)
Definition parses_braces_to_objects `{Json} : Prop :=
  ∀ rest v, JSON_parse (String "{" rest) = Return v → ∃ props, v = JObject props.

Inductive JsType := TUndefined | TObject | TBoolean | TNumber | TString.

Definition typeof (v : JsonValue) : JsType :=
  match v with
  | JNull | JArray _ | JObject _ => TObject
  | JBool _ => TBoolean
  | JNumber _ => TNumber
  | JString _ => TString
  end.

Definition JsType_eqb (a b : JsType) : bool :=
  match a, b with
  | TUndefined, TUndefined | TObject, TObject | TBoolean, TBoolean
  | TNumber, TNumber | TString, TString => true
  | _, _ => false
  end.

Definition is_null (v : JsonValue) : bool :=
  match v with JNull => true | _ => false end.

(** [Object.values(v)] for a parsed value: the elements of an array, the
    property values of an object, nothing for a primitive. *)
Definition Object_values_of (v : JsonValue) : list JsonValue :=
  match v with
  | JArray items => items
  | JObject props => Object_values props
  | _ => []
  end.

(** White space and line terminators that [String.prototype.trim] strips,
    among the code units below 256: TAB, LF, VT, FF, CR, SP and NBSP. *)
Definition is_trim_space (c : ascii) : bool :=
  match nat_of_ascii c with
  | 9 | 10 | 11 | 12 | 13 | 32 | 160 => true
  | _ => false
  end.

Fixpoint trimStart (s : string) : string :=
  match s with
  | EmptyString => EmptyString
  | String c rest => if is_trim_space c then trimStart rest else s
  end.

Fixpoint trimEnd (s : string) : string :=
  match s with
  | EmptyString => EmptyString
  | String c rest =>
      match trimEnd rest with
      | EmptyString => if is_trim_space c then EmptyString else String c EmptyString
      | rest' => String c rest'
      end
  end.

Definition trim (s : string) : string := trimEnd (trimStart s).

Definition startsWith (s : string) (c : ascii) : bool :=
  match s with
  | String c' _ => bool_decide (c' = c)
  | EmptyString => false
  end.

Fixpoint endsWith (s : string) (c : ascii) : bool :=
  match s with
  | EmptyString => false
  | String c' EmptyString => bool_decide (c' = c)
  | String _ rest => endsWith rest c
  end.

(** [replace] with the global pattern for a single quote and a double
    quote as replacement. *)
Fixpoint replace_single_quotes (s : string) : string :=
  match s with
  | EmptyString => EmptyString
  | String c rest =>
      String (if bool_decide (c = "'"%char) then "034"%char else c)
             (replace_single_quotes rest)
  end.

(** [string | Record<string, string>]: the input handed back, or the parsed
    value handed out under the cast [as Record<string, string>]. *)
Inductive StringOrRecord :=
| AString (s : string)
| ARecord (parsed : JsonValue).

(** The test both attempts apply to what [JSON.parse] gave. *)
Definition allValuesAreStrings (parsed : JsonValue) : bool :=
  forallb (λ value, JsType_eqb (typeof value) TString) (Object_values_of parsed).

Definition parseStringOrRecord `{Json} (input : string) : Result StringOrRecord :=
  let trimmedInput := trim input in
  if startsWith trimmedInput "{" && endsWith trimmedInput "}" then
    try_catch
      (direct ←
         try_catch
           (parsed ← JSON_parse trimmedInput;
            if JsType_eqb (typeof parsed) TObject && negb (is_null parsed) then
              if allValuesAreStrings parsed then Return (Some parsed)
              else Return None
            else Return None)
           (λ _, Return None);
       match direct with
       | Some parsed => Return (ARecord parsed)
       | None =>
           let withDoubleQuotes := replace_single_quotes trimmedInput in
           parsed ← JSON_parse withDoubleQuotes;
           if JsType_eqb (typeof parsed) TObject && negb (is_null parsed) then
             if allValuesAreStrings parsed then Return (ARecord parsed)
             else Return (AString input)
           else Return (AString input)
       end)
      (λ _, Return (AString input))
  else
    Return (AString input).

(** ** A reference [JSON.parse]

    A recursive-descent reader of the JSON grammar (ECMA-404) over the
    model's 8-bit strings, used to run the code on concrete inputs. Escapes
    [\uXXXX] above [00FF] have no 8-bit code unit and are refused. *)
Module ReferenceJson.

Definition is_json_space (c : ascii) : bool :=
  match nat_of_ascii c with
  | 9 | 10 | 13 | 32 => true
  | _ => false
  end.

Fixpoint skip_space (s : string) : string :=
  match s with
  | String c rest => if is_json_space c then skip_space rest else s
  | EmptyString => EmptyString
  end.

Definition is_digit (c : ascii) : bool :=
  let n := nat_of_ascii c in (48 <=? n) && (n <=? 57).

Definition hex_digit (c : ascii) : option nat :=
  let n := nat_of_ascii c in
  if (48 <=? n) && (n <=? 57) then Some (n - 48)
  else if (65 <=? n) && (n <=? 70) then Some (n - 55)
  else if (97 <=? n) && (n <=? 102) then Some (n - 87)
  else None.

Definition unicode_escape (h1 h2 h3 h4 : ascii) : option ascii :=
  a ← hex_digit h1; b ← hex_digit h2; c ← hex_digit h3; d ← hex_digit h4;
  let n := ((a * 16 + b) * 16 + c) * 16 + d in
  if n <? 256 then Some (ascii_of_nat n) else None.

Definition simple_escape (c : ascii) : option ascii :=
  match nat_of_ascii c with
  | 34 => Some "034"%char
  | 92 => Some "\"%char
  | 47 => Some "/"%char
  | 98 => Some "008"%char
  | 102 => Some "012"%char
  | 110 => Some "010"%char
  | 114 => Some "013"%char
  | 116 => Some "009"%char
  | _ => None
  end.

(** The characters of a string literal after its opening quote, up to and
    including the closing quote: the decoded string and what follows. *)
Fixpoint read_chars (s : string) : option (string * string) :=
  match s with
  | EmptyString => None
  | String c rest =>
      if bool_decide (c = "034"%char) then Some (EmptyString, rest)
      else if bool_decide (c = "\"%char) then
        match rest with
        | String "u" (String h1 (String h2 (String h3 (String h4 rest')))) =>
            d ← unicode_escape h1 h2 h3 h4;
            '(str, after) ← read_chars rest';
            Some (String d str, after)
        | String e rest' =>
            d ← simple_escape e;
            '(str, after) ← read_chars rest';
            Some (String d str, after)
        | EmptyString => None
        end
      else if nat_of_ascii c <? 32 then None
      else
        '(str, after) ← read_chars rest;
        Some (String c str, after)
  end.

Fixpoint read_digits (s : string) : string * string :=
  match s with
  | String c rest =>
      if is_digit c then let '(ds, after) := read_digits rest in (String c ds, after)
      else (EmptyString, s)
  | EmptyString => (EmptyString, EmptyString)
  end.

Definition read_sign (s : string) : string * string :=
  match s with
  | String "-" rest => ("-", rest)
  | _ => (EmptyString, s)
  end.

Definition read_int (s : string) : option (string * string) :=
  match s with
  | String "0" rest => Some ("0", rest)
  | _ =>
      match read_digits s with
      | (EmptyString, _) => None
      | (ds, after) => Some (ds, after)
      end
  end.

Definition read_frac (s : string) : option (string * string) :=
  match s with
  | String "." rest =>
      match read_digits rest with
      | (EmptyString, _) => None
      | (ds, after) => Some (String "." ds, after)
      end
  | _ => Some (EmptyString, s)
  end.

Definition read_exp (s : string) : option (string * string) :=
  match s with
  | String c rest =>
      if bool_decide (c = "e"%char) || bool_decide (c = "E"%char) then
        let '(sign, rest1) :=
          match rest with
          | String "+" r => ("+", r)
          | String "-" r => ("-", r)
          | _ => (EmptyString, rest)
          end in
        match read_digits rest1 with
        | (EmptyString, _) => None
        | (ds, after) => Some (String c (sign +:+ ds), after)
        end
      else Some (EmptyString, s)
  | EmptyString => Some (EmptyString, s)
  end.

Definition read_number (s : string) : option (string * string) :=
  let '(sign, s1) := read_sign s in
  '(int, s2) ← read_int s1;
  '(frac, s3) ← read_frac s2;
  '(exp, s4) ← read_exp s3;
  Some (sign +:+ int +:+ frac +:+ exp, s4).

Fixpoint strip_prefix (p s : string) : option string :=
  match p, s with
  | EmptyString, _ => Some s
  | String a p', String b s' => if bool_decide (a = b) then strip_prefix p' s' else None
  | _, EmptyString => None
  end.

Fixpoint read_value (fuel : nat) (s : string) : option (JsonValue * string) :=
  match fuel with
  | 0 => None
  | S fuel =>
      match skip_space s with
      | String "{" rest =>
          '(props, after) ←
            match skip_space rest with
            | String "}" after => Some ([], after)
            | body => read_members fuel body []
            end;
          Some (JObject props, after)
      | String "[" rest =>
          '(items, after) ←
            match skip_space rest with
            | String "]" after => Some ([], after)
            | body => read_elements fuel body []
            end;
          Some (JArray items, after)
      | String "034" rest =>
          '(str, after) ← read_chars rest; Some (JString str, after)
      | String "t" _ as s' => after ← strip_prefix "true" s'; Some (JBool true, after)
      | String "f" _ as s' => after ← strip_prefix "false" s'; Some (JBool false, after)
      | String "n" _ as s' => after ← strip_prefix "null" s'; Some (JNull, after)
      | s' => '(lexeme, after) ← read_number s'; Some (JNumber lexeme, after)
      end
  end
with read_elements (fuel : nat) (s : string) (done : list JsonValue)
  : option (list JsonValue * string) :=
  match fuel with
  | 0 => None
  | S fuel =>
      '(v, after) ← read_value fuel s;
      match skip_space after with
      | String "," rest => read_elements fuel rest (done ++ [v])
      | String "]" rest => Some (done ++ [v], rest)
      | _ => None
      end
  end
with read_members (fuel : nat) (s : string) (done : Record JsonValue)
  : option (Record JsonValue * string) :=
  match fuel with
  | 0 => None
  | S fuel =>
      match skip_space s with
      | String "034" rest =>
          '(key, after) ← read_chars rest;
          match skip_space after with
          | String ":" rest' =>
              '(v, after') ← read_value fuel rest';
              let done' := define_property key v done in
              match skip_space after' with
              | String "," rest'' => read_members fuel rest'' done'
              | String "}" rest'' => Some (done', rest'')
              | _ => None
              end
          | _ => None
          end
      | _ => None
      end
  end.

Definition parse (text : string) : Result JsonValue :=
  match read_value (S (S (2 * String.length text))) text with
  | Some (v, after) =>
      match skip_space after with
      | EmptyString => Return v
      | _ => Throw (SyntaxError "Unexpected non-whitespace character after JSON")
      end
  | None => Throw (SyntaxError "Unexpected token in JSON")
  end.

End ReferenceJson.

Definition reference_Json : Json := {| JSON_parse := ReferenceJson.parse |}.

(** ** plugin/plugin.ts: plugins as they arrive at run time *)

(** What [execute(args, api)] does for given [args]: it may throw before it
    returns its promise, and the promise fulfils, rejects or stays pending.
    [api] is the one object [createPluginAPI()] builds, so in a given
    environment the behaviour is a function of [args]. *)
Definition Execute : Type := list string → Run CliEvent (Promise CliEvent ()).

(** What a template literal makes of a value that is no string: a text, or
    no text and something thrown instead, a [TypeError] of the engine for a
    symbol and for an object without a conversion to a primitive, or
    whatever the [toString] of the value itself throws. *)
Inductive Conversion :=
| Text (text : string)
| NoText (thrown : Thrown).

(** The value of a property, as far as the code looks at it: it asks for its
    type, compares it with a string, tests whether it is truthy and puts it
    into a template literal. [VOther] is a value that is neither
    [undefined] nor a string. *)
Inductive PropertyValue :=
| VUndefined
| VString (s : string)
| VOther (truthy : bool) (conversion : Conversion).

(** What reading the three properties of a registered value gives; [execute]
    is [Some] when the property holds a function. The properties are data
    properties: reading one again gives the same value. *)
Record PluginObject := {
  name_value : PropertyValue;
  description_value : PropertyValue;
  execute : option Execute
}.

Definition string_in (v : PropertyValue) : option string :=
  match v with VString s => Some s | _ => None end.

(** The string that [name] and [description] hold, when they hold one. *)
Definition name (o : PluginObject) : option string := string_in (name_value o).
Definition description (o : PluginObject) : option string :=
  string_in (description_value o).

(** An element of the [plugins] array: [undefined], [null], a value that is
    no object (a function, which has a [name], or a primitive other than
    these two), or an object. *)
Inductive PluginValue :=
| PUndefined
| PNull
| PNonObject (o : PluginObject)
| PObject (o : PluginObject).

(** ** config/configuration.ts *)

(** The properties of [Configuration] that the code below reads.
    [entryPoints] and [plugins] are optional properties. *)
Record Configuration := {
  entryFile : string;
  entryPoints : option (Record string);
  plugins : option (list PluginValue)
}.

(** ** Collaborators *)

(** The file-system object that [getFs()] returns. *)
Class Fs := {
  fs_cwd : string;
  fs_join : list string → string;
  fs_exists : string → bool;
  fs_relativeTo : string → string → string
}.

Definition FsPath : Type := string.

(** [DependencyRuleViolation] of the dependency-rule checker: the properties
    that the plugin API copies. *)
Record DependencyRuleViolation := {
  rule_fromTag : string;
  rule_toTags : list string;
  rule_rawImport : string
}.

(** [ProjectEntry<TEntry>] of get-entry-from-cli-or-config.ts. *)
Record ProjectEntry (TEntry : Type) := {
  projectName : string;
  entry : TEntry
}.
Arguments projectName {TEntry} _.
Arguments entry {TEntry} _.

(** Options of [getProjectData] as the plugin API passes them. *)
Record ProjectDataOptions := { skipImportResolution : option bool }.

Record GetProjectDataOptions := {
  opt_projectName : string;
  opt_skipImportResolution : option bool
}.

(** The analysis engine, at the interface the code below calls it through:
    [toFsPath], [init], [parseConfig], [traverseFileInfo], the two checkers
    and [getProjectData]. Each may throw where its result is a [Result]. *)
Class Core := {
  ProjectInfo : Type;
  FileInfo : Type;
  ProjectData : Type;
  toFsPath : string → Result FsPath;
  init : FsPath → Result ProjectInfo;
  parseConfig : string → Result Configuration;
  projectInfo_fileInfo : ProjectInfo → FileInfo;
  projectInfo_config : ProjectInfo → Configuration;
  fileInfo_path : FileInfo → FsPath;
  traverseFileInfo : FileInfo → list FileInfo;
  hasEncapsulationViolations : FsPath → ProjectInfo → Result (Record FileInfo);
  checkForDependencyRuleViolation :
    FsPath → ProjectInfo → Result (list DependencyRuleViolation);
  getProjectDataFn : string → GetProjectDataOptions → Result ProjectData
}.

(** ** cli/internal/is-empty-record.ts *)

(** [Object.keys(arg)?.length === 0]. The argument is whatever the caller
    holds; [Object.keys] throws on [undefined]. *)
Definition isEmptyRecord {V} (arg : option (Record V)) : Result bool :=
  match arg with
  | None => Throw (TypeError "Cannot convert undefined or null to object")
  | Some r => Return (bool_decide (length (Object_keys r) = 0))
  end.

(** ** cli/internal/get-entry-from-cli-or-config.ts *)

Definition DEFAULT_PROJECT_NAME : string := "default".

(** The argument of entry resolution: a string or a record. *)
Inductive EntryValue :=
| EntryString (s : string)
| EntryRecord (r : Record string).

(** Whether a value that may be [undefined] is truthy. *)
Definition truthy_string (s : string) : bool :=
  match s with EmptyString => false | _ => true end.

Definition truthy_entry (v : option EntryValue) : bool :=
  match v with
  | None => false
  | Some (EntryString s) => truthy_string s
  | Some (EntryRecord _) => true
  end.

(** [R extends false ? string : ProjectInfo] *)
Definition TEntry `{Core} (runInit : bool) : Type :=
  if runInit then ProjectInfo else string.

(** The [entry] property of one element: [init(toFsPath(fs.join(fs.cwd(),
    entry)))] with [runInit], the string itself without. *)
Definition entryOf `{Fs, Core} (runInit : bool) (entry : string) : Result (TEntry runInit) :=
  match runInit with
  | true => path ← toFsPath (fs_join [fs_cwd; entry]); init path
  | false => Return entry
  end.

(** [array.map(f)] for an [f] that may throw: left to right, stopping at the
    first throw. *)
Fixpoint map_throwing {A B} (f : A → Result B) (l : list A) : Result (list B) :=
  match l with
  | [] => Return []
  | x :: l' => y ← f x; ys ← map_throwing f l'; Return (y :: ys)
  end.

Definition processEntryFile `{Fs, Core}
    (entryFileValue : EntryValue) (runInit : bool)
  : Result (list (ProjectEntry (TEntry runInit))) :=
  match entryFileValue with
  | EntryString s =>
      e ← entryOf runInit s;
      Return [ {| projectName := DEFAULT_PROJECT_NAME; entry := e |} ]
  | EntryRecord r =>
      let entries := Object_entries r in
      map_throwing
        (λ '(projectName, entry),
           e ← entryOf runInit entry;
           Return {| projectName := projectName; entry := e |})
        entries
  end.

(** [a && b] where evaluating [b] may throw: [b] is evaluated only when [a]
    holds. *)
Definition and_then (a : bool) (b : Result bool) : Result bool :=
  if a then b else Return false.

Definition getEntryFromCliOrConfig `{Fs, Core}
    (entryFileOrEntryPoints : option EntryValue) (runInit : bool)
  : Result (list (ProjectEntry (TEntry runInit))) :=
  match (if truthy_entry entryFileOrEntryPoints then entryFileOrEntryPoints else None) with
  | Some given =>
      (* CLI argument given *)
      processEntryFile given runInit
  | None =>
      let potentialConfigFile := fs_join [fs_cwd; "sheriff.config.ts"] in
      if fs_exists potentialConfigFile then
        sheriffConfig ← parseConfig potentialConfigFile;
        both ← and_then (truthy_string (entryFile sheriffConfig))
                 (negb <$> isEmptyRecord (entryPoints sheriffConfig));
        if (both : bool) then
          Throw (Error "Both entry file and entry points found in sheriff.config.ts. Please provide only one option")
        else if truthy_string (entryFile sheriffConfig) then
          processEntryFile (EntryString (entryFile sheriffConfig)) runInit
        else
          points ← and_then (bool_decide (is_Some (entryPoints sheriffConfig)))
                     (negb <$> isEmptyRecord (entryPoints sheriffConfig));
          if (points : bool) then
            processEntryFile (EntryRecord (default [] (entryPoints sheriffConfig))) runInit
          else
            Throw (Error "No entry file or entry points found in sheriff.config.ts. Please provide the option via the CLI.")
      else
        Throw (Error ("Please provide an entry file (e.g. main.ts) or entry points (e.g. { projectName: "
                        +:+ DQUOTE +:+ "main.ts" +:+ DQUOTE +:+ " })"))
  end.

(** ** plugin/plugin-resolver.ts *)

(** [SheriffPlugin]: a plugin value that passed [validatePlugin]. *)
Record SheriffPlugin := {
  plugin_name : string;
  plugin_description : option string;
  plugin_execute : Execute
}.

(** [validatePlugin] asserts its argument to be a [SheriffPlugin]; the
    narrowed value is what it returns here. *)
Definition validatePlugin (plugin : PluginValue) : Result SheriffPlugin :=
  match plugin with
  | PUndefined | PNull | PNonObject _ =>
      Throw (PluginInvalidError "Plugin must be an object")
  | PObject pluginObj =>
      match name pluginObj with
      | None => Throw (PluginInvalidError "Plugin is missing a valid 'name' property")
      | Some n =>
          if bool_decide (trim n = EmptyString) then
            Throw (PluginInvalidError "Plugin is missing a valid 'name' property")
          else
            match execute pluginObj with
            | None => Throw (PluginInvalidError "Plugin is missing an 'execute' method")
            | Some ex =>
                Return {| plugin_name := n;
                          plugin_description := description pluginObj;
                          plugin_execute := ex |}
            end
      end
  end.

(** [p?.name === name] *)
Definition optional_name_is (p : PluginValue) (wanted : string) : bool :=
  match p with
  | PUndefined | PNull => false
  | PNonObject o | PObject o => bool_decide (name o = Some wanted)
  end.

(** The predicate [findPluginByName] searches with: [validatePlugin(p)]
    followed by [p.name === name], and in the [catch] the same comparison
    through optional chaining. *)
Definition matches_name (wanted : string) (p : PluginValue) : bool :=
  match try_catch (valid ← validatePlugin p;
                   Return (bool_decide (plugin_name valid = wanted)))
                  (λ _, Return (optional_name_is p wanted)) with
  | Return b => b
  | Throw _ => false
  end.

Definition findPluginByName (wanted : string) (plugins : option (list PluginValue))
  : Result SheriffPlugin :=
  match plugins with
  | None | Some [] => Throw (PluginNotFoundError wanted)
  | Some ps =>
      match List.find (matches_name wanted) ps with
      | None => Throw (PluginNotFoundError wanted)
      | Some plugin => validatePlugin plugin
      end
  end.

(** ** cli/internal/get-plugins.ts *)

Definition getPlugins `{Fs, Core} : list PluginValue :=
  let configPath := fs_join [fs_cwd; "sheriff.config.ts"] in
  if negb (fs_exists configPath) then []
  else
    match try_catch (path ← toFsPath configPath;
                     config ← parseConfig path;
                     Return (default [] (plugins config)))
                    (λ _, Return []) with
    | Return ps => ps
    | Throw _ => []
    end.

(** ** cli/plugin-command.ts and cli/main.ts *)

(** The trace of [main]: what went through [cli], and the calls of a
    plugin's [execute]. *)
Inductive MainEvent :=
| FromCli (e : CliEvent)
| InvokeExecute (plugin : SheriffPlugin) (args : list string).

#[export] Instance Cli_MainEvent : Cli MainEvent := FromCli.

(** An [async] function body: what it throws rejects its promise. *)
Definition async {E A} (body : Run E A) : Promise E A :=
  match body with
  | (t, Return a) => (t, Fulfilled a)
  | (t, Throw e) => (t, Rejected e)
  end.

(** Sequencing inside a body. *)
Definition then_run {E A B} (first : Run E A) (next : A → Run E B) : Run E B :=
  match first with
  | (t, Return a) => let '(t', r) := next a in (t ++ t', r)
  | (t, Throw e) => (t, Throw e)
  end.

Definition pure_run {E A} (r : Result A) : Run E A := ([], r).

Definition lift_cli {A} (r : Run CliEvent A) : Run MainEvent A :=
  (FromCli <$> r.1, r.2).

Definition lift_promise {A} (p : Promise CliEvent A) : Promise MainEvent A :=
  (FromCli <$> p.1, p.2).

(** A [SheriffPlugin] is the registered object itself, narrowed; this is
    that object again, for the code that hands it to [validatePlugin] once
    more. *)
Definition as_value (plugin : SheriffPlugin) : PluginValue :=
  PObject {| name_value := VString (plugin_name plugin);
             description_value :=
               match plugin_description plugin with
               | Some d => VString d
               | None => VUndefined
               end;
             execute := Some (plugin_execute plugin) |}.

(** The second argument of [new PluginExecutionError]:
    [error instanceof Error ? error : String(error)]. *)
Definition error_or_string (error : Thrown) : Result ErrorOrString :=
  if instanceof_Error error then Return (AnError error)
  else JustString <$> String_of error.

Definition executePlugin
    (pluginName : string) (args : list string) (plugins : option (list PluginValue))
  : Promise MainEvent () :=
  match (plugin ← findPluginByName pluginName plugins;
         _ ← validatePlugin (as_value plugin);
         Return plugin) with
  | Throw e => ([], Rejected e)
  | Return plugin =>
      (* const api = createPluginAPI(); *)
      match await (let '(t, r) := plugin_execute plugin args in
                   ((FromCli <$> t, lift_promise <$> r) : Run MainEvent _) ) with
      | (t, Fulfilled _) => (InvokeExecute plugin args :: t, Fulfilled ())
      | (t, Pending) => (InvokeExecute plugin args :: t, Pending)
      | (t, Rejected error) =>
          (InvokeExecute plugin args :: t,
           match error_or_string error with
           | Return originalError =>
               Rejected (PluginExecutionError pluginName originalError)
           | Throw e => Rejected e
           end)
      end
  end.

(** What [main] imports besides the above: [cli.bold], the version of
    package.json, and the built-in commands of cli/init.ts, cli/verify.ts,
    cli/list.ts, cli/export-data.ts and cli/version.ts. A command writes
    through [cli] and returns or throws. *)
Class Commands := {
  bold : string → string;
  packageVersion : string;
  cli_init : Run CliEvent ();
  cli_verify : list string → Run CliEvent ();
  cli_list : list string → Run CliEvent ();
  cli_exportData : list string → Run CliEvent ();
  cli_version : Run CliEvent ()
}.

Definition BUILTIN_COMMANDS : list string :=
  ["init"; "verify"; "list"; "export"; "version"].

Definition isBuiltinCommand (cmd : option string) : bool :=
  match cmd with
  | None => false
  | Some c => bool_decide (c ∈ BUILTIN_COMMANDS)
  end.

Definition truthy_value (v : PropertyValue) : bool :=
  match v with
  | VUndefined => false
  | VString s => truthy_string s
  | VOther truthy _ => truthy
  end.

(** The value inside a template literal. *)
Definition template_text (v : PropertyValue) : Result string :=
  match v with
  | VUndefined => Return "undefined"
  | VString s => Return s
  | VOther _ (Text text) => Return text
  | VOther _ (NoText thrown) => Throw thrown
  end.

(** One line of the plugin listing: the description is read and rendered
    first, then the name inside the line. Reading a property of [undefined]
    or [null] throws. *)
Definition plugin_help_line (plugin : PluginValue) : Result string :=
  match plugin with
  | PUndefined =>
      Throw (TypeError "Cannot read properties of undefined (reading 'description')")
  | PNull =>
      Throw (TypeError "Cannot read properties of null (reading 'description')")
  | PNonObject o | PObject o =>
      description ←
        (if truthy_value (description_value o) then
           text ← template_text (description_value o); Return (": " +:+ text)
         else Return EmptyString);
      name ← template_text (name_value o);
      Return ("  sheriff " +:+ name +:+ description)
  end.

Fixpoint log_plugin_lines (plugins : list PluginValue) : Run CliEvent () :=
  match plugins with
  | [] => ([], Return ())
  | plugin :: rest =>
      match plugin_help_line plugin with
      | Throw e => ([], Throw e)
      | Return line => then_run ([Log line], Return ()) (λ _, log_plugin_lines rest)
      end
  end.

Definition showHelp `{Commands} (plugins : list PluginValue) : Run CliEvent () :=
  then_run
    ([ Log (bold ("Sheriff (" +:+ packageVersion +:+ ") - Modularity for TypeScript Projects"));
       Log "";
       Log "Commands:";
       Log "  sheriff export [main.ts]: Exports the project's, along its dependencies and modules in json.";
       Log "  sheriff init [main.ts]: initializes Sheriff by adding a sheriff.config.ts.";
       Log "  sheriff list [main.ts]: lists the current modules of the project.";
       Log "  sheriff verify [main.ts]: runs the verification process for the project.";
       Log "  sheriff version: prints out the current version." ], Return ())
    (λ _,
      then_run
        (if bool_decide (0 < length plugins) then
           then_run ([Log ""; Log "Plugins:"], Return ()) (λ _, log_plugin_lines plugins)
         else ([], Return ()))
        (λ _,
           ([ Log "";
              Log "[main.ts] is optional if a sheriff.config.ts with an entryFile property is in the current path.";
              Log "For more information, visit: https://github.com/softarc-consulting/sheriff" ],
            Return ()))).

(** [plugins.find((p) => p.name === cmd)] *)
Fixpoint find_by_name (cmd : string) (plugins : list PluginValue)
  : Result (option PluginValue) :=
  match plugins with
  | [] => Return None
  | p :: rest =>
      match p with
      | PUndefined =>
          Throw (TypeError "Cannot read properties of undefined (reading 'name')")
      | PNull =>
          Throw (TypeError "Cannot read properties of null (reading 'name')")
      | PNonObject o | PObject o =>
          if bool_decide (name o = Some cmd) then Return (Some p)
          else find_by_name cmd rest
      end
  end.

Definition handlePluginOrHelp `{Commands}
    (cmd : option string) (args : list string) (plugins : list PluginValue)
  : Promise MainEvent () :=
  match cmd with
  | None => async (lift_cli (showHelp plugins))
  | Some c =>
      match find_by_name c plugins with
      | Throw e => ([], Rejected e)
      | Return (Some _) => executePlugin c args (Some plugins)
      | Return None => async (lift_cli (showHelp plugins))
      end
  end.

Definition main `{Fs, Core, Commands} (argv : list string) : Run MainEvent () :=
  let cmd := head argv in
  let args := tail argv in
  if isBuiltinCommand cmd then
    match cmd with
    | Some "init" => handleError (lift_cli cli_init)
    | Some "verify" => handleError (lift_cli (cli_verify args))
    | Some "list" => handleError (lift_cli (cli_list args))
    | Some "export" => handleError (lift_cli (cli_exportData args))
    | Some "version" => lift_cli cli_version
    | _ => ([], Return ())
    end
  else
    (* the promise of handleErrorAsync is not awaited *)
    let plugins := getPlugins in
    ((handleErrorAsync ([], Return (handlePluginOrHelp cmd args plugins))).1, Return ()).

(** ** plugin/plugin-api.ts *)

Record DependencyViolationInfo := {
  fromTag : string;
  toTags : list string;
  rawImport : string
}.

Record FileViolations := {
  encapsulationViolations : list string;
  dependencyRuleViolations : list DependencyViolationInfo
}.

Record VerificationResult := {
  success : bool;
  encapsulationViolationCount : nat;
  dependencyRuleViolationCount : nat;
  filesWithViolationsCount : nat;
  violations : gmap string FileViolations
}.

(** ** plugin/create-plugin-api.ts *)

(** [getEntriesFromCliOrConfig] of cli/internal/get-entries-from-cli-or-config.ts,
    at the interface the plugin API calls it through. The payload of an
    element is read as [projectInfo] after a resolution with [init] and as
    [entryFile] after one without. *)
Class EntryResolution `{Core} := {
  getEntriesFromCliOrConfig :
    option string → ∀ runInit : bool, Result (list (ProjectEntry (TEntry runInit)))
}.

(** A [for .. of] loop over [l] that updates the enclosing variables [s] and
    may throw in its body. *)
Fixpoint for_of {A S} (l : list A) (body : S → A → Result S) (s : S) : Result S :=
  match l with
  | [] => Return s
  | x :: l' => s' ← body s x; for_of l' body s'
  end.

(** The variables [verifyForPlugin] declares before its loops. *)
Record Locals := {
  l_encapsulationViolationCount : nat;
  l_dependencyRuleViolationCount : nat;
  l_filesWithViolationsCount : nat;
  l_violations : gmap string FileViolations
}.

Definition initial_Locals : Locals :=
  {| l_encapsulationViolationCount := 0;
     l_dependencyRuleViolationCount := 0;
     l_filesWithViolationsCount := 0;
     l_violations := ∅ |}.

Definition toInfo (v : DependencyRuleViolation) : DependencyViolationInfo :=
  {| fromTag := rule_fromTag v; toTags := rule_toTags v; rawImport := rule_rawImport v |}.

(** [record[key] = value] on an object made by [{}]. Under the key
    [__proto__] the assignment goes to the accessor of [Object.prototype]:
    it makes the value the prototype of the object and adds no property of
    its own. *)
Definition assign {V} (key : string) (value : V) (record : gmap string V)
  : gmap string V :=
  if bool_decide (key = "__proto__") then record else <[key := value]> record.

(** The body of the inner loop. *)
Definition verify_file `{Fs, Core}
    (projectInfo : ProjectInfo) (vars : Locals) (fileInfo : FileInfo) : Result Locals :=
  encapsulations ←
    Object_keys <$> hasEncapsulationViolations (fileInfo_path fileInfo) projectInfo;
  dependencyRuleViolations ←
    checkForDependencyRuleViolation (fileInfo_path fileInfo) projectInfo;
  if bool_decide (0 < length encapsulations)
     || bool_decide (0 < length dependencyRuleViolations) then
    let relativePath := fs_relativeTo fs_cwd (fileInfo_path fileInfo) in
    let depViolationInfos := toInfo <$> dependencyRuleViolations in
    Return
      {| l_filesWithViolationsCount := l_filesWithViolationsCount vars + 1;
         l_encapsulationViolationCount :=
           l_encapsulationViolationCount vars + length encapsulations;
         l_dependencyRuleViolationCount :=
           l_dependencyRuleViolationCount vars + length dependencyRuleViolations;
         l_violations :=
           assign relativePath
             {| encapsulationViolations := encapsulations;
                dependencyRuleViolations := depViolationInfos |}
             (l_violations vars) |}
  else Return vars.

(** The two nested loops. *)
Definition verify_entries `{Fs, Core}
    (projectEntries : list (ProjectEntry ProjectInfo)) (vars : Locals) : Result Locals :=
  for_of projectEntries
    (λ vars projectEntry,
       for_of (traverseFileInfo (projectInfo_fileInfo (entry projectEntry)))
         (verify_file (entry projectEntry)) vars)
    vars.

Definition result_of (vars : Locals) : VerificationResult :=
  let success :=
    bool_decide (l_encapsulationViolationCount vars = 0)
    && bool_decide (l_dependencyRuleViolationCount vars = 0) in
  {| success := success;
     encapsulationViolationCount := l_encapsulationViolationCount vars;
     dependencyRuleViolationCount := l_dependencyRuleViolationCount vars;
     filesWithViolationsCount := l_filesWithViolationsCount vars;
     violations := l_violations vars |}.

Definition verifyForPlugin `{Fs, Core, !EntryResolution}
    (entryFile : option string) : Result VerificationResult :=
  projectEntries ← getEntriesFromCliOrConfig entryFile true;
  vars ← verify_entries projectEntries initial_Locals;
  Return (result_of vars).

Definition getProjectDataForPlugin `{Fs, Core, !EntryResolution}
    (entryFile : option string) (options : option ProjectDataOptions)
  : Result ProjectData :=
  projectEntries ← getEntriesFromCliOrConfig entryFile false;
  (* Use the first entry point for project data *)
  match projectEntries with
  | [] => Throw (TypeError "Cannot read properties of undefined (reading 'entryFile')")
  | entry0 :: _ =>
      let absolutePath := fs_join [fs_cwd; entry entry0] in
      getProjectDataFn absolutePath
        {| opt_projectName := projectName entry0;
           opt_skipImportResolution := options ≫= skipImportResolution |}
  end.

Definition getConfigForPlugin `{Fs, Core, !EntryResolution} : Result Configuration :=
  projectEntries ← getEntriesFromCliOrConfig None true;
  match projectEntries with
  | [] => Throw (TypeError "Cannot read properties of undefined (reading 'projectInfo')")
  | entry0 :: _ => Return (projectInfo_config (entry entry0))
  end.

Record SheriffPluginAPI `{Core} := {
  verify : option string → Result VerificationResult;
  getProjectData : option string → option ProjectDataOptions → Result ProjectData;
  getConfig : Result Configuration;
  log : string → list CliEvent;
  logError : string → list CliEvent
}.

Definition createPluginAPI `{Fs, Core, !EntryResolution} : SheriffPluginAPI :=
  {| verify := verifyForPlugin;
     getProjectData := getProjectDataForPlugin;
     getConfig := getConfigForPlugin;
     log := λ message, [Log message];
     logError := λ message, [LogError message] |}.

(** ** cli/export-data.ts *)

(** The options [exportData] passes to [getProjectData]. *)
Record ExportOptions := { includeExternalLibraries : bool }.

(** What [exportData] imports besides entry resolution: [getProjectData] of
    api/get-project-data.ts, called with the entry, the working directory
    and the options, and [JSON.stringify] with the two-space indentation. *)
Class Exporter `{Core} := {
  getProjectData_in : string → string → ExportOptions → Result ProjectData;
  JSON_stringify : ProjectData → string
}.

(** The loop of [exportData]: one document per entry, logged as soon as it
    is computed. *)
Fixpoint export_entries `{Fs, Core, !Exporter}
    (entries : list (ProjectEntry string)) : Run CliEvent () :=
  match entries with
  | [] => ([], Return ())
  | entry0 :: rest =>
      match getProjectData_in (entry entry0) fs_cwd {| includeExternalLibraries := true |} with
      | Throw e => ([], Throw e)
      | Return data =>
          then_run ([Log (JSON_stringify data)], Return ()) (λ _, export_entries rest)
      end
  end.

Definition exportData `{Fs, Core, !Exporter} (args : list string) : Run CliEvent () :=
  match getEntryFromCliOrConfig (EntryString <$> head args) false with
  | Throw e => ([], Throw e)
  | Return entryFile => export_entries entryFile
  end.

(** ** cli/internal/get-entry-from-cli-or-config.ts, before entry points
    could be configured

    The version of the file that knows [entryFile] only. [processEntryFile]
    is the same in both. *)
Module Legacy.

Definition getEntryFromCliOrConfig `{Fs, Core}
    (entryFile' : option EntryValue) (runInit : bool)
  : Result (list (ProjectEntry (TEntry runInit))) :=
  match (if truthy_entry entryFile' then entryFile' else None) with
  | Some given => processEntryFile given runInit
  | None =>
      let potentialConfigFile := fs_join [fs_cwd; "sheriff.config.ts"] in
      if fs_exists potentialConfigFile then
        sheriffConfig ← parseConfig potentialConfigFile;
        if truthy_string (entryFile sheriffConfig) then
          processEntryFile (EntryString (entryFile sheriffConfig)) runInit
        else
          Throw (Error "No entry file found in sheriff.config.ts. Please provide one via the CLI ")
      else
        Throw (Error "Please provide an entry file, e.g. main.ts")
  end.

End Legacy.

(** ** A small workspace to run the code on

    One workspace under [/project]: an application entered at [src/main.ts]
    with the modules [customers] and [holidays], and two projects,
    [project-i] and [project-ii], that both reach the file
    [libs/shared/util.ts]. The tables below stand for what the analysis
    engine answers on it. *)
Module Toy.

Definition files : list string :=
  [ "/project/sheriff.config.ts";
    "/project/src/main.ts";
    "/project/src/customers/index.ts";
    "/project/src/customers/internal/customer.service.ts";
    "/project/src/holidays/index.ts";
    "/project/src/holidays/holidays.component.ts";
    "/project/projects/project-i/src/main.ts";
    "/project/projects/project-i/src/feature.ts";
    "/project/projects/project-ii/src/main.ts";
    "/project/projects/project-ii/src/feature.ts";
    "/project/libs/shared/util.ts" ].

Definition fs : Fs :=
  {| fs_cwd := "/project";
     fs_join := String.concat "/";
     fs_exists := λ path, bool_decide (path ∈ files);
     fs_relativeTo := λ base path,
       default path (ReferenceJson.strip_prefix (base +:+ "/") path) |}.

Definition main_ts : string := "/project/src/main.ts".
Definition component_ts : string := "/project/src/holidays/holidays.component.ts".
Definition main_i : string := "/project/projects/project-i/src/main.ts".
Definition main_ii : string := "/project/projects/project-ii/src/main.ts".
Definition util_ts : string := "/project/libs/shared/util.ts".

(** A project is named by its entry file, a file by its path. *)
Definition traverse (entryFile : string) : list string :=
  if bool_decide (entryFile = main_ts) then
    [ main_ts;
      "/project/src/customers/index.ts";
      "/project/src/holidays/index.ts";
      component_ts;
      "/project/src/customers/internal/customer.service.ts" ]
  else if bool_decide (entryFile = main_i) then
    [ main_i; util_ts; "/project/projects/project-i/src/feature.ts" ]
  else if bool_decide (entryFile = main_ii) then
    [ main_ii; util_ts; "/project/projects/project-ii/src/feature.ts" ]
  else [ entryFile ].

(** [holidays.component.ts] reaches past the barrel of [customers]. *)
Definition encapsulation (path project : string) : Record string :=
  if bool_decide (path = component_ts) then
    [ ("../customers/internal/customer.service",
       "/project/src/customers/internal/customer.service.ts") ]
  else [].

(** [holidays] may not import [customers]; the import is written twice in
    the file. The shared file imports [@app/feature], which each project's
    path alias resolves into that project. *)
Definition dependency (path project : string) : list DependencyRuleViolation :=
  if bool_decide (path = component_ts) then
    [ {| rule_fromTag := "holidays"; rule_toTags := ["customers"];
         rule_rawImport := "../customers" |};
      {| rule_fromTag := "holidays"; rule_toTags := ["customers"];
         rule_rawImport := "../customers" |} ]
  else if bool_decide (path = util_ts) then
    if bool_decide (project = main_i) then
      [ {| rule_fromTag := "shared"; rule_toTags := ["app:project-i"];
           rule_rawImport := "@app/feature" |} ]
    else
      [ {| rule_fromTag := "shared"; rule_toTags := ["app:project-ii"];
           rule_rawImport := "@app/feature" |} ]
  else [].

Definition core (config : Result Configuration) : Core :=
  {| ProjectInfo := string;
     FileInfo := string;
     ProjectData := string * GetProjectDataOptions;
     toFsPath := λ path,
       if @fs_exists fs path then Return path
       else Throw (Error (path +:+ " does not exist"));
     init := λ path, Return path;
     parseConfig := λ _, config;
     projectInfo_fileInfo := λ project, project;
     projectInfo_config := λ _,
       match config with
       | Return c => c
       | Throw _ => {| entryFile := ""; entryPoints := None; plugins := None |}
       end;
     fileInfo_path := λ file, file;
     traverseFileInfo := traverse;
     hasEncapsulationViolations := λ path project, Return (encapsulation path project);
     checkForDependencyRuleViolation := λ path project, Return (dependency path project);
     getProjectDataFn := λ path options, Return (path, options) |}.

(** Entry resolution for the plugin API, by the code of
    get-entry-from-cli-or-config.ts. *)
Definition resolution (config : Result Configuration) : @EntryResolution (core config) :=
  {| getEntriesFromCliOrConfig := λ entryFile runInit,
       @getEntryFromCliOrConfig fs (core config) (EntryString <$> entryFile) runInit |}.

Definition config_entryFile : Configuration :=
  {| entryFile := "src/main.ts"; entryPoints := Some []; plugins := None |}.

Definition config_entryFile_only : Configuration :=
  {| entryFile := "src/main.ts"; entryPoints := None; plugins := None |}.

Definition two_projects : Record string :=
  [ ("project-i", "projects/project-i/src/main.ts");
    ("project-ii", "projects/project-ii/src/main.ts") ].

Definition config_entryPoints : Configuration :=
  {| entryFile := ""; entryPoints := Some two_projects; plugins := None |}.

Definition config_both : Configuration :=
  {| entryFile := "src/main.ts"; entryPoints := Some two_projects; plugins := None |}.

Definition config_neither : Configuration :=
  {| entryFile := ""; entryPoints := None; plugins := None |}.

(** Two registered plugins; the first one takes the name of a built-in
    command. *)
Definition plugin_called (n : string) : PluginValue :=
  PObject {| name_value := VString n;
             description_value := VString "a plugin";
             execute := Some (λ args, ([Log ("plugin " +:+ n)], Return ([], Fulfilled ()))) |}.

Definition config_plugins : Configuration :=
  {| entryFile := "src/main.ts"; entryPoints := Some [];
     plugins := Some [plugin_called "verify"; plugin_called "reporter"] |}.

Definition commands : Commands :=
  {| bold := λ s, s;
     packageVersion := "0.0.1";
     cli_init := ([Log "init ran"], Return ());
     cli_verify := λ _, ([Log "verify ran"], Return ());
     cli_list := λ _, ([Log "list ran"], Return ());
     cli_exportData := λ _, ([Log "export ran"], Return ());
     cli_version := ([Log "0.0.1"], Return ()) |}.

Definition project_i : ProjectEntry string :=
  {| projectName := "project-i"; entry := main_i |}.

Definition project_ii : ProjectEntry string :=
  {| projectName := "project-ii"; entry := main_ii |}.

Definition application : ProjectEntry string :=
  {| projectName := "default"; entry := main_ts |}.

(** What the checkers say about the files reached from [src/main.ts]. *)
Definition component_report : FileViolations :=
  {| encapsulationViolations := ["../customers/internal/customer.service"];
     dependencyRuleViolations :=
       [ {| fromTag := "holidays"; toTags := ["customers"]; rawImport := "../customers" |};
         {| fromTag := "holidays"; toTags := ["customers"]; rawImport := "../customers" |} ] |}.

Definition clean : FileViolations :=
  {| encapsulationViolations := []; dependencyRuleViolations := [] |}.

(** [getProjectData] of the export on this workspace: the path under the
    working directory with the options of a default project; a file that
    does not exist cannot be analysed. *)
Definition exporter (config : Result Configuration) : @Exporter (core config) :=
  {| getProjectData_in := λ entryFile cwd options,
       let data : @ProjectData (core config) :=
         (@fs_join fs [cwd; entryFile],
          {| opt_projectName := "default"; opt_skipImportResolution := None |}) in
       if @fs_exists fs (@fs_join fs [cwd; entryFile]) then Return data
       else Throw (Error (entryFile +:+ " does not exist"));
     JSON_stringify := λ data : string * GetProjectDataOptions,
       "{ path: " +:+ data.1 +:+ " }" |}.

(** The same workspace under a configuration without a dependency rule for
    the tag of the shared file: the checker throws there. *)
Definition core_without_rule (config : Result Configuration) : Core :=
  {| ProjectInfo := string;
     FileInfo := string;
     ProjectData := string * GetProjectDataOptions;
     toFsPath := @toFsPath (core config);
     init := @init (core config);
     parseConfig := @parseConfig (core config);
     projectInfo_fileInfo := λ project, project;
     projectInfo_config := @projectInfo_config (core config);
     fileInfo_path := λ file, file;
     traverseFileInfo := traverse;
     hasEncapsulationViolations := λ path project, Return (encapsulation path project);
     checkForDependencyRuleViolation := λ path project,
       if bool_decide (path = util_ts) then Throw (NoDependencyRuleForTagError "shared")
       else Return (dependency path project);
     getProjectDataFn := λ path options, Return (path, options) |}.

Definition resolution_without_rule (config : Result Configuration)
  : @EntryResolution (core_without_rule config) :=
  {| getEntriesFromCliOrConfig := λ entryFile runInit,
       @getEntryFromCliOrConfig fs (core_without_rule config)
         (EntryString <$> entryFile) runInit |}.

Definition application_reports : list (string * FileViolations) :=
  [ ("src/main.ts", clean);
    ("src/customers/index.ts", clean);
    ("src/holidays/index.ts", clean);
    ("src/holidays/holidays.component.ts", component_report);
    ("src/customers/internal/customer.service.ts", clean) ].

End Toy.

(** * Vocabulary of the statements *)

(** The errors that entry resolution raises itself. *)
Definition both_declared : Thrown :=
  Error "Both entry file and entry points found in sheriff.config.ts. Please provide only one option".

Definition none_declared : Thrown :=
  Error "No entry file or entry points found in sheriff.config.ts. Please provide the option via the CLI.".

Definition no_entry_given : Thrown :=
  Error ("Please provide an entry file (e.g. main.ts) or entry points (e.g. { projectName: "
           +:+ DQUOTE +:+ "main.ts" +:+ DQUOTE +:+ " })").

(** The classes of error/user-error.ts with the arguments of their
    constructors. *)
Inductive UserErrorClass :=
| InvalidPath (pathAlias path : string)
| NoDependencyRuleForTag (tag : string)
| NoAssignedTag (moduleDir : string)
| TagWithoutValue (path : string)
| ExistingTagPlaceholder (placeholder : string)
| InvalidPlaceholder (placeholder path : string)
| MissingModulesWithoutAutoTagging
| TaggingAndModules
| CollidingEncapsulation
| TsExtendsResolution (tsConfigPath extendsPath : string)
| CollidingEntry
| NoEntryPointsFound
| PluginNotFound (pluginName : string)
| PluginInvalid (details : string)
| PluginExecution (pluginName : string) (originalError : ErrorOrString).

(** [new C(args)] *)
Definition construct (c : UserErrorClass) : Thrown :=
  match c with
  | InvalidPath pathAlias path => InvalidPathError pathAlias path
  | NoDependencyRuleForTag tag => NoDependencyRuleForTagError tag
  | NoAssignedTag moduleDir => NoAssignedTagError moduleDir
  | TagWithoutValue path => TagWithoutValueError path
  | ExistingTagPlaceholder placeholder => ExistingTagPlaceholderError placeholder
  | InvalidPlaceholder placeholder path => InvalidPlaceholderError placeholder path
  | MissingModulesWithoutAutoTagging => MissingModulesWithoutAutoTaggingError
  | TaggingAndModules => TaggingAndModulesError
  | CollidingEncapsulation => CollidingEncapsulationSettings
  | TsExtendsResolution tsConfigPath extendsPath =>
      TsExtendsResolutionError tsConfigPath extendsPath
  | CollidingEntry => CollidingEntrySettings
  | NoEntryPointsFound => NoEntryPointsFoundError
  | PluginNotFound pluginName => PluginNotFoundError pluginName
  | PluginInvalid details => PluginInvalidError details
  | PluginExecution pluginName originalError =>
      PluginExecutionError pluginName originalError
  end.

(** The code that identifies a class. *)
Definition code_of (c : UserErrorClass) : UserErrorCode :=
  match c with
  | InvalidPath _ _ => SH_001
  | NoDependencyRuleForTag _ => SH_002
  | NoAssignedTag _ => SH_003
  | TagWithoutValue _ => SH_004
  | ExistingTagPlaceholder _ => SH_005
  | InvalidPlaceholder _ _ => SH_006
  | MissingModulesWithoutAutoTagging => SH_007
  | TaggingAndModules => SH_008
  | CollidingEncapsulation => SH_009
  | TsExtendsResolution _ _ => SH_010
  | CollidingEntry => SH_011
  | NoEntryPointsFound => SH_012
  | PluginNotFound _ => SH_013
  | PluginInvalid _ => SH_014
  | PluginExecution _ _ => SH_015
  end.

(** The file, tag, alias, placeholder or plugin an error is about. *)
Definition offenders (c : UserErrorClass) : list string :=
  match c with
  | InvalidPath pathAlias path => [pathAlias; path]
  | NoDependencyRuleForTag tag => [tag]
  | NoAssignedTag moduleDir => [moduleDir]
  | TagWithoutValue path => [path]
  | ExistingTagPlaceholder placeholder => [placeholder]
  | InvalidPlaceholder placeholder path => [placeholder; path]
  | TsExtendsResolution tsConfigPath extendsPath => [tsConfigPath; extendsPath]
  | PluginNotFound pluginName => [pluginName]
  | PluginInvalid details => [details]
  | PluginExecution pluginName _ => [pluginName]
  | _ => []
  end.

Definition same_class (c1 c2 : UserErrorClass) : Prop :=
  match c1, c2 with
  | InvalidPath _ _, InvalidPath _ _
  | NoDependencyRuleForTag _, NoDependencyRuleForTag _
  | NoAssignedTag _, NoAssignedTag _
  | TagWithoutValue _, TagWithoutValue _
  | ExistingTagPlaceholder _, ExistingTagPlaceholder _
  | InvalidPlaceholder _ _, InvalidPlaceholder _ _
  | MissingModulesWithoutAutoTagging, MissingModulesWithoutAutoTagging
  | TaggingAndModules, TaggingAndModules
  | CollidingEncapsulation, CollidingEncapsulation
  | TsExtendsResolution _ _, TsExtendsResolution _ _
  | CollidingEntry, CollidingEntry
  | NoEntryPointsFound, NoEntryPointsFound
  | PluginNotFound _, PluginNotFound _
  | PluginInvalid _, PluginInvalid _
  | PluginExecution _ _, PluginExecution _ _ => True
  | _, _ => False
  end.

Definition all_codes : list string :=
  [ "SH-001"; "SH-002"; "SH-003"; "SH-004"; "SH-005";
    "SH-006"; "SH-007"; "SH-008"; "SH-009"; "SH-010";
    "SH-011"; "SH-012"; "SH-013"; "SH-014"; "SH-015" ].

(** [part] occurs in [message]. *)
Definition mentions (message part : string) : Prop :=
  ∃ before after, message = before +:+ part +:+ after.

(** A thrown value that is a [UserError] with one of the fifteen codes. *)
Definition is_coded_UserError (e : Thrown) : Prop :=
  ∃ code message, e = UserError code message ∧ code_text code ∈ all_codes.

(** The reading of the specification under which every error that entry
    resolution raises is a coded [UserError]. *)
Definition entry_errors_are_coded `{Fs, Core}
    (entryFileOrEntryPoints : option EntryValue) (runInit : bool) : Prop :=
  ∀ e, getEntryFromCliOrConfig entryFileOrEntryPoints runInit = Throw e →
       is_coded_UserError e.

(** What the two checkers say about one file of one project, in the shape
    the plugin API records it. *)
Definition file_report `{Core} (projectInfo : ProjectInfo) (fileInfo : FileInfo)
  : Result FileViolations :=
  encapsulations ←
    Object_keys <$> hasEncapsulationViolations (fileInfo_path fileInfo) projectInfo;
  dependencyRuleViolations ←
    checkForDependencyRuleViolation (fileInfo_path fileInfo) projectInfo;
  Return {| encapsulationViolations := encapsulations;
            dependencyRuleViolations := toInfo <$> dependencyRuleViolations |}.

Definition has_violations (report : FileViolations) : bool :=
  bool_decide (0 < length (encapsulationViolations report))
  || bool_decide (0 < length (dependencyRuleViolations report)).

(** The files a run visits, each with its project, in the order of the two
    loops. *)
Definition visits `{Core} (projectEntries : list (ProjectEntry ProjectInfo))
  : list (ProjectInfo * FileInfo) :=
  projectEntry ← projectEntries;
  (λ fileInfo, (entry projectEntry, fileInfo))
    <$> traverseFileInfo (projectInfo_fileInfo (entry projectEntry)).

(** The key a file is recorded under. *)
Definition key_of `{Fs, Core} (fileInfo : FileInfo) : string :=
  fs_relativeTo fs_cwd (fileInfo_path fileInfo).

(** The report of one visit, with the key it is recorded under. *)
Definition keyed_report `{Fs, Core} (visit : ProjectInfo * FileInfo)
  : Result (string * FileViolations) :=
  report ← file_report visit.1 visit.2; Return (key_of visit.2, report).

(** [reports] lists, visit by visit, the key of the file and what the
    checkers returned for it. *)
Definition reports_of `{Fs, Core}
    (visited : list (ProjectInfo * FileInfo)) (reports : list (string * FileViolations))
  : Prop :=
  Forall2 (λ visit report,
             report.1 = key_of visit.2 ∧ file_report visit.1 visit.2 = Return report.2)
          visited reports.

Definition total_encapsulation (reports : list (string * FileViolations)) : nat :=
  sum_list ((λ report, length (encapsulationViolations report.2)) <$> reports).

Definition total_dependency (reports : list (string * FileViolations)) : nat :=
  sum_list ((λ report, length (dependencyRuleViolations report.2)) <$> reports).

(** The record of violations that a list of reports leaves behind. *)
Definition record_of (reports : list (string * FileViolations)) : gmap string FileViolations :=
  foldl (λ recorded report,
           if has_violations report.2 then assign report.1 report.2 recorded
           else recorded)
        ∅ reports.

(** The two loops of [verifyForPlugin] on given entries. *)
Definition verify_alone `{Fs, Core} (projectEntries : list (ProjectEntry ProjectInfo))
  : Result VerificationResult :=
  result_of <$> verify_entries projectEntries initial_Locals.

(** The reading of the specification under which the reports of two entry
    points never interfere: what a run over both records for a file of
    either is what a run over that entry point alone records for it. *)
Definition reports_independent `{Fs, Core} (e1 e2 : ProjectEntry ProjectInfo) : Prop :=
  ∀ both alone1 alone2,
    verify_alone [e1; e2] = Return both →
    verify_alone [e1] = Return alone1 →
    verify_alone [e2] = Return alone2 →
    (∀ fileInfo, fileInfo ∈ traverseFileInfo (projectInfo_fileInfo (entry e1)) →
       violations both !! key_of fileInfo = violations alone1 !! key_of fileInfo)
    ∧ (∀ fileInfo, fileInfo ∈ traverseFileInfo (projectInfo_fileInfo (entry e2)) →
         violations both !! key_of fileInfo = violations alone2 !! key_of fileInfo).

(** No file of one entry point is recorded under the key of a file of the
    other. *)
Definition isolated `{Fs, Core} (e1 e2 : ProjectEntry ProjectInfo) : Prop :=
  ∀ f1 f2,
    f1 ∈ traverseFileInfo (projectInfo_fileInfo (entry e1)) →
    f2 ∈ traverseFileInfo (projectInfo_fileInfo (entry e2)) →
    key_of f1 ≠ key_of f2.

(** One report entered into the variables of [verifyForPlugin]. *)
Definition record_report (vars : Locals) (report : string * FileViolations) : Locals :=
  if has_violations report.2 then
    {| l_filesWithViolationsCount := l_filesWithViolationsCount vars + 1;
       l_encapsulationViolationCount :=
         l_encapsulationViolationCount vars + length (encapsulationViolations report.2);
       l_dependencyRuleViolationCount :=
         l_dependencyRuleViolationCount vars + length (dependencyRuleViolations report.2);
       l_violations := assign report.1 report.2 (l_violations vars) |}
  else vars.

(** The result that a list of reports amounts to. *)
Definition summary (reports : list (string * FileViolations)) : VerificationResult :=
  {| success :=
       bool_decide (total_encapsulation reports = 0)
       && bool_decide (total_dependency reports = 0);
     encapsulationViolationCount := total_encapsulation reports;
     dependencyRuleViolationCount := total_dependency reports;
     filesWithViolationsCount :=
       length (filter (λ report, has_violations report.2 = true) reports);
     violations := record_of reports |}.

(** What [handleErrorOutput] prints for a thrown value: the message of an
    [Error], the string of another value that has one. *)
Definition printed_message (error : Thrown) : option string :=
  match error with
  | UserError _ m | Error m | TypeError m | SyntaxError m => Some m
  | NonError text => Some text
  | Unconvertible _ => None
  end.


(** The call [main] makes for a built-in command. *)
Definition builtin_call `{Commands} (cmd : string) (args : list string) : Run MainEvent () :=
  if bool_decide (cmd = "init") then handleError (lift_cli cli_init)
  else if bool_decide (cmd = "verify") then handleError (lift_cli (cli_verify args))
  else if bool_decide (cmd = "list") then handleError (lift_cli (cli_list args))
  else if bool_decide (cmd = "export") then handleError (lift_cli (cli_exportData args))
  else lift_cli cli_version.

(** An object all of whose property values are strings. *)
Definition string_valued (props : Record JsonValue) : Prop :=
  Forall (λ value, ∃ s, value = JString s) (Object_values props).

(** The one way [parseStringOrRecord] hands out a record: the trimmed input
    is delimited by braces and parses to a string-valued object [props],
    as it stands or, failing that, once its single quotes are replaced. *)
Definition parses_to_record `{Json} (input : string) (props : Record JsonValue) : Prop :=
  startsWith (trim input) "{" = true
  ∧ endsWith (trim input) "}" = true
  ∧ string_valued props
  ∧ (JSON_parse (trim input) = Return (JObject props)
     ∨ JSON_parse (replace_single_quotes (trim input)) = Return (JObject props)).

(** A property value that can be put into a template literal. *)
Definition has_text (v : PropertyValue) : bool :=
  match v with
  | VOther _ (NoText _) => false
  | _ => true
  end.

(** A registered value that the help can list: it is neither [undefined]
    nor [null], its [name] has a text, and its [description] is falsy or
    has a text. *)
Definition listable (p : PluginValue) : bool :=
  match p with
  | PUndefined | PNull => false
  | PNonObject o | PObject o =>
      has_text (name_value o)
      && (negb (truthy_value (description_value o)) || has_text (description_value o))
  end.

(** [thrown] is what putting the [name] or the [description] of the
    registered value [p] into a template literal throws. *)
Definition conversion_throws (p : PluginValue) (thrown : Thrown) : Prop :=
  ∃ o truthy,
    (p = PNonObject o ∨ p = PObject o)
    ∧ (name_value o = VOther truthy (NoText thrown)
       ∨ description_value o = VOther truthy (NoText thrown)).


(** The calls of a plugin's [execute] in a trace, in order. *)
Definition invocations (trace : list MainEvent) : list (SheriffPlugin * list string) :=
  omap (λ event,
          match event with
          | InvokeExecute plugin args => Some (plugin, args)
          | FromCli _ => None
          end) trace.

(** Modelled from the spec: the validation of the path mappings and of the
    configuration, whose code is not under src/. These are the well-known
    kinds of configuration error that the spec describes, each with what it
    is about: an [extends] target of a tsconfig that does not resolve, a
    path alias whose target does not exist, both tagging modes or none, a
    placeholder of a tag template that its directory template does not
    declare, a placeholder declared twice, a directory without a tag, a tag
    without a rule, and both conventions for barrel-less modules.
    [raised_for] is the error of error/user-error.ts raised for each. *)
Inductive ConfigurationFault :=
| UnresolvedExtends (tsConfigPath extendsPath : string)
| BadPathAlias (pathAlias path : string)
| BothTaggingModes
| NoTaggingMode
| UndeclaredPlaceholder (placeholder path : string)
| PlaceholderDeclaredTwice (placeholder : string)
| MissingTagAssignment (moduleDir : string)
| MissingDependencyRule (tag : string)
| BothBarrelLessConventions.

Definition raised_for (fault : ConfigurationFault) : UserErrorClass :=
  match fault with
  | UnresolvedExtends tsConfigPath extendsPath => TsExtendsResolution tsConfigPath extendsPath
  | BadPathAlias pathAlias path => InvalidPath pathAlias path
  | BothTaggingModes => TaggingAndModules
  | NoTaggingMode => MissingModulesWithoutAutoTagging
  | UndeclaredPlaceholder placeholder path => InvalidPlaceholder placeholder path
  | PlaceholderDeclaredTwice placeholder => ExistingTagPlaceholder placeholder
  | MissingTagAssignment moduleDir => NoAssignedTag moduleDir
  | MissingDependencyRule tag => NoDependencyRuleForTag tag
  | BothBarrelLessConventions => CollidingEncapsulation
  end.

(** What a configuration fault is about. *)
Definition about (fault : ConfigurationFault) : list string :=
  match fault with
  | UnresolvedExtends tsConfigPath extendsPath => [tsConfigPath; extendsPath]
  | BadPathAlias pathAlias path => [pathAlias; path]
  | UndeclaredPlaceholder placeholder path => [placeholder; path]
  | PlaceholderDeclaredTwice placeholder => [placeholder]
  | MissingTagAssignment moduleDir => [moduleDir]
  | MissingDependencyRule tag => [tag]
  | BothTaggingModes | NoTaggingMode | BothBarrelLessConventions => []
  end.

(** Every file that both entry points reach gets the same verdict of the
    checkers under both. *)
Definition same_verdicts_on_shared_files `{Fs, Core} (e1 e2 : ProjectEntry ProjectInfo)
  : Prop :=
  ∀ f1 f2,
    f1 ∈ traverseFileInfo (projectInfo_fileInfo (entry e1)) →
    f2 ∈ traverseFileInfo (projectInfo_fileInfo (entry e2)) →
    key_of f1 = key_of f2 →
    file_report (entry e1) f1 = file_report (entry e2) f2.

(** The reading of the specification under which the record holds, for
    every file of the graph, exactly what the checkers found for it:
    whenever and from wherever the file is visited. *)
Definition record_holds_every_visit `{Fs, Core}
    (projectEntries : list (ProjectEntry ProjectInfo)) (r : VerificationResult) : Prop :=
  ∀ projectInfo fileInfo report,
    (projectInfo, fileInfo) ∈ visits projectEntries →
    file_report projectInfo fileInfo = Return report →
    violations r !! key_of fileInfo = if has_violations report then Some report else None.

Definition record_holds_each_files_violations `{Fs, Core, !EntryResolution}
    (entryFile : option string) : Prop :=
  ∀ projectEntries r,
    getEntriesFromCliOrConfig entryFile true = Return projectEntries →
    verifyForPlugin entryFile = Return r →
    record_holds_every_visit projectEntries r.

(** The reading of the specification under which the entries of a record
    come in the order its pairs are declared in. *)
Definition resolved_in_declaration_order `{Fs, Core}
    (runInit : bool) (declared : list (string * string)) : Prop :=
  ∃ entries,
    processEntryFile (EntryRecord (object_of declared)) runInit = Return entries
    ∧ projectName <$> entries = declared.*1.

(** * Properties *)

(** A decidable proposition about concrete data, settled by evaluating its
    decision procedure. *)
Ltac by_evaluation :=
  match goal with |- ?P => exact (bool_decide_unpack P I) end.

(** ** Computations that may throw *)

Lemma bind_Return {A B} (m : Result A) (f : A → Result B) (b : B) :
  m ≫= f = Return b ↔ ∃ a, m = Return a ∧ f a = Return b.
Proof.
  destruct m as [a|e]; simpl.
  - split; [eauto | intros (a' & [= <-] & Hf); exact Hf].
  - split; [discriminate | intros (a' & [=] & _)].
Qed.

Lemma fmap_Return {A B} (m : Result A) (f : A → B) (b : B) :
  f <$> m = Return b ↔ ∃ a, m = Return a ∧ f a = b.
Proof.
  destruct m as [a|e]; simpl.
  - split; [intros [= <-]; eauto | intros (a' & [= <-] & <-); reflexivity].
  - split; [discriminate | intros (a' & [=] & _)].
Qed.

Lemma map_throwing_Return {A B} (f : A → Result B) (l : list A) (ys : list B) :
  map_throwing f l = Return ys ↔ Forall2 (λ x y, f x = Return y) l ys.
Proof.
  revert ys. induction l as [|x l IH]; intros ys; simpl.
  - split.
    + intros [= <-]. constructor.
    + intros Hnil. apply Forall2_nil_inv_l in Hnil as ->. reflexivity.
  - rewrite bind_Return. split.
    + intros (y & Hy & Hrest). apply bind_Return in Hrest as (ys' & Hys' & [= <-]).
      constructor; [exact Hy | by apply IH].
    + intros Hall. apply Forall2_cons_inv_l in Hall as (y & ys' & Hy & Hys' & ->).
      exists y. split; [exact Hy|]. apply bind_Return. exists ys'.
      split; [by apply IH | reflexivity].
Qed.

(** ** Error handling of the CLI *)

Lemma handleErrorOutput_prints `{Cli E} (error : Thrown) :
  handleErrorOutput error
  = match printed_message error with
    | Some message => ([cli (LogError message)], Return ())
    | None => ([], String_of error ≫= λ _, Return ())
    end.
Proof. by destruct error. Qed.

Lemma handleErrorOutput_lift_cli (error : Thrown) :
  handleErrorOutput (E := MainEvent) error = lift_cli (handleErrorOutput error).
Proof. rewrite !handleErrorOutput_prints. by destruct error. Qed.

Lemma handleError_lift_cli (fn : Run CliEvent ()) :
  handleError (lift_cli fn) = lift_cli (handleError fn).
Proof.
  destruct fn as [t [[]|error]]; unfold lift_cli at 1, handleError; cbn [fst snd].
  - unfold lift_cli. simpl. by rewrite fmap_app.
  - rewrite handleErrorOutput_lift_cli.
    destruct (handleErrorOutput error) as [t' [[]|e]]; unfold lift_cli; simpl.
    + by rewrite !fmap_app.
    + by rewrite fmap_app.
Qed.




(** ** Dispatch of commands *)

Lemma builtin_call_from_cli `{Commands} (cmd : string) (args : list string) :
  ∃ t, (builtin_call cmd args).1 = FromCli <$> t.
Proof.
  unfold builtin_call.
  repeat case_bool_decide; rewrite ?handleError_lift_cli; by eexists.
Qed.

(** C8. When the first argument is [init], [verify], [list], [export] or
    [version], [main] makes the call of that built-in command and nothing
    else: whatever plugins are registered, under whatever names, the trace
    holds no call of a plugin's [execute]. *)
Theorem main_builtin_takes_precedence `{Fs, Core, Commands}
    (cmd : string) (args : list string) :
  cmd ∈ BUILTIN_COMMANDS →
  main (cmd :: args) = builtin_call cmd args
  ∧ ∀ plugin a, InvokeExecute plugin a ∉ (main (cmd :: args)).1.
Proof.
  intros Hcmd.
  assert (Hmain : main (cmd :: args) = builtin_call cmd args).
  { unfold BUILTIN_COMMANDS in Hcmd.
    repeat (apply elem_of_cons in Hcmd as [-> | Hcmd]); [reflexivity .. |].
    by apply elem_of_nil in Hcmd. }
  split; [exact Hmain|].
  intros plugin a. rewrite Hmain.
  destruct (builtin_call_from_cli cmd args) as [t ->].
  intros (e & [=] & _)%list_elem_of_fmap.
Qed.

Lemma main_builtin_takes_precedence_witness :
  "verify" ∈ BUILTIN_COMMANDS
  ∧ @getPlugins Toy.fs (Toy.core (Return Toy.config_plugins))
      = [Toy.plugin_called "verify"; Toy.plugin_called "reporter"]
  ∧ @main Toy.fs (Toy.core (Return Toy.config_plugins)) Toy.commands ["verify"; "x"]
      = ([FromCli (Log "verify ran"); FromCli EndProcessOk], Return ())
  ∧ ∀ plugin a,
      InvokeExecute plugin a ∉
        (@main Toy.fs (Toy.core (Return Toy.config_plugins)) Toy.commands ["verify"; "x"]).1.
Proof.
  assert (Hin : "verify" ∈ BUILTIN_COMMANDS) by exact (bool_decide_unpack ("verify" ∈ BUILTIN_COMMANDS) I).
  split; [exact Hin|]. split; [reflexivity|].
  destruct (@main_builtin_takes_precedence
              Toy.fs (Toy.core (Return Toy.config_plugins)) Toy.commands
              "verify" ["x"] Hin) as [Heq Hno].
  split; [rewrite Heq; reflexivity | exact Hno].
Defined.

(** ** Parsing of the entry argument *)

Lemma startsWith_inv (s : string) (c : ascii) :
  startsWith s c = true → ∃ rest, s = String c rest.
Proof.
  destruct s as [|c' rest]; simpl; [discriminate|].
  intros ->%bool_decide_eq_true. eauto.
Qed.

Lemma allValuesAreStrings_object (props : Record JsonValue) :
  allValuesAreStrings (JObject props) = true ↔ string_valued props.
Proof.
  unfold allValuesAreStrings, string_valued. simpl.
  rewrite forallb_forall, Forall_forall. split; intros Hall value Hin.
  - apply list_elem_of_In, Hall in Hin. destruct value; try discriminate. eauto.
  - apply list_elem_of_In, Hall in Hin as [s ->]. reflexivity.
Qed.

(** What one attempt makes of a parsed text: the object, when the text
    began with a brace and all values are strings. *)
Lemma accepted_is_string_valued_object `{Json} (rest : string) (parsed : JsonValue) :
  parses_braces_to_objects →
  JSON_parse (String "{" rest) = Return parsed →
  ∃ props, parsed = JObject props
    ∧ (JsType_eqb (typeof parsed) TObject && negb (is_null parsed) = true)
    ∧ (allValuesAreStrings parsed = true ↔ string_valued props).
Proof.
  intros Hlaw Hparse. destruct (Hlaw _ _ Hparse) as [props ->].
  exists props. split; [reflexivity|]. split; [reflexivity|].
  apply allValuesAreStrings_object.
Qed.

(** The two shapes of a result of [parseStringOrRecord]. *)
Lemma parseStringOrRecord_shape `{Json} (input : string) :
  parses_braces_to_objects →
  ∃ result,
    parseStringOrRecord input = Return result
    ∧ (result = AString input
       ∨ ∃ props, result = ARecord (JObject props) ∧ parses_to_record input props)
    ∧ ((∀ props, ¬ parses_to_record input props) → result = AString input).
Proof.
  intros Hlaw. unfold parseStringOrRecord, parses_to_record.
  destruct (startsWith (trim input) "{") eqn:Hstart; simpl;
    [|exists (AString input); split_and!; [reflexivity | by left | done]].
  destruct (endsWith (trim input) "}") eqn:Hend; simpl;
    [|exists (AString input); split_and!; [reflexivity | by left | done]].
  destruct (startsWith_inv _ _ Hstart) as [rest Htrim].
  rewrite Htrim in *. clear Hstart.
  change (replace_single_quotes (String "{" rest))
    with (String "{" (replace_single_quotes rest)).
  (* the second attempt, whatever the first one gave *)
  assert (Hsecond : ∃ result,
    try_catch
      (parsed ← JSON_parse (String "{" (replace_single_quotes rest));
       if JsType_eqb (typeof parsed) TObject && negb (is_null parsed) then
         if allValuesAreStrings parsed then Return (ARecord parsed)
         else Return (AString input)
       else Return (AString input))
      (λ _, Return (AString input)) = Return result
    ∧ (result = AString input
       ∨ ∃ props, result = ARecord (JObject props) ∧ string_valued props
           ∧ JSON_parse (String "{" (replace_single_quotes rest)) = Return (JObject props))
    ∧ ((∀ props, string_valued props →
          JSON_parse (String "{" (replace_single_quotes rest)) ≠ Return (JObject props)) →
       result = AString input)).
  { destruct (JSON_parse (String "{" (replace_single_quotes rest)))
      as [parsed|e] eqn:Hparse; simpl;
      [|exists (AString input); split_and!; [reflexivity | by left | done]].
    destruct (accepted_is_string_valued_object _ _ Hlaw Hparse)
      as (props & -> & Hobj & Hstrings).
    rewrite Hobj. destruct (allValuesAreStrings (JObject props)) eqn:Hall.
    - exists (ARecord (JObject props)). split_and!; [reflexivity| |].
      + right. exists props. split_and!; [reflexivity | by apply Hstrings | reflexivity].
      + intros Hnone. exfalso. apply (Hnone props); [by apply Hstrings | reflexivity].
    - exists (AString input). split_and!; [reflexivity | by left | done]. }
  destruct (JSON_parse (String "{" rest)) as [parsed|e] eqn:Hparse; simpl.
  - destruct (accepted_is_string_valued_object _ _ Hlaw Hparse)
      as (props & -> & Hobj & Hstrings).
    rewrite Hobj. destruct (allValuesAreStrings (JObject props)) eqn:Hall; simpl.
    + exists (ARecord (JObject props)). split_and!; [reflexivity| |].
      * right. exists props.
        split_and!; [reflexivity.. | by apply Hstrings | by left].
      * intros Hnone. exfalso. apply (Hnone props).
        split_and!; [reflexivity.. | by apply Hstrings | by left].
    + destruct Hsecond as (result & Hrun & Hshape & Helse).
      exists result. split_and!; [exact Hrun | |].
      * destruct Hshape as [-> | (props' & -> & Hvalued & Hparse')]; [by left|].
        right. exists props'. split_and!; [reflexivity.. | exact Hvalued | by right].
      * intros Hnone. apply Helse. intros props' Hvalued Hparse'.
        apply (Hnone props'). split_and!; [reflexivity.. | exact Hvalued | by right].
  - destruct Hsecond as (result & Hrun & Hshape & Helse).
    exists result. split_and!; [exact Hrun | |].
    + destruct Hshape as [-> | (props' & -> & Hvalued & Hparse')]; [by left|].
      right. exists props'. split_and!; [reflexivity.. | exact Hvalued | by right].
    + intros Hnone. apply Helse. intros props' Hvalued Hparse'.
      apply (Hnone props'). split_and!; [reflexivity.. | exact Hvalued | by right].
Qed.

(** An input that parses to a string-valued object gives a record. *)
Lemma parseStringOrRecord_record `{Json} (input : string) (props : Record JsonValue) :
  parses_braces_to_objects →
  parses_to_record input props →
  ∃ props', parseStringOrRecord input = Return (ARecord (JObject props')).
Proof.
  intros Hlaw (Hstart & Hend & Hvalued%allValuesAreStrings_object & Hparse).
  unfold parseStringOrRecord. rewrite Hstart, Hend. simpl.
  destruct (startsWith_inv _ _ Hstart) as [rest Htrim]. rewrite Htrim in *.
  assert (Hsecond :
    JSON_parse (replace_single_quotes (String "{" rest)) = Return (JObject props) →
    ∃ props',
      try_catch
        (parsed ← JSON_parse (replace_single_quotes (String "{" rest));
         if JsType_eqb (typeof parsed) TObject && negb (is_null parsed) then
           if allValuesAreStrings parsed then Return (ARecord parsed)
           else Return (AString input)
         else Return (AString input))
        (λ _, Return (AString input)) = Return (ARecord (JObject props'))).
  { intros ->. simpl. rewrite Hvalued. by exists props. }
  destruct (JSON_parse (String "{" rest)) as [parsed|e] eqn:Hdirect; simpl.
  - destruct (Hlaw _ _ Hdirect) as [direct ->]. simpl.
    destruct (allValuesAreStrings (JObject direct)) eqn:Hall; simpl; [by exists direct|].
    destruct Hparse as [[= ->] | Hreplaced]; [congruence | by apply Hsecond].
  - destruct Hparse as [[=] | Hreplaced]. by apply Hsecond.
Qed.

(** C9. [parseStringOrRecord] returns for every input: it never throws. It
    returns the input itself, unchanged, or a record whose values are all
    strings. It returns a record when, and only when, the trimmed input
    starts and ends with a brace and parses to a string-valued object,
    directly or after every single quote was replaced by a double quote; the
    record is such a parse of the input. In every other case it returns the
    input. *)
Theorem parseStringOrRecord_returns_input_or_record `{Json} (input : string) :
  parses_braces_to_objects →
  ∃ result,
    parseStringOrRecord input = Return result
    ∧ (result = AString input
       ∨ ∃ props, result = ARecord (JObject props) ∧ parses_to_record input props)
    ∧ ((∃ props, parses_to_record input props) →
       ∃ props, result = ARecord (JObject props) ∧ parses_to_record input props)
    ∧ ((∀ props, ¬ parses_to_record input props) → result = AString input).
Proof.
  intros Hlaw.
  destruct (parseStringOrRecord_shape input Hlaw) as (result & Hrun & Hshape & Helse).
  exists result. split_and!; [exact Hrun | exact Hshape | | exact Helse].
  intros [props Hprops].
  destruct (parseStringOrRecord_record input props Hlaw Hprops) as [props' Hrecord].
  rewrite Hrun in Hrecord. injection Hrecord as ->.
  destruct Hshape as [[=] | Hshape]. exact Hshape.
Qed.

(** The reference reader turns a text that begins with a brace into an
    object, if into anything. *)
Lemma reference_parses_braces_to_objects : @parses_braces_to_objects reference_Json.
Proof.
  intros rest v. unfold JSON_parse, reference_Json, ReferenceJson.parse.
  cbn [ReferenceJson.read_value].
  change (ReferenceJson.skip_space (String "{" rest)) with (String "{" rest).
  cbv iota beta.
  match goal with
  | |- context [mbind _ ?m] => destruct m as [[props after]|]
  end; simpl; [|discriminate].
  destruct (ReferenceJson.skip_space after); [|discriminate].
  intros [= <-]. eauto.
Qed.

Lemma parseStringOrRecord_returns_input_or_record_witness :
  @parses_braces_to_objects reference_Json
  ∧ @parseStringOrRecord reference_Json " {'app': 'src/app/main.ts'} "
    = Return (ARecord (JObject [("app", JString "src/app/main.ts")]))
  ∧ @parses_to_record reference_Json " {'app': 'src/app/main.ts'} "
      [("app", JString "src/app/main.ts")].
Proof.
  split; [exact reference_parses_braces_to_objects|].
  destruct (@parseStringOrRecord_returns_input_or_record reference_Json
              " {'app': 'src/app/main.ts'} " reference_parses_braces_to_objects)
    as (result & Hrun & Hshape & _).
  assert (Hresult : result = ARecord (JObject [("app", JString "src/app/main.ts")])).
  { vm_compute in Hrun. by injection Hrun as <-. }
  split; [by rewrite Hrun, Hresult|].
  destruct Hshape as [Hstring | (props & Hrecord & Hprops)]; [congruence|].
  rewrite Hresult in Hrecord. by injection Hrecord as <-.
Defined.

(** The inputs of the test suite, run through the reference reader. *)
Example parse_single_quoted_record :
  @parseStringOrRecord reference_Json "{'app': 'src/app/main.ts', 'api': 'src/api/main.ts'}"
  = Return (ARecord (JObject [("app", JString "src/app/main.ts");
                              ("api", JString "src/api/main.ts")])).
Proof. vm_compute. reflexivity. Qed.

Example parse_plain_path :
  @parseStringOrRecord reference_Json "src/{pattern}/main.ts"
  = Return (AString "src/{pattern}/main.ts").
Proof. vm_compute. reflexivity. Qed.

Example parse_array_is_left_alone :
  @parseStringOrRecord reference_Json "['src/app/main.ts', 'src/api/main.ts']"
  = Return (AString "['src/app/main.ts', 'src/api/main.ts']").
Proof. vm_compute. reflexivity. Qed.

Example parse_number_value_is_left_alone :
  @parseStringOrRecord reference_Json "{'app': 'src/app/main.ts', 'count': 42}"
  = Return (AString "{'app': 'src/app/main.ts', 'count': 42}").
Proof. vm_compute. reflexivity. Qed.

Example parse_unquoted_is_left_alone :
  @parseStringOrRecord reference_Json "{app: src/app/main.ts}"
  = Return (AString "{app: src/app/main.ts}").
Proof. vm_compute. reflexivity. Qed.

(** ** Entry resolution *)

Lemma map_throwing_total {A B} (f : A → Result B) (l : list A) :
  (∀ x, x ∈ l → returns (f x)) → returns (map_throwing f l).
Proof.
  induction l as [|x l IH]; intros Hall; simpl.
  - by exists [].
  - destruct (Hall x) as [y Hy]; [by left|].
    destruct IH as [ys Hys]; [intros x' Hx'; apply Hall; by right|].
    exists (y :: ys). by rewrite Hy, Hys.
Qed.

Lemma entryOf_without_init `{Fs, Core} (path : string) :
  entryOf false path = Return path.
Proof. reflexivity. Qed.

Lemma entryOf_with_init `{Fs, Core} (path : string) :
  entryOf true path = toFsPath (fs_join [fs_cwd; path]) ≫= init.
Proof. reflexivity. Qed.

Lemma getEntryFromCliOrConfig_given `{Fs, Core} (given : EntryValue) (runInit : bool) :
  truthy_entry (Some given) = true →
  getEntryFromCliOrConfig (Some given) runInit = processEntryFile given runInit.
Proof. intros Htruthy. unfold getEntryFromCliOrConfig. by rewrite Htruthy. Qed.

Lemma getEntryFromCliOrConfig_not_given `{Fs, Core}
    (entryFileOrEntryPoints : option EntryValue) (runInit : bool) :
  truthy_entry entryFileOrEntryPoints = false →
  getEntryFromCliOrConfig entryFileOrEntryPoints runInit
    = getEntryFromCliOrConfig None runInit.
Proof. intros Hfalsy. unfold getEntryFromCliOrConfig. by rewrite Hfalsy. Qed.

Lemma define_property_new {V} (key : string) (value : V) (object : Record V) :
  key ∉ object.*1 →
  define_property key value object ≡ₚ (key, value) :: object
  ∧ (array_index key = None → define_property key value object = object ++ [(key, value)]).
Proof.
  induction object as [|[key' value'] object IH]; intros Hnew; simpl; [done|].
  apply not_elem_of_cons in Hnew as [Hne Hnew]. simpl in Hne.
  rewrite bool_decide_eq_false_2 by done.
  destruct (IH Hnew) as [Hperm Happend].
  destruct (enumerated_before key key') eqn:Hbefore.
  - split; [done|]. intros Hkey. unfold enumerated_before in Hbefore.
    by rewrite Hkey in Hbefore.
  - split.
    + rewrite Hperm. apply Permutation_swap.
    + intros Hkey. by rewrite (Happend Hkey).
Qed.

Lemma object_of_snoc {V} (declared : list (string * V)) (property : string * V) :
  object_of (declared ++ [property])
  = define_property property.1 property.2 (object_of declared).
Proof. unfold object_of. by rewrite foldl_app. Qed.

(** A declaration with distinct keys: the object has the same properties,
    and in the same order if no key is an array index. *)
Lemma object_of_distinct {V} (declared : list (string * V)) :
  NoDup declared.*1 →
  object_of declared ≡ₚ declared
  ∧ ((∀ key, key ∈ declared.*1 → array_index key = None) → object_of declared = declared).
Proof.
  induction declared as [|[key value] declared IH] using rev_ind; [done|].
  rewrite fmap_app. intros [Hdistinct [Hnew _]]%NoDup_app. simpl in Hnew.
  destruct (IH Hdistinct) as [Hperm Hsame].
  assert (Hfresh : key ∉ (object_of declared).*1).
  { rewrite Hperm. intros Hin. apply (Hnew key Hin). by left. }
  rewrite object_of_snoc. simpl.
  destruct (define_property_new key value _ Hfresh) as [Hperm' Happend]. split.
  - rewrite Hperm', Hperm. apply Permutation_cons_append.
  - intros Hnone. rewrite Happend, Hsame; [done | |].
    + intros key' Hin. apply Hnone. apply elem_of_app. by left.
    + apply Hnone. apply elem_of_app. right. by left.
Qed.

(** C6, counterexample. Two projects named [2] and [1], declared in this
    order: the names are array indices, the record enumerates them in
    ascending order, and the entries come as [1], [2]. *)
Lemma numeric_names_are_not_in_declaration_order :
  ¬ @resolved_in_declaration_order Toy.fs (Toy.core (Return Toy.config_neither)) false
      [ ("2", "projects/project-ii/src/main.ts");
        ("1", "projects/project-i/src/main.ts") ].
Proof.
  intros (entries & Hrun & Hnames). vm_compute in Hrun.
  injection Hrun as <-. discriminate Hnames.
Qed.

(** C6, as the code has it. Resolving a record of [N] pairs of project name
    and path gives exactly [N] entries, one per pair in the order in which
    the record enumerates its properties ([Object.entries]), the i-th one
    carrying the name of the i-th property and what the resolution of its
    path alone gives ([init] of that path with [runInit], the path itself
    without). A record declared with distinct names has one property per
    declared pair, and it enumerates them in the order of the declaration
    when no name is an array index. Resolving a single file gives one entry
    named [default]. Each resolution has to return for that: the first one
    that throws ends the whole call. *)
Theorem processEntryFile_one_entry_per_pair `{Fs, Core} (runInit : bool) :
  (∀ r : Record string,
     (∀ projectName path, (projectName, path) ∈ r → returns (entryOf runInit path)) →
     ∃ entries,
       processEntryFile (EntryRecord r) runInit = Return entries
       ∧ getEntryFromCliOrConfig (Some (EntryRecord r)) runInit = Return entries
       ∧ length entries = length r
       ∧ ∀ i projectName path,
           Object_entries r !! i = Some (projectName, path) →
           ∃ e, entryOf runInit path = Return e
             ∧ entries !! i = Some {| projectName := projectName; entry := e |})
  ∧ (∀ declared : list (string * string),
       NoDup declared.*1 →
       object_of declared ≡ₚ declared
       ∧ length (object_of declared) = length declared
       ∧ ((∀ name, name ∈ declared.*1 → array_index name = None) →
          Object_entries (object_of declared) = declared))
  ∧ (∀ s : string,
       returns (entryOf runInit s) →
       ∃ e, entryOf runInit s = Return e
         ∧ processEntryFile (EntryString s) runInit
             = Return [ {| projectName := "default"; entry := e |} ]
         ∧ (s ≠ "" →
            getEntryFromCliOrConfig (Some (EntryString s)) runInit
              = Return [ {| projectName := "default"; entry := e |} ])).
Proof.
  split_and!.
  - intros r Hall.
    destruct (map_throwing_total
                (λ '(projectName, entry),
                   e ← entryOf runInit entry;
                   Return {| projectName := projectName; entry := e |}) r)
      as [entries Hentries].
    { intros [projectName path] Hin. destruct (Hall _ _ Hin) as [e He].
      eexists. by rewrite He. }
    exists entries. split; [exact Hentries|].
    split; [by rewrite getEntryFromCliOrConfig_given|].
    apply map_throwing_Return in Hentries. split.
    + symmetry. by eapply Forall2_length.
    + intros i projectName path Hi.
      destruct (Forall2_lookup_l _ _ _ _ _ Hentries Hi) as (pe & Hpe & Hrun).
      apply bind_Return in Hrun as (e & He & [= <-]). eauto.
  - intros declared Hdistinct.
    destruct (object_of_distinct declared Hdistinct) as [Hperm Hsame].
    split; [exact Hperm|]. split; [by rewrite Hperm | exact Hsame].
  - intros s [e He]. exists e. split; [exact He|]. split.
    + simpl. by rewrite He.
    + intros Hs. rewrite getEntryFromCliOrConfig_given; [simpl; by rewrite He|].
      by destruct s.
Qed.

Lemma processEntryFile_one_entry_per_pair_witness :
  (∀ projectName path,
     (projectName, path) ∈ Toy.two_projects →
     returns (@entryOf Toy.fs (Toy.core (Return Toy.config_neither)) true path))
  ∧ ∃ entries,
      @processEntryFile Toy.fs (Toy.core (Return Toy.config_neither))
        (EntryRecord Toy.two_projects) true = Return entries
      ∧ length entries = 2
      ∧ entries !! 1 = Some {| projectName := "project-ii"; entry := Toy.main_ii |}.
Proof.
  assert (Hall : ∀ projectName path,
            (projectName, path) ∈ Toy.two_projects →
            returns (@entryOf Toy.fs (Toy.core (Return Toy.config_neither)) true path)).
  { intros projectName path Hin. unfold Toy.two_projects in Hin.
    apply elem_of_cons in Hin as [[= -> ->] | Hin]; [by eexists|].
    apply elem_of_cons in Hin as [[= -> ->] | Hin]; [by eexists|].
    by apply elem_of_nil in Hin. }
  split; [exact Hall|].
  destruct (@processEntryFile_one_entry_per_pair
              Toy.fs (Toy.core (Return Toy.config_neither)) true) as [Hrecord _].
  destruct (Hrecord Toy.two_projects Hall) as (entries & Hrun & _ & Hlen & Hnth).
  exists entries. split; [exact Hrun|]. split; [exact Hlen|].
  destruct (Hnth 1 "project-ii" "projects/project-ii/src/main.ts" eq_refl)
    as (e & He & Hlookup).
  injection He as <-. exact Hlookup.
Defined.

Lemma map_throwing_Throw {A B} (f : A → Result B) (l : list A) (e : Thrown) :
  map_throwing f l = Throw e → ∃ x, x ∈ l ∧ f x = Throw e.
Proof.
  induction l as [|x l IH]; simpl; [discriminate|].
  destruct (f x) as [y|e'] eqn:Hx; simpl.
  - destruct (map_throwing f l) as [ys|e'']; simpl; [discriminate|].
    intros [= ->]. destruct IH as (x' & Hin & Hx'); [reflexivity|].
    exists x'. split; [by right | exact Hx'].
  - intros [= ->]. exists x. split; [by left | exact Hx].
Qed.

Lemma processEntryFile_Throw `{Fs, Core} (v : EntryValue) (runInit : bool) (e : Thrown) :
  processEntryFile v runInit = Throw e → ∃ path, entryOf runInit path = Throw e.
Proof.
  destruct v as [s|r]; simpl.
  - destruct (entryOf runInit s) as [a|e'] eqn:Hs; simpl; [discriminate|].
    intros [= ->]. eauto.
  - intros ([projectName path] & _ & Hthrow)%map_throwing_Throw.
    destruct (entryOf runInit path) as [a|e'] eqn:Hpath; simpl in Hthrow; [discriminate|].
    injection Hthrow as ->. eauto.
Qed.

(** Entry resolution from the configuration file, case by case. A record is
    non-empty when it has a key. *)
Lemma getEntryFromCliOrConfig_from_config `{Fs, Core}
    (runInit : bool) (sheriffConfig : Configuration) :
  fs_exists (fs_join [fs_cwd; "sheriff.config.ts"]) = true →
  parseConfig (fs_join [fs_cwd; "sheriff.config.ts"]) = Return sheriffConfig →
  getEntryFromCliOrConfig None runInit =
    match entryPoints sheriffConfig, truthy_string (entryFile sheriffConfig) with
    | Some [], true =>
        processEntryFile (EntryString (entryFile sheriffConfig)) runInit
    | Some (_ :: _), true => Throw both_declared
    | Some [], false => Throw none_declared
    | Some (p :: r), false => processEntryFile (EntryRecord (p :: r)) runInit
    | None, true => Throw (TypeError "Cannot convert undefined or null to object")
    | None, false => Throw none_declared
    end.
Proof.
  intros Hexists Hconfig. unfold getEntryFromCliOrConfig. simpl.
  rewrite Hexists, Hconfig. simpl.
  destruct (entryPoints sheriffConfig) as [[|p r]|];
    by destruct (truthy_string (entryFile sheriffConfig)).
Qed.

(** C4, on the code. A configuration that declares [entryFile] and leaves
    [entryPoints] out makes entry resolution throw a [TypeError], raised by
    [isEmptyRecord] on [undefined]; with [entryPoints] present and empty the
    same [entryFile] is resolved. *)
Theorem getEntryFromCliOrConfig_entryFile_alone_throws :
  @getEntryFromCliOrConfig Toy.fs (Toy.core (Return Toy.config_entryFile_only)) None false
    = Throw (TypeError "Cannot convert undefined or null to object")
  ∧ @getEntryFromCliOrConfig Toy.fs (Toy.core (Return Toy.config_entryFile)) None false
    = Return [ {| projectName := "default"; entry := "src/main.ts" |} ].
Proof. split; reflexivity. Qed.

(** ** Errors and their codes *)

Lemma append_assoc (a b c : string) : (a +:+ b) +:+ c = a +:+ b +:+ c.
Proof. induction a as [|x a IH]; [reflexivity | exact (f_equal (String x) IH)]. Qed.

Lemma mentions_here (before part after : string) :
  mentions (before +:+ part +:+ after) part.
Proof. by exists before, after. Qed.

Lemma mentions_later (before message part : string) :
  mentions message part → mentions (before +:+ message) part.
Proof.
  intros (b & a & ->). exists (before +:+ b), a. by rewrite append_assoc.
Qed.

Lemma mentions_at_end (before part : string) : mentions (before +:+ part) part.
Proof.
  exists before, "". f_equal.
  induction part as [|x part IH]; [reflexivity | exact (f_equal (String x) IH)].
Qed.

Ltac find_mention :=
  first [ apply mentions_here
        | apply mentions_at_end
        | apply mentions_later; find_mention ].

Lemma code_text_in_all_codes (code : UserErrorCode) : code_text code ∈ all_codes.
Proof.
  destruct code;
    match goal with |- ?P => exact (bool_decide_unpack P I) end.
Qed.

Lemma code_text_inj (c1 c2 : UserErrorCode) : code_text c1 = code_text c2 → c1 = c2.
Proof. destruct c1, c2; simpl; intros [=]; reflexivity. Qed.

Lemma validatePlugin_Throw (plugin : PluginValue) (e : Thrown) :
  validatePlugin plugin = Throw e → ∃ details, e = PluginInvalidError details.
Proof.
  destruct plugin as [| |o|[[|n|truthy conversion] d [ex|]]]; simpl;
    try case_bool_decide; intros [= <-]; eauto.
Qed.

Lemma findPluginByName_Throw (wanted : string) (registered : option (list PluginValue))
    (e : Thrown) :
  findPluginByName wanted registered = Throw e →
  e = PluginNotFoundError wanted ∨ ∃ details, e = PluginInvalidError details.
Proof.
  destruct registered as [[|p ps]|]; cbn [findPluginByName];
    try (intros [= <-]; by left).
  destruct (List.find (matches_name wanted) (p :: ps)) as [found|].
  - intros Hinvalid%validatePlugin_Throw. by right.
  - intros [= <-]. by left.
Qed.

(** C3, counterexample. A configuration that declares neither an entry file
    nor entry points makes entry resolution throw an [Error] that is no
    [UserError] and has no code. *)
Lemma entry_errors_are_not_coded :
  ¬ @entry_errors_are_coded Toy.fs (Toy.core (Return Toy.config_neither)) None false.
Proof.
  intros Hcoded.
  destruct (Hcoded none_declared eq_refl) as (code & message & Heq & _).
  discriminate Heq.
Qed.

(** C3, as the code has it. Every configuration error raised on the
    validation paths for a path mapping that does not resolve, a missing tag
    assignment or dependency rule, a placeholder mismatch or conflicting
    settings is a [UserError] with a code, one of SH-001 to SH-015, and a
    message in which the file, tag, alias or placeholder it is about occurs.
    So is every instance of every class of error/user-error.ts, and the code
    identifies the class: it is the same for every instance and different
    from the code of every other class. The errors that entry resolution
    raises itself, for entry declarations that are missing or in conflict,
    are the exception: an error thrown by [getEntryFromCliOrConfig] is one
    of three [Error]s and a [TypeError] without code, unless it comes out of
    [parseConfig], [toFsPath] or [init]. *)
Theorem user_errors_are_coded_entry_errors_are_plain :
  (∀ fault : ConfigurationFault,
     ∃ code message,
       construct (raised_for fault) = UserError code message
       ∧ instanceof_UserError (construct (raised_for fault)) = true
       ∧ error_code (construct (raised_for fault)) = Some code
       ∧ code_text code ∈ all_codes
       ∧ ∀ offender, offender ∈ about fault → mentions message offender)
  ∧ (∀ c : UserErrorClass,
       ∃ message,
         construct c = UserError (code_of c) message
         ∧ is_coded_UserError (construct c)
         ∧ ∀ offender, offender ∈ offenders c → mentions message offender)
  ∧ (∀ c1 c2 : UserErrorClass,
       code_text (code_of c1) = code_text (code_of c2) ↔ same_class c1 c2)
  ∧ (∀ `{Fs, Core} (entryFileOrEntryPoints : option EntryValue) (runInit : bool)
       (e : Thrown),
       getEntryFromCliOrConfig entryFileOrEntryPoints runInit = Throw e →
       (e ∈ [ both_declared; none_declared; no_entry_given;
              TypeError "Cannot convert undefined or null to object" ]
        ∧ instanceof_UserError e = false ∧ error_code e = None)
       ∨ parseConfig (fs_join [fs_cwd; "sheriff.config.ts"]) = Throw e
       ∨ ∃ path, entryOf runInit path = Throw e).
Proof.
  assert (Hclass : ∀ c : UserErrorClass,
            ∃ message,
              construct c = UserError (code_of c) message
              ∧ is_coded_UserError (construct c)
              ∧ ∀ offender, offender ∈ offenders c → mentions message offender).
  { intros c. exists (error_message (construct c)). split; [by destruct c|]. split.
    { destruct c; eexists _, _; (split; [reflexivity | apply code_text_in_all_codes]). }
    destruct c as [| | | | | | | | | | | | | |pluginName [error|text]];
      cbn [offenders]; intros offender Hin;
      repeat (apply elem_of_cons in Hin as [-> | Hin]);
      try (by apply elem_of_nil in Hin);
      cbv [construct InvalidPathError NoDependencyRuleForTagError NoAssignedTagError
           TagWithoutValueError ExistingTagPlaceholderError InvalidPlaceholderError
           TsExtendsResolutionError PluginNotFoundError PluginInvalidError
           PluginExecutionError error_message];
      find_mention. }
  split_and!.
  - intros fault. destruct (Hclass (raised_for fault)) as (message & Hconstruct & _ & Hnames).
    exists (code_of (raised_for fault)), message. rewrite Hconstruct.
    split_and!; [done.. | apply code_text_in_all_codes |].
    intros offender Hin. apply Hnames. by destruct fault.
  - exact Hclass.
  - intros c1 c2. split.
    + intros Hcode%code_text_inj. by destruct c1, c2.
    + by destruct c1, c2.
  - intros F C arg runInit e Hthrow.
    destruct (truthy_entry arg) eqn:Htruthy.
    { destruct arg as [given|]; [|discriminate].
      rewrite getEntryFromCliOrConfig_given in Hthrow by done.
      right. right. by eapply processEntryFile_Throw. }
    rewrite getEntryFromCliOrConfig_not_given in Hthrow by done.
    destruct (fs_exists (fs_join [fs_cwd; "sheriff.config.ts"])) eqn:Hexists.
    + destruct (parseConfig (fs_join [fs_cwd; "sheriff.config.ts"]))
        as [sheriffConfig|e'] eqn:Hconfig.
      * rewrite (getEntryFromCliOrConfig_from_config _ _ Hexists Hconfig) in Hthrow.
        destruct (entryPoints sheriffConfig) as [[|p r]|],
                 (truthy_string (entryFile sheriffConfig));
          try (right; right; by eapply processEntryFile_Throw);
          injection Hthrow as <-; left; (split_and!; [set_solver | done..]).
      * unfold getEntryFromCliOrConfig in Hthrow. simpl in Hthrow.
        rewrite Hexists, Hconfig in Hthrow. injection Hthrow as <-. by right; left.
    + unfold getEntryFromCliOrConfig in Hthrow. simpl in Hthrow.
      rewrite Hexists in Hthrow. injection Hthrow as <-.
      left. split_and!; [set_solver | done..].
Qed.

(** ** Verification through the plugin API *)

Section loops.
Context {A S R : Type}.

Lemma for_of_ext (body body' : S → A → Result S) (l : list A) (s : S) :
  (∀ s x, body s x = body' s x) → for_of l body s = for_of l body' s.
Proof.
  intros Hext. revert s. induction l as [|x l IH]; intros s; simpl; [reflexivity|].
  rewrite Hext. destruct (body' s x); simpl; [apply IH | reflexivity].
Qed.

Lemma for_of_app (body : S → A → Result S) (l1 l2 : list A) (s : S) :
  for_of (l1 ++ l2) body s = for_of l1 body s ≫= for_of l2 body.
Proof.
  revert s. induction l1 as [|x l1 IH]; intros s; simpl; [reflexivity|].
  destruct (body s x); simpl; [apply IH | reflexivity].
Qed.

Lemma for_of_fmap {B} (f : B → A) (body : S → A → Result S) (l : list B) (s : S) :
  for_of (f <$> l) body s = for_of l (λ s x, body s (f x)) s.
Proof.
  revert s. induction l as [|x l IH]; intros s; simpl; [reflexivity|].
  destruct (body s (f x)); simpl; [apply IH | reflexivity].
Qed.

(** A loop whose body computes something from the element and then updates
    the variables without throwing: all computations first, all updates
    after, is the same. *)
Lemma for_of_map_throwing (g : A → Result R) (h : S → R → S) (l : list A) (s : S) :
  for_of l (λ s x, y ← g x; Return (h s y)) s
  = ys ← map_throwing g l; Return (foldl h s ys).
Proof.
  revert s. induction l as [|x l IH]; intros s; simpl; [reflexivity|].
  destruct (g x) as [y|e]; simpl; [|reflexivity].
  rewrite IH. by destruct (map_throwing g l).
Qed.

End loops.

Section verification.
Context `{Fs, Core}.

Lemma verify_file_report (projectInfo : ProjectInfo) (vars : Locals) (fileInfo : FileInfo) :
  verify_file projectInfo vars fileInfo
  = report ← file_report projectInfo fileInfo;
    Return (record_report vars (key_of fileInfo, report)).
Proof.
  unfold verify_file, file_report, record_report, has_violations, key_of.
  destruct (hasEncapsulationViolations (fileInfo_path fileInfo) projectInfo)
    as [encapsulations|e]; simpl; [|reflexivity].
  destruct (checkForDependencyRuleViolation (fileInfo_path fileInfo) projectInfo)
    as [dependencyRuleViolations|e]; simpl; [|reflexivity].
  rewrite length_fmap. by case_match.
Qed.

Lemma verify_entries_visits (projectEntries : list (ProjectEntry ProjectInfo)) (vars : Locals) :
  verify_entries projectEntries vars
  = for_of (visits projectEntries) (λ vars visit, verify_file visit.1 vars visit.2) vars.
Proof.
  unfold verify_entries, visits.
  revert vars. induction projectEntries as [|projectEntry rest IH]; intros vars;
    [reflexivity|].
  cbn [for_of mbind list_bind]. rewrite for_of_app, for_of_fmap. cbn [fst snd].
  change (λ s x, verify_file (entry projectEntry) s x)
    with (verify_file (entry projectEntry)).
  destruct (for_of _ (verify_file (entry projectEntry)) vars) as [vars'|e];
    [exact (IH vars') | reflexivity].
Qed.

Lemma verify_entries_reports (projectEntries : list (ProjectEntry ProjectInfo)) (vars : Locals) :
  verify_entries projectEntries vars
  = reports ← map_throwing keyed_report (visits projectEntries);
    Return (foldl record_report vars reports).
Proof.
  rewrite verify_entries_visits, <- for_of_map_throwing.
  apply for_of_ext. intros s visit. rewrite verify_file_report.
  unfold keyed_report. by destruct (file_report visit.1 visit.2).
Qed.

Lemma keyed_reports_Return (visited : list (ProjectInfo * FileInfo))
    (reports : list (string * FileViolations)) :
  map_throwing keyed_report visited = Return reports ↔ reports_of visited reports.
Proof.
  rewrite map_throwing_Return. unfold reports_of.
  split; intros Hall; (eapply Forall2_impl; [exact Hall|]);
    intros visit [key report]; unfold keyed_report; simpl.
  - intros (report' & Hreport & [= <- <-])%bind_Return. done.
  - intros [-> Hreport]. by rewrite Hreport.
Qed.

End verification.

(** *** What a list of reports leaves in the variables *)

Lemma no_violations_lengths (report : FileViolations) :
  has_violations report = false →
  length (encapsulationViolations report) = 0
  ∧ length (dependencyRuleViolations report) = 0.
Proof.
  unfold has_violations. intros [Henc Hdep]%orb_false_iff.
  apply bool_decide_eq_false in Henc, Hdep. lia.
Qed.

Lemma has_violations_lengths (report : FileViolations) :
  has_violations report = true ↔
  encapsulationViolations report ≠ [] ∨ dependencyRuleViolations report ≠ [].
Proof.
  unfold has_violations. rewrite orb_true_iff, !bool_decide_eq_true.
  destruct (encapsulationViolations report), (dependencyRuleViolations report);
    simpl; split; intros [?|?]; try lia; try done; auto with lia.
Qed.

Lemma lookup_assign {V} (key key' : string) (value : V) (record : gmap string V) :
  assign key value record !! key'
  = if bool_decide (key' = key ∧ key ≠ "__proto__") then Some value else record !! key'.
Proof.
  unfold assign. case_bool_decide as Hproto.
  - rewrite bool_decide_eq_false_2; [done | by intros [_ ?]].
  - case_bool_decide as Hkey.
    + destruct Hkey as [-> _]. apply lookup_insert_eq.
    + apply lookup_insert_ne. intros ->. by apply Hkey.
Qed.

Lemma assign_union {V} (key : string) (value : V) (record : gmap string V) :
  assign key value record = assign key value ∅ ∪ record.
Proof.
  unfold assign. case_bool_decide.
  - by rewrite (left_id_L ∅ (∪)).
  - by rewrite insert_empty, <- insert_union_singleton_l.
Qed.

Lemma record_into (recorded : gmap string FileViolations)
    (reports : list (string * FileViolations)) :
  foldl (λ recorded report,
           if has_violations report.2 then assign report.1 report.2 recorded
           else recorded)
        recorded reports
  = record_of reports ∪ recorded.
Proof.
  unfold record_of. revert recorded.
  induction reports as [|report reports IH]; intros recorded; simpl.
  - by rewrite (left_id_L ∅ (∪)).
  - rewrite IH, (IH (if has_violations report.2 then _ else _)).
    destruct (has_violations report.2).
    + by rewrite (assign_union _ _ recorded), (assoc_L (∪)).
    + by rewrite (right_id_L ∅ (∪)).
Qed.

Lemma record_of_app (reports1 reports2 : list (string * FileViolations)) :
  record_of (reports1 ++ reports2) = record_of reports2 ∪ record_of reports1.
Proof. unfold record_of at 1. by rewrite foldl_app, record_into. Qed.

Lemma record_of_snoc (reports : list (string * FileViolations))
    (report : string * FileViolations) :
  record_of (reports ++ [report])
  = if has_violations report.2 then assign report.1 report.2 (record_of reports)
    else record_of reports.
Proof. unfold record_of. by rewrite foldl_app. Qed.

Lemma record_of_lookup_Some (reports : list (string * FileViolations))
    (key : string) (report : FileViolations) :
  record_of reports !! key = Some report →
  (key, report) ∈ reports ∧ has_violations report = true.
Proof.
  induction reports as [|[key' report'] reports IH] using rev_ind.
  - unfold record_of. simpl. by rewrite lookup_empty.
  - rewrite record_of_snoc. simpl.
    destruct (has_violations report') eqn:Hhas.
    + rewrite lookup_assign. case_bool_decide as Hkey.
      * destruct Hkey as [-> _]. intros [= <-]. split; [|done].
        apply elem_of_app. right. by left.
      * intros [Hin ?]%IH. split; [apply elem_of_app; by left | done].
    + intros [Hin ?]%IH. split; [apply elem_of_app; by left | done].
Qed.

(** Nothing is recorded under [__proto__]. *)
Lemma record_of_lookup_proto (reports : list (string * FileViolations)) :
  record_of reports !! "__proto__" = None.
Proof.
  induction reports as [|[key' report'] reports IH] using rev_ind.
  - unfold record_of. simpl. by rewrite lookup_empty.
  - rewrite record_of_snoc. simpl. destruct (has_violations report'); [|done].
    rewrite lookup_assign, bool_decide_eq_false_2; [done | by intros [<- ?]].
Qed.

Lemma record_of_lookup_is_Some (reports : list (string * FileViolations))
    (key : string) (report : FileViolations) :
  key ≠ "__proto__" →
  (key, report) ∈ reports → has_violations report = true →
  is_Some (record_of reports !! key).
Proof.
  intros Hproto.
  induction reports as [|[key' report'] reports IH] using rev_ind.
  - by intros ?%elem_of_nil.
  - intros [Hin | Hlast%list_elem_of_singleton]%elem_of_app Hhas;
      rewrite record_of_snoc; simpl.
    + destruct (has_violations report'); [|by apply IH].
      rewrite lookup_assign. case_bool_decide; [by eexists | by apply IH].
    + injection Hlast as <- <-.
      rewrite Hhas, lookup_assign, bool_decide_eq_true_2 by done. by eexists.
Qed.

Lemma record_of_lookup_agreed (reports : list (string * FileViolations))
    (key : string) (report : FileViolations) :
  key ≠ "__proto__" →
  (key, report) ∈ reports →
  (∀ report', (key, report') ∈ reports → report' = report) →
  record_of reports !! key = if has_violations report then Some report else None.
Proof.
  intros Hproto Hin Hagree. destruct (has_violations report) eqn:Hhas.
  - destruct (record_of_lookup_is_Some _ _ _ Hproto Hin Hhas) as [report' Hlookup].
    rewrite Hlookup. f_equal. apply Hagree. by eapply record_of_lookup_Some.
  - destruct (record_of reports !! key) as [report'|] eqn:Hlookup; [|done].
    apply record_of_lookup_Some in Hlookup as [Hin' Hhas'].
    apply Hagree in Hin' as ->. congruence.
Qed.

Lemma foldl_record_report (vars : Locals) (reports : list (string * FileViolations)) :
  l_encapsulationViolationCount (foldl record_report vars reports)
    = l_encapsulationViolationCount vars + total_encapsulation reports
  ∧ l_dependencyRuleViolationCount (foldl record_report vars reports)
    = l_dependencyRuleViolationCount vars + total_dependency reports
  ∧ l_filesWithViolationsCount (foldl record_report vars reports)
    = l_filesWithViolationsCount vars
      + length (filter (λ report, has_violations report.2 = true) reports)
  ∧ l_violations (foldl record_report vars reports)
    = record_of reports ∪ l_violations vars.
Proof.
  rewrite <- record_into. unfold total_encapsulation, total_dependency.
  revert vars. induction reports as [|report reports IH]; intros vars.
  - cbn. split_and!; [lia.. | done].
  - rewrite !fmap_cons. cbn [foldl sum_list].
    destruct (IH (record_report vars report)) as (Henc & Hdep & Hfiles & Hrec).
    rewrite Henc, Hdep, Hfiles, Hrec. unfold record_report, id.
    destruct (has_violations report.2) eqn:Hhas.
    + rewrite filter_cons_True by done.
      cbn [l_encapsulationViolationCount l_dependencyRuleViolationCount
           l_filesWithViolationsCount l_violations length].
      split_and!; [lia.. | done].
    + rewrite filter_cons_False by congruence.
      destruct (no_violations_lengths _ Hhas) as [-> ->].
      split_and!; [lia.. | done].
Qed.

Lemma result_of_reports (reports : list (string * FileViolations)) :
  result_of (foldl record_report initial_Locals reports) = summary reports.
Proof.
  destruct (foldl_record_report initial_Locals reports) as (Henc & Hdep & Hfiles & Hrec).
  unfold result_of, summary. rewrite Henc, Hdep, Hfiles, Hrec. simpl.
  by rewrite (right_id_L ∅ (∪)).
Qed.

(** The two loops return exactly when every checker call of every visit
    returns, and then with the summary of the reports. *)
Lemma verify_alone_Return `{Fs, Core}
    (projectEntries : list (ProjectEntry ProjectInfo)) (r : VerificationResult) :
  verify_alone projectEntries = Return r ↔
  ∃ reports, reports_of (visits projectEntries) reports ∧ r = summary reports.
Proof.
  unfold verify_alone. rewrite verify_entries_reports, fmap_Return. split.
  - intros (vars & (reports & Hreports & [= <-])%bind_Return & <-).
    exists reports. split; [by apply keyed_reports_Return|].
    by rewrite result_of_reports.
  - intros (reports & Hreports%keyed_reports_Return & ->).
    exists (foldl record_report initial_Locals reports).
    split; [by rewrite Hreports | apply result_of_reports].
Qed.

Lemma verifyForPlugin_alone `{Fs, Core, !EntryResolution} (entryFile : option string) :
  verifyForPlugin entryFile
  = getEntriesFromCliOrConfig entryFile true ≫= verify_alone.
Proof.
  unfold verifyForPlugin, verify_alone.
  destruct (getEntriesFromCliOrConfig entryFile true) as [projectEntries|e]; simpl;
    [|reflexivity].
  by destruct (verify_entries projectEntries initial_Locals).
Qed.

Lemma reports_of_functional `{Fs, Core} (visited : list (ProjectInfo * FileInfo))
    (reports reports' : list (string * FileViolations)) :
  reports_of visited reports → reports_of visited reports' → reports = reports'.
Proof.
  intros Hr%keyed_reports_Return Hr'%keyed_reports_Return. congruence.
Qed.

(** *** Visits and their reports *)

Lemma elem_of_visits `{Core} (projectEntries : list (ProjectEntry ProjectInfo))
    (projectInfo : ProjectInfo) (fileInfo : FileInfo) :
  (projectInfo, fileInfo) ∈ visits projectEntries ↔
  ∃ projectEntry,
    projectEntry ∈ projectEntries
    ∧ projectInfo = entry projectEntry
    ∧ fileInfo ∈ traverseFileInfo (projectInfo_fileInfo (entry projectEntry)).
Proof.
  unfold visits. rewrite list_elem_of_bind. split.
  - intros (projectEntry & (fileInfo' & [= -> ->] & Hfile)%list_elem_of_fmap & Hentry).
    eauto.
  - intros (projectEntry & Hentry & -> & Hfile). exists projectEntry.
    split; [|done]. apply list_elem_of_fmap. eauto.
Qed.

Lemma visits_app `{Core} (entries1 entries2 : list (ProjectEntry ProjectInfo)) :
  visits (entries1 ++ entries2) = visits entries1 ++ visits entries2.
Proof. unfold visits. apply bind_app. Qed.

Lemma reports_of_report `{Fs, Core} (visited : list (ProjectInfo * FileInfo))
    (reports : list (string * FileViolations)) (key : string) (report : FileViolations) :
  reports_of visited reports → (key, report) ∈ reports →
  ∃ visit, visit ∈ visited ∧ key = key_of visit.2
           ∧ file_report visit.1 visit.2 = Return report.
Proof.
  intros Hall (i & Hi)%list_elem_of_lookup.
  destruct (Forall2_lookup_r _ _ _ _ _ Hall Hi) as (visit & Hvisit & Hkey & Hreport).
  exists visit. split; [by eapply list_elem_of_lookup_2 | done].
Qed.

Lemma reports_of_visit `{Fs, Core} (visited : list (ProjectInfo * FileInfo))
    (reports : list (string * FileViolations)) (visit : ProjectInfo * FileInfo) :
  reports_of visited reports → visit ∈ visited →
  ∃ report, (key_of visit.2, report) ∈ reports
            ∧ file_report visit.1 visit.2 = Return report.
Proof.
  intros Hall (i & Hi)%list_elem_of_lookup.
  destruct (Forall2_lookup_l _ _ _ _ _ Hall Hi) as ([key report] & Hrep & Hkey & Hreport).
  simpl in *. subst key. exists report.
  split; [by eapply list_elem_of_lookup_2 | done].
Qed.

Lemma reports_of_app `{Fs, Core} (visited1 visited2 : list (ProjectInfo * FileInfo))
    (reports : list (string * FileViolations)) :
  reports_of (visited1 ++ visited2) reports ↔
  ∃ reports1 reports2,
    reports = reports1 ++ reports2
    ∧ reports_of visited1 reports1 ∧ reports_of visited2 reports2.
Proof.
  unfold reports_of. split.
  - intros (reports1 & reports2 & ? & ? & ->)%Forall2_app_inv_l. eauto.
  - intros (reports1 & reports2 & -> & ? & ?). by apply Forall2_app.
Qed.

Lemma sum_list_fmap_cons {A} (f : A → nat) (x : A) (l : list A) :
  sum_list (f <$> x :: l) = f x + sum_list (f <$> l).
Proof. reflexivity. Qed.

Lemma totals_zero (reports : list (string * FileViolations)) :
  total_encapsulation reports = 0 ∧ total_dependency reports = 0 ↔
  ∀ report, report ∈ reports → has_violations report.2 = false.
Proof.
  unfold total_encapsulation, total_dependency.
  induction reports as [|report reports IH].
  - split; [by intros _ report ?%elem_of_nil | done].
  - rewrite !sum_list_fmap_cons. split.
    + intros [Henc Hdep] report' [-> | Hin]%elem_of_cons.
      * unfold has_violations. apply orb_false_iff.
        split; apply bool_decide_eq_false; lia.
      * apply IH; [lia | done].
    + intros Hall.
      destruct (no_violations_lengths report.2) as [-> ->]; [apply Hall; by left|].
      apply IH. intros report' Hin. apply Hall. by right.
Qed.

Lemma totals_app (reports1 reports2 : list (string * FileViolations)) :
  total_encapsulation (reports1 ++ reports2)
    = total_encapsulation reports1 + total_encapsulation reports2
  ∧ total_dependency (reports1 ++ reports2)
    = total_dependency reports1 + total_dependency reports2.
Proof.
  unfold total_encapsulation, total_dependency.
  by rewrite !fmap_app, !sum_list_with_app.
Qed.

(** Two lists of entry points, one run after the other: the run over both
    returns exactly when the runs over each return; the counts add up and a
    key recorded by both keeps the record of the later one. *)
Lemma verify_alone_app `{Fs, Core}
    (entries1 entries2 : list (ProjectEntry ProjectInfo)) (both : VerificationResult) :
  verify_alone (entries1 ++ entries2) = Return both ↔
  ∃ alone1 alone2,
    verify_alone entries1 = Return alone1
    ∧ verify_alone entries2 = Return alone2
    ∧ success both = success alone1 && success alone2
    ∧ encapsulationViolationCount both
        = encapsulationViolationCount alone1 + encapsulationViolationCount alone2
    ∧ dependencyRuleViolationCount both
        = dependencyRuleViolationCount alone1 + dependencyRuleViolationCount alone2
    ∧ filesWithViolationsCount both
        = filesWithViolationsCount alone1 + filesWithViolationsCount alone2
    ∧ violations both = violations alone2 ∪ violations alone1.
Proof.
  assert (Hsummary : ∀ reports1 reports2,
    success (summary (reports1 ++ reports2))
      = success (summary reports1) && success (summary reports2)
    ∧ summary (reports1 ++ reports2)
      = {| success := success (summary (reports1 ++ reports2));
           encapsulationViolationCount :=
             total_encapsulation reports1 + total_encapsulation reports2;
           dependencyRuleViolationCount :=
             total_dependency reports1 + total_dependency reports2;
           filesWithViolationsCount :=
             filesWithViolationsCount (summary reports1)
             + filesWithViolationsCount (summary reports2);
           violations := record_of reports2 ∪ record_of reports1 |}).
  { intros reports1 reports2. unfold summary. simpl.
    destruct (totals_app reports1 reports2) as [-> ->].
    rewrite filter_app, length_app, record_of_app. split; [|done].
    repeat case_bool_decide; simpl; try done; lia. }
  rewrite verify_alone_Return, visits_app. split.
  - intros (reports & (reports1 & reports2 & -> & Hr1 & Hr2)%reports_of_app & ->).
    exists (summary reports1), (summary reports2).
    destruct (Hsummary reports1 reports2) as [Hsuccess Heq].
    split; [apply verify_alone_Return; eauto|].
    split; [apply verify_alone_Return; eauto|].
    split; [exact Hsuccess|]. by rewrite Heq.
  - intros (alone1 & alone2 & (reports1 & Hr1 & ->)%verify_alone_Return
                            & (reports2 & Hr2 & ->)%verify_alone_Return
                            & Hsuccess & Henc & Hdep & Hfiles & Hrec).
    exists (reports1 ++ reports2). split; [apply reports_of_app; eauto|].
    destruct (Hsummary reports1 reports2) as [Hsuccess' ->].
    destruct both. simpl in *. subst. by f_equal.
Qed.

(** C1. When entry resolution and every checker call return, so does
    [verifyForPlugin]; the two counts of its result are the totals over all
    files of all entry points, and [success] is [true] if and only if both
    counts are zero: a single violation of either kind, in any file, makes
    it [false]. *)
Theorem verifyForPlugin_success_iff_no_violation `{Fs, Core, !EntryResolution}
    (entryFile : option string) (projectEntries : list (ProjectEntry ProjectInfo))
    (reports : list (string * FileViolations)) :
  getEntriesFromCliOrConfig entryFile true = Return projectEntries →
  reports_of (visits projectEntries) reports →
  ∃ r,
    verifyForPlugin entryFile = Return r
    ∧ encapsulationViolationCount r = total_encapsulation reports
    ∧ dependencyRuleViolationCount r = total_dependency reports
    ∧ (success r = true ↔
       encapsulationViolationCount r = 0 ∧ dependencyRuleViolationCount r = 0)
    ∧ (success r = false ↔
       ∃ report, report ∈ reports
         ∧ (encapsulationViolations report.2 ≠ []
            ∨ dependencyRuleViolations report.2 ≠ [])).
Proof.
  intros Hentries Hreports. exists (summary reports).
  split.
  { rewrite verifyForPlugin_alone, Hentries. apply verify_alone_Return. eauto. }
  split; [reflexivity|]. split; [reflexivity|].
  assert (Hsuccess : success (summary reports) = true ↔
            total_encapsulation reports = 0 ∧ total_dependency reports = 0).
  { simpl. by rewrite andb_true_iff, !bool_decide_eq_true. }
  split; [exact Hsuccess|].
  rewrite <- not_true_iff_false, Hsuccess, totals_zero. split.
  - intros Hnot. rewrite <- Forall_forall in Hnot.
    apply not_Forall_Exists in Hnot; [|apply _].
    apply Exists_exists in Hnot as (report & Hin & Hhas%not_false_iff_true).
    exists report. split; [exact Hin | by apply has_violations_lengths].
  - intros (report & Hin & Hhas%has_violations_lengths) Hall.
    rewrite (Hall report Hin) in Hhas. discriminate.
Qed.

(** C10. [getProjectDataForPlugin] asks for the project data of the first
    entry that entry resolution returns, under that entry's project name,
    and returns what it gets: the entries after the first have no part in
    the result. *)
Theorem getProjectDataForPlugin_first_entry_only `{Fs, Core, !EntryResolution}
    (entryFile : option string) (options : option ProjectDataOptions)
    (first : ProjectEntry string) (others : list (ProjectEntry string)) :
  getEntriesFromCliOrConfig entryFile false = Return (first :: others) →
  getProjectDataForPlugin entryFile options
  = getProjectDataFn (fs_join [fs_cwd; entry first])
      {| opt_projectName := projectName first;
         opt_skipImportResolution := options ≫= skipImportResolution |}.
Proof.
  intros Hentries. unfold getProjectDataForPlugin. by rewrite Hentries.
Qed.

(** C5, counterexample. [libs/shared/util.ts] is reached from [project-i]
    and from [project-ii] and violates a different rule in each. The record
    of the run over both holds for it what the visit from [project-ii]
    found, not what the visit from [project-i] found. *)
Lemma record_misses_the_earlier_visit :
  ¬ @record_holds_each_files_violations Toy.fs (Toy.core (Return Toy.config_entryPoints))
      (Toy.resolution (Return Toy.config_entryPoints)) None.
Proof.
  intros Hholds.
  assert (Hvisit : (Toy.main_i, Toy.util_ts)
            ∈ @visits (Toy.core (Return Toy.config_entryPoints))
                [Toy.project_i; Toy.project_ii]).
  { apply (proj2 (@elem_of_visits (Toy.core (Return Toy.config_entryPoints))
                    [Toy.project_i; Toy.project_ii] Toy.main_i Toy.util_ts)).
    exists Toy.project_i. split; [by left|]. split; [done|].
    exact (bool_decide_unpack (Toy.util_ts ∈ Toy.traverse Toy.main_i) I). }
  pose proof (Hholds _ _ eq_refl eq_refl _ _ _ Hvisit eq_refl) as Hutil.
  vm_compute in Hutil. discriminate Hutil.
Qed.

(** C5, as the code has it. For a key other than [__proto__], the violation
    record has an entry under the key of a file exactly when a visit of that
    file found a violation of either kind, and an entry is always the
    verdict of one visit of that file: of the last visit that found a
    violation. For a file whose verdict is the same at every visit under
    its key (as it is when the file is visited once), the entry holds the
    keys of what [hasEncapsulationViolations] returned, as they come, and
    one [DependencyViolationInfo] per element of what
    [checkForDependencyRuleViolation] returned, in the same order and with
    the same [fromTag], [toTags] and [rawImport]; nothing is merged. *)
Theorem violations_record_holds_each_files_violations `{Fs, Core, !EntryResolution}
    (entryFile : option string) (projectEntries : list (ProjectEntry ProjectInfo))
    (reports : list (string * FileViolations)) :
  getEntriesFromCliOrConfig entryFile true = Return projectEntries →
  reports_of (visits projectEntries) reports →
  ∃ r,
    verifyForPlugin entryFile = Return r
    ∧ (∀ key,
         key ≠ "__proto__" →
         is_Some (violations r !! key) ↔
         ∃ projectInfo fileInfo report,
           (projectInfo, fileInfo) ∈ visits projectEntries
           ∧ key_of fileInfo = key
           ∧ file_report projectInfo fileInfo = Return report
           ∧ (encapsulationViolations report ≠ [] ∨ dependencyRuleViolations report ≠ []))
    ∧ (∀ key report,
         violations r !! key = Some report →
         ∃ projectInfo fileInfo,
           (projectInfo, fileInfo) ∈ visits projectEntries
           ∧ key_of fileInfo = key
           ∧ file_report projectInfo fileInfo = Return report)
    ∧ (∀ before visit after report,
         visits projectEntries = before ++ visit :: after →
         key_of visit.2 ≠ "__proto__" →
         file_report visit.1 visit.2 = Return report →
         encapsulationViolations report ≠ [] ∨ dependencyRuleViolations report ≠ [] →
         (∀ later report',
            later ∈ after → key_of later.2 = key_of visit.2 →
            file_report later.1 later.2 = Return report' →
            encapsulationViolations report' = [] ∧ dependencyRuleViolations report' = []) →
         violations r !! key_of visit.2 = Some report)
    ∧ (∀ projectInfo fileInfo,
         (projectInfo, fileInfo) ∈ visits projectEntries →
         ∃ encapsulations dependencyRuleViolations,
           hasEncapsulationViolations (fileInfo_path fileInfo) projectInfo
             = Return encapsulations
           ∧ checkForDependencyRuleViolation (fileInfo_path fileInfo) projectInfo
             = Return dependencyRuleViolations
           ∧ (key_of fileInfo ≠ "__proto__" →
              (∀ projectInfo' fileInfo',
                 (projectInfo', fileInfo') ∈ visits projectEntries →
                 key_of fileInfo' = key_of fileInfo →
                 file_report projectInfo' fileInfo' = file_report projectInfo fileInfo) →
              violations r !! key_of fileInfo =
                if bool_decide (Object_keys encapsulations = []
                                ∧ dependencyRuleViolations = [])
                then None
                else Some
                  {| encapsulationViolations := Object_keys encapsulations;
                     dependencyRuleViolations :=
                       (λ v, {| fromTag := rule_fromTag v;
                                toTags := rule_toTags v;
                                rawImport := rule_rawImport v |})
                       <$> dependencyRuleViolations |})).
Proof.
  intros Hentries Hreports. exists (summary reports).
  split.
  { rewrite verifyForPlugin_alone, Hentries. apply verify_alone_Return. eauto. }
  split_and!.
  - intros key Hproto. simpl. split.
    + intros [report [Hin Hhas]%record_of_lookup_Some].
      destruct (reports_of_report _ _ _ _ Hreports Hin)
        as ([projectInfo fileInfo] & Hvisit & -> & Hreport).
      exists projectInfo, fileInfo, report.
      split_and!; [done.. | by apply has_violations_lengths].
    + intros (projectInfo & fileInfo & report & Hvisit & <- & Hreport & Hhas).
      destruct (reports_of_visit _ _ _ Hreports Hvisit) as (report' & Hin & Hreport').
      simpl in *. rewrite Hreport in Hreport'. injection Hreport' as <-.
      eapply record_of_lookup_is_Some;
        [exact Hproto | exact Hin | by apply has_violations_lengths].
  - intros key report [Hin _]%record_of_lookup_Some.
    destruct (reports_of_report _ _ _ _ Hreports Hin)
      as ([projectInfo fileInfo] & Hvisit & -> & Hreport).
    by exists projectInfo, fileInfo.
  - intros before visit after report Hvisits Hproto Hreport Hhas%has_violations_lengths Hlater.
    rewrite Hvisits in Hreports.
    apply reports_of_app in Hreports as (reports1 & reports2 & -> & Hbefore & Hrest).
    apply Forall2_cons_inv_l in Hrest as ([key report0] & reports3 & [Hkey Hreport0] & Hafter & ->).
    simpl in Hkey, Hreport0. subst key. rewrite Hreport in Hreport0. injection Hreport0 as <-.
    simpl. rewrite (record_of_app reports1).
    change ((key_of visit.2, report) :: reports3)
      with ([(key_of visit.2, report)] ++ reports3).
    rewrite record_of_app, <- (assoc_L (∪)).
    assert (Hnone : record_of reports3 !! key_of visit.2 = None).
    { destruct (record_of reports3 !! key_of visit.2) as [report'|] eqn:Hlookup; [|done].
      apply record_of_lookup_Some in Hlookup as [Hin Hhas'].
      destruct (reports_of_report _ _ _ _ Hafter Hin) as (later & Hin' & Hkey & Hreport').
      destruct (Hlater later report' Hin' (eq_sym Hkey) Hreport') as [Henc Hdep].
      apply has_violations_lengths in Hhas'. by destruct Hhas'. }
    rewrite (lookup_union_r _ _ _ Hnone).
    apply lookup_union_Some_l. unfold record_of. simpl. rewrite Hhas.
    by rewrite lookup_assign, bool_decide_eq_true_2.
  - intros projectInfo fileInfo Hvisit.
    destruct (reports_of_visit _ _ _ Hreports Hvisit) as (report & Hin & Hreport).
    simpl in Hin, Hreport. unfold file_report in Hreport.
    destruct (hasEncapsulationViolations (fileInfo_path fileInfo) projectInfo)
      as [encapsulations|e] eqn:Henc; [|discriminate].
    destruct (checkForDependencyRuleViolation (fileInfo_path fileInfo) projectInfo)
      as [dependencyRuleViolations|e] eqn:Hdep; [|discriminate].
    injection Hreport as <-.
    exists encapsulations, dependencyRuleViolations.
    split; [reflexivity|]. split; [reflexivity|].
    intros Hproto Hagree. simpl.
    rewrite (record_of_lookup_agreed _ _ _ Hproto Hin).
    + case_bool_decide as Hnone.
      * destruct Hnone as [Hk ->]. unfold has_violations. simpl. by rewrite Hk.
      * destruct (has_violations _) eqn:Hhas; [reflexivity|].
        destruct (no_violations_lengths _ Hhas) as [Hk Hd]. simpl in Hk, Hd.
        rewrite length_fmap in Hd. exfalso. apply Hnone.
        split; by apply nil_length_inv.
    + intros report' Hin'.
      destruct (reports_of_report _ _ _ _ Hreports Hin')
        as ([projectInfo' fileInfo'] & Hvisit' & Hkey & Hreport').
      simpl in *. rewrite (Hagree _ _ Hvisit' (eq_sym Hkey)) in Hreport'.
      unfold file_report in Hreport'. rewrite Henc, Hdep in Hreport'.
      by injection Hreport' as <-.
Qed.

(** C2, counterexample. [project-i] and [project-ii] both reach
    [libs/shared/util.ts], and its import of [@app/feature] is a dependency
    violation towards a different tag in each. Verified together, the record
    for the shared file is the one of [project-ii]; it is not what
    [project-i] alone records for it. *)
Lemma shared_file_reports_interfere :
  ¬ @reports_independent Toy.fs (Toy.core (Return Toy.config_entryPoints))
      Toy.project_i Toy.project_ii.
Proof.
  intros Hindependent.
  destruct (Hindependent _ _ _ eq_refl eq_refl eq_refl) as [Hfirst _].
  specialize (Hfirst Toy.util_ts).
  assert (Hin : Toy.util_ts ∈ Toy.traverse Toy.main_i)
    by exact (bool_decide_unpack (Toy.util_ts ∈ Toy.traverse Toy.main_i) I).
  specialize (Hfirst Hin). vm_compute in Hfirst. discriminate Hfirst.
Qed.

(** A key recorded for one entry point is the key of one of its files. *)
Lemma recorded_key_of_a_file `{Fs, Core} (e : ProjectEntry ProjectInfo)
    (alone : VerificationResult) (key : string) :
  verify_alone [e] = Return alone →
  is_Some (violations alone !! key) →
  ∃ fileInfo,
    fileInfo ∈ traverseFileInfo (projectInfo_fileInfo (entry e)) ∧ key = key_of fileInfo.
Proof.
  intros (reports & Hreports & ->)%verify_alone_Return
         [report [Hin _]%record_of_lookup_Some].
  destruct (reports_of_report _ _ _ _ Hreports Hin)
    as ([projectInfo fileInfo] & Hvisit & -> & _).
  apply elem_of_visits in Hvisit as (e' & ->%list_elem_of_singleton & _ & Hfile). eauto.
Qed.

(** Where the verdicts on the shared files are the same, what one entry
    point records under the key of a file of the other, the other records
    too. *)
Lemma same_verdicts_same_record `{Fs, Core} (ea eb : ProjectEntry ProjectInfo)
    (alone_a alone_b : VerificationResult) :
  verify_alone [ea] = Return alone_a →
  verify_alone [eb] = Return alone_b →
  (∀ fa fb,
     fa ∈ traverseFileInfo (projectInfo_fileInfo (entry ea)) →
     fb ∈ traverseFileInfo (projectInfo_fileInfo (entry eb)) →
     key_of fa = key_of fb →
     file_report (entry ea) fa = file_report (entry eb) fb) →
  ∀ fb report,
    fb ∈ traverseFileInfo (projectInfo_fileInfo (entry eb)) →
    violations alone_a !! key_of fb = Some report →
    violations alone_b !! key_of fb = Some report.
Proof.
  intros (reports_a & Hreports_a & ->)%verify_alone_Return
         (reports_b & Hreports_b & ->)%verify_alone_Return Hsame fb report Hfb Hlookup.
  cbn [violations summary] in *.
  assert (Hproto : key_of fb ≠ "__proto__").
  { intros Hkey. by rewrite Hkey, record_of_lookup_proto in Hlookup. }
  apply record_of_lookup_Some in Hlookup as [Hin Hhas].
  destruct (reports_of_report _ _ _ _ Hreports_a Hin)
    as ([pa fa] & Hvisit_a & Hkey_a & Hreport_a). simpl in Hkey_a, Hreport_a.
  apply elem_of_visits in Hvisit_a as (e' & ->%list_elem_of_singleton & -> & Hfa).
  assert (Hvisit_b : (entry eb, fb) ∈ visits [eb]).
  { apply elem_of_visits. exists eb. split; [by left | done]. }
  destruct (reports_of_visit _ _ _ Hreports_b Hvisit_b) as (report_b & Hin_b & Hreport_b).
  simpl in Hin_b, Hreport_b.
  rewrite <- (Hsame fa fb Hfa Hfb (eq_sym Hkey_a)), Hreport_a in Hreport_b.
  injection Hreport_b as <-.
  destruct (record_of_lookup_is_Some _ _ _ Hproto Hin_b Hhas) as [report' Hlookup].
  rewrite Hlookup. f_equal.
  apply record_of_lookup_Some in Hlookup as [Hin' _].
  destruct (reports_of_report _ _ _ _ Hreports_b Hin')
    as ([pb fb'] & Hvisit' & Hkey' & Hreport'). simpl in Hkey', Hreport'.
  apply elem_of_visits in Hvisit' as (e' & ->%list_elem_of_singleton & -> & Hfb').
  rewrite <- (Hsame fa fb' Hfa Hfb'), Hreport_a in Hreport' by congruence.
  by injection Hreport' as <-.
Qed.

(** C2, as the code has it. Two entry points verified together: the counts
    are the sums, and the single record holds under every key what the later
    entry point records under it alone, or, where that records nothing,
    what the earlier one records: the entry written last. The record for
    each file of either entry point is what that entry point alone records
    for it exactly when the two record the same under every key that a file
    of one shares with a file of the other. They do when every file reached
    from both gets the same verdict of the checkers under both, and in
    particular when no file of one shares its key with a file of the other:
    then the record is the disjoint union of the two. *)
Theorem entry_points_interfere_only_where_verdicts_differ `{Fs, Core}
    (e1 e2 : ProjectEntry ProjectInfo) (alone1 alone2 : VerificationResult) :
  verify_alone [e1] = Return alone1 →
  verify_alone [e2] = Return alone2 →
  ∃ both,
    verify_alone [e1; e2] = Return both
    ∧ (∀ key,
         violations both !! key
         = match violations alone2 !! key with
           | Some report => Some report
           | None => violations alone1 !! key
           end)
    ∧ encapsulationViolationCount both
        = encapsulationViolationCount alone1 + encapsulationViolationCount alone2
    ∧ dependencyRuleViolationCount both
        = dependencyRuleViolationCount alone1 + dependencyRuleViolationCount alone2
    ∧ filesWithViolationsCount both
        = filesWithViolationsCount alone1 + filesWithViolationsCount alone2
    ∧ (reports_independent e1 e2 ↔
       ∀ f1 f2,
         f1 ∈ traverseFileInfo (projectInfo_fileInfo (entry e1)) →
         f2 ∈ traverseFileInfo (projectInfo_fileInfo (entry e2)) →
         key_of f1 = key_of f2 →
         violations alone1 !! key_of f1 = violations alone2 !! key_of f1)
    ∧ (same_verdicts_on_shared_files e1 e2 → reports_independent e1 e2)
    ∧ (isolated e1 e2 →
       reports_independent e1 e2
       ∧ violations alone1 ##ₘ violations alone2
       ∧ violations both = violations alone1 ∪ violations alone2).
Proof.
  intros Halone1 Halone2.
  set (both := {| success := success alone1 && success alone2;
                  encapsulationViolationCount :=
                    encapsulationViolationCount alone1 + encapsulationViolationCount alone2;
                  dependencyRuleViolationCount :=
                    dependencyRuleViolationCount alone1 + dependencyRuleViolationCount alone2;
                  filesWithViolationsCount :=
                    filesWithViolationsCount alone1 + filesWithViolationsCount alone2;
                  violations := violations alone2 ∪ violations alone1 |}).
  assert (Hboth : verify_alone [e1; e2] = Return both).
  { apply (verify_alone_app [e1] [e2]). exists alone1, alone2. by split_and!. }
  assert (Hrecord : ∀ key,
            violations both !! key
            = match violations alone2 !! key with
              | Some report => Some report
              | None => violations alone1 !! key
              end).
  { intros key. simpl. rewrite lookup_union.
    by destruct (violations alone2 !! key), (violations alone1 !! key). }
  assert (Hindependent :
    (∀ f1 f2,
       f1 ∈ traverseFileInfo (projectInfo_fileInfo (entry e1)) →
       f2 ∈ traverseFileInfo (projectInfo_fileInfo (entry e2)) →
       key_of f1 = key_of f2 →
       violations alone1 !! key_of f1 = violations alone2 !! key_of f1) →
    reports_independent e1 e2).
  { intros Hshared both' alone1' alone2' Hboth' Halone1' Halone2'.
    rewrite Hboth in Hboth'. rewrite Halone1 in Halone1'. rewrite Halone2 in Halone2'.
    injection Hboth' as <-. injection Halone1' as <-. injection Halone2' as <-.
    split; intros fileInfo Hfile; rewrite Hrecord.
    - destruct (violations alone2 !! key_of fileInfo) as [report|] eqn:Hlookup; [|done].
      destruct (recorded_key_of_a_file e2 alone2 _ Halone2 (mk_is_Some _ _ Hlookup))
        as (f2 & Hf2 & Hkey).
      by rewrite (Hshared fileInfo f2 Hfile Hf2 Hkey).
    - destruct (violations alone2 !! key_of fileInfo) as [report|] eqn:Hlookup; [done|].
      destruct (violations alone1 !! key_of fileInfo) as [report|] eqn:Hlookup1; [|done].
      destruct (recorded_key_of_a_file e1 alone1 _ Halone1 (mk_is_Some _ _ Hlookup1))
        as (f1 & Hf1 & Hkey).
      pose proof (Hshared f1 fileInfo Hf1 Hfile (eq_sym Hkey)) as Hsame.
      rewrite <- Hkey in Hsame. congruence. }
  exists both. split; [exact Hboth|]. split; [exact Hrecord|].
  split; [done|]. split; [done|]. split; [done|]. split_and!.
  - split; [|exact Hindependent].
    intros Hind f1 f2 Hf1 Hf2 Hkey.
    destruct (Hind both alone1 alone2 Hboth Halone1 Halone2) as [Hfirst Hsecond].
    rewrite <- (Hfirst f1 Hf1), Hkey. apply Hsecond, Hf2.
  - intros Hsame. apply Hindependent. intros f1 f2 Hf1 Hf2 Hkey.
    destruct (violations alone1 !! key_of f1) as [report|] eqn:Hlookup1.
    + rewrite Hkey in *. symmetry.
      by apply (same_verdicts_same_record e1 e2 alone1 alone2 Halone1 Halone2 Hsame).
    + destruct (violations alone2 !! key_of f1) as [report|] eqn:Hlookup2; [|done].
      assert (Hcontra : violations alone1 !! key_of f1 = Some report); [|congruence].
      apply (same_verdicts_same_record e2 e1 alone2 alone1 Halone2 Halone1); [|done..].
      intros fa fb Hfa Hfb Hk. symmetry. by apply Hsame.
  - intros Hisolated.
    assert (Hdisjoint : violations alone1 ##ₘ violations alone2).
    { apply map_disjoint_spec. intros key v1 v2 Hv1 Hv2.
      destruct (recorded_key_of_a_file e1 alone1 key Halone1) as (f1 & Hf1 & ->);
        [by eexists|].
      destruct (recorded_key_of_a_file e2 alone2 (key_of f1) Halone2) as (f2 & Hf2 & Hkey);
        [by eexists|].
      by apply (Hisolated f1 f2). }
    split_and!.
    + apply Hindependent. intros f1 f2 Hf1 Hf2 Hkey. by destruct (Hisolated f1 f2).
    + exact Hdisjoint.
    + simpl. by apply map_union_comm.
Qed.

(** *** The statements on the small workspace *)

Lemma application_is_reported :
  @reports_of Toy.fs (Toy.core (Return Toy.config_entryFile))
    (@visits (Toy.core (Return Toy.config_entryFile)) [Toy.application])
    Toy.application_reports.
Proof. repeat constructor. Qed.

Lemma verifyForPlugin_success_iff_no_violation_witness :
  @getEntriesFromCliOrConfig _ (Toy.resolution (Return Toy.config_entryFile)) None true
    = Return [Toy.application]
  ∧ @reports_of Toy.fs (Toy.core (Return Toy.config_entryFile))
      (@visits (Toy.core (Return Toy.config_entryFile)) [Toy.application])
      Toy.application_reports
  ∧ ∃ r,
      @verifyForPlugin Toy.fs _ (Toy.resolution (Return Toy.config_entryFile)) None
        = Return r
      ∧ encapsulationViolationCount r = 1
      ∧ dependencyRuleViolationCount r = 2
      ∧ success r = false.
Proof.
  split; [reflexivity|]. split; [exact application_is_reported|].
  destruct (@verifyForPlugin_success_iff_no_violation
              Toy.fs _ (Toy.resolution (Return Toy.config_entryFile))
              None [Toy.application] Toy.application_reports
              eq_refl application_is_reported)
    as (r & Hrun & Henc & Hdep & _ & Hfalse).
  exists r. split; [exact Hrun|]. split; [exact Henc|]. split; [exact Hdep|].
  apply Hfalse. exists ("src/holidays/holidays.component.ts", Toy.component_report).
  split; [|by left]. unfold Toy.application_reports. do 3 right. left.
Defined.

(** The clean project: a file that imports nothing verifies with success. *)
Example verifyForPlugin_clean_project :
  success <$> @verifyForPlugin Toy.fs _ (Toy.resolution (Return Toy.config_entryFile))
                (Some "src/customers/index.ts")
  = Return true.
Proof. vm_compute. reflexivity. Qed.

Lemma violations_record_holds_each_files_violations_witness :
  @getEntriesFromCliOrConfig _ (Toy.resolution (Return Toy.config_entryFile)) None true
    = Return [Toy.application]
  ∧ @reports_of Toy.fs (Toy.core (Return Toy.config_entryFile))
      (@visits (Toy.core (Return Toy.config_entryFile)) [Toy.application])
      Toy.application_reports
  ∧ ∃ r,
      @verifyForPlugin Toy.fs _ (Toy.resolution (Return Toy.config_entryFile)) None
        = Return r
      ∧ violations r !! "src/holidays/holidays.component.ts" = Some Toy.component_report
      ∧ violations r !! "src/main.ts" = None.
Proof.
  split; [reflexivity|]. split; [exact application_is_reported|].
  destruct (@violations_record_holds_each_files_violations
              Toy.fs _ (Toy.resolution (Return Toy.config_entryFile))
              None [Toy.application] Toy.application_reports
              eq_refl application_is_reported)
    as (r & Hrun & _ & _ & _ & Hfile).
  exists r. split; [exact Hrun|].
  assert (Hvisited : ∀ file, file ∈ Toy.traverse Toy.main_ts →
            (Toy.main_ts, file)
              ∈ @visits (Toy.core (Return Toy.config_entryFile)) [Toy.application]).
  { intros file Hfile'. apply (@elem_of_visits (Toy.core (Return Toy.config_entryFile))).
    exists Toy.application. split; [by left | by split]. }
  assert (Hone : ∀ file project' file',
            file ∈ Toy.traverse Toy.main_ts →
            (project', file')
              ∈ @visits (Toy.core (Return Toy.config_entryFile)) [Toy.application] →
            @key_of Toy.fs (Toy.core (Return Toy.config_entryFile)) file'
              = @key_of Toy.fs (Toy.core (Return Toy.config_entryFile)) file →
            @file_report (Toy.core (Return Toy.config_entryFile)) project' file'
              = @file_report (Toy.core (Return Toy.config_entryFile)) Toy.main_ts file).
  { intros file project' file' Hfile' Hvisit Hkey.
    unfold Toy.traverse in Hfile'. simpl in Hfile'.
    repeat (apply elem_of_cons in Hfile' as [-> | Hfile']);
      try (by apply elem_of_nil in Hfile');
      repeat (apply elem_of_cons in Hvisit as [[= -> ->] | Hvisit]);
      try (by apply elem_of_nil in Hvisit);
      first [ reflexivity | vm_compute in Hkey; discriminate Hkey ]. }
  split.
  - destruct (Hfile Toy.main_ts Toy.component_ts)
      as (encapsulations & dependencyRuleViolations & Henc & Hdep & Hlookup).
    { apply Hvisited. by_evaluation. }
    injection Henc as <-. injection Hdep as <-.
    apply Hlookup; [vm_compute; discriminate|]. intros project' file'. apply Hone.
    by_evaluation.
  - destruct (Hfile Toy.main_ts Toy.main_ts)
      as (encapsulations & dependencyRuleViolations & Henc & Hdep & Hlookup).
    { apply Hvisited. by_evaluation. }
    injection Henc as <-. injection Hdep as <-.
    apply Hlookup; [vm_compute; discriminate|]. intros project' file'. apply Hone.
    by_evaluation.
Defined.

Lemma getProjectDataForPlugin_first_entry_only_witness :
  @getEntriesFromCliOrConfig _ (Toy.resolution (Return Toy.config_entryPoints)) None false
    = Return [ {| projectName := "project-i"; entry := "projects/project-i/src/main.ts" |};
               {| projectName := "project-ii"; entry := "projects/project-ii/src/main.ts" |} ]
  ∧ @getProjectDataForPlugin Toy.fs _ (Toy.resolution (Return Toy.config_entryPoints))
      None None
    = Return ("/project/projects/project-i/src/main.ts",
              {| opt_projectName := "project-i"; opt_skipImportResolution := None |}).
Proof.
  split; [reflexivity|].
  exact (@getProjectDataForPlugin_first_entry_only
           Toy.fs _ (Toy.resolution (Return Toy.config_entryPoints)) None None
           {| projectName := "project-i"; entry := "projects/project-i/src/main.ts" |}
           [ {| projectName := "project-ii"; entry := "projects/project-ii/src/main.ts" |} ]
           eq_refl).
Defined.

Lemma application_and_project_i_are_isolated :
  @isolated Toy.fs (Toy.core (Return Toy.config_entryPoints)) Toy.application Toy.project_i.
Proof.
  intros f1 f2 Hf1 Hf2. simpl in Hf1, Hf2.
  unfold Toy.traverse in Hf1, Hf2. simpl in Hf1, Hf2.
  repeat (apply elem_of_cons in Hf1 as [-> | Hf1]);
    try (by apply elem_of_nil in Hf1);
    repeat (apply elem_of_cons in Hf2 as [-> | Hf2]);
    try (by apply elem_of_nil in Hf2);
    vm_compute; discriminate.
Defined.

Lemma entry_points_interfere_only_where_verdicts_differ_witness :
  ∃ alone1 alone2 both,
    @verify_alone Toy.fs (Toy.core (Return Toy.config_entryPoints)) [Toy.project_i]
      = Return alone1
    ∧ @verify_alone Toy.fs (Toy.core (Return Toy.config_entryPoints)) [Toy.project_ii]
      = Return alone2
    ∧ @verify_alone Toy.fs (Toy.core (Return Toy.config_entryPoints))
        [Toy.project_i; Toy.project_ii] = Return both
    ∧ violations both !! "libs/shared/util.ts" = violations alone2 !! "libs/shared/util.ts"
    ∧ filesWithViolationsCount both = 2.
Proof.
  destruct (@entry_points_interfere_only_where_verdicts_differ
              Toy.fs (Toy.core (Return Toy.config_entryPoints))
              Toy.project_i Toy.project_ii _ _ eq_refl eq_refl)
    as (both & Hboth & Hrecord & _ & _ & Hfiles & _).
  eexists _, _, both. split; [reflexivity|]. split; [reflexivity|].
  split; [exact Hboth|]. split; [|exact Hfiles].
  rewrite (Hrecord "libs/shared/util.ts"). vm_compute. reflexivity.
Defined.

(** *** Further runs *)

(** The cases of the test suite of [handleError]. *)
Example handleError_prints_UserError :
  handleError (E := CliEvent) ([], Throw (InvalidPathError "sheriff" "src/main.ts"))
  = ([ LogError "invalid path mapping detected: sheriff: src/main.ts. Please verify that the path exists.";
       EndProcessError ], Return ()).
Proof. reflexivity. Qed.

Example handleError_prints_Error :
  handleError (E := CliEvent) ([], Throw (Error "nix geht"))
  = ([LogError "nix geht"; EndProcessError], Return ()).
Proof. reflexivity. Qed.

Example handleError_prints_thrown_string :
  handleError (E := CliEvent) ([], Throw (NonError "nix geht"))
  = ([LogError "nix geht"; EndProcessError], Return ()).
Proof. reflexivity. Qed.

Example handleErrorAsync_prints_rejection :
  handleErrorAsync (E := CliEvent) ([], Return ([], Rejected (Error "rejected promise")))
  = ([LogError "rejected promise"; EndProcessError], Fulfilled ()).
Proof. reflexivity. Qed.

(** A thrown object without a conversion to a string. *)
Example handleError_throws_on_unconvertible :
  handleError (E := CliEvent)
    ([Log "working"],
     Throw (Unconvertible (TypeError "Cannot convert object to primitive value")))
  = ([Log "working"], Throw (TypeError "Cannot convert object to primitive value")).
Proof. reflexivity. Qed.

(** A command that is not built in goes to the plugin of that name. *)
Example main_runs_the_reporter_plugin :
  ∃ plugin,
    @main Toy.fs (Toy.core (Return Toy.config_plugins)) Toy.commands ["reporter"; "x"]
    = ([ InvokeExecute plugin ["x"];
         FromCli (Log "plugin reporter");
         FromCli EndProcessOk ], Return ())
    ∧ plugin_name plugin = "reporter".
Proof. eexists. split; reflexivity. Qed.

(** A plugin that throws is reported under SH-015. *)
Example executePlugin_wraps_the_error :
  executePlugin "failing-plugin" []
    (Some [ PObject {| name_value := VString "failing-plugin";
                       description_value := VUndefined;
                       execute := Some (λ _, ([], Throw (Error "Plugin failed!"))) |} ])
  = ([ InvokeExecute
         {| plugin_name := "failing-plugin"; plugin_description := None;
            plugin_execute := λ _, ([], Throw (Error "Plugin failed!")) |} [] ],
     Rejected (UserError SH_015
                 "Plugin 'failing-plugin' failed during execution: Plugin failed!")).
Proof. reflexivity. Qed.

(** A function registered as a plugin is found under its name and refused;
    a plugin that follows it under the same name is not reached. *)
Example a_registered_function_is_refused :
  @handlePluginOrHelp Toy.commands (Some "reporter") []
    [ PNonObject {| name_value := VString "reporter"; description_value := VUndefined;
                    execute := None |};
      Toy.plugin_called "reporter" ]
  = ([], Rejected (PluginInvalidError "Plugin must be an object")).
Proof. reflexivity. Qed.

(** A description that is a symbol cannot be rendered in the help. *)
Example showHelp_throws_on_a_symbol :
  (@showHelp Toy.commands
     [ PObject {| name_value := VString "reporter";
                  description_value :=
                    VOther true
                      (NoText (TypeError "Cannot convert a Symbol value to a string"));
                  execute := None |} ]).2
  = Throw (TypeError "Cannot convert a Symbol value to a string").
Proof. reflexivity. Qed.

(** Entry resolution from each kind of configuration. *)
Example getEntryFromCliOrConfig_entryPoints :
  @getEntryFromCliOrConfig Toy.fs (Toy.core (Return Toy.config_entryPoints)) None false
  = Return [ {| projectName := "project-i"; entry := "projects/project-i/src/main.ts" |};
             {| projectName := "project-ii"; entry := "projects/project-ii/src/main.ts" |} ].
Proof. reflexivity. Qed.

Example getEntryFromCliOrConfig_both :
  @getEntryFromCliOrConfig Toy.fs (Toy.core (Return Toy.config_both)) None false
  = Throw both_declared.
Proof. reflexivity. Qed.

Example getEntryFromCliOrConfig_neither :
  @getEntryFromCliOrConfig Toy.fs (Toy.core (Return Toy.config_neither)) None false
  = Throw none_declared.
Proof. reflexivity. Qed.

(** Verified together, the two projects count the shared file twice and
    keep one record for it. *)
Example verify_two_projects :
  (λ r, (success r, dependencyRuleViolationCount r, filesWithViolationsCount r,
         size (violations r),
         violations r !! "libs/shared/util.ts"))
    <$> @verifyForPlugin Toy.fs _ (Toy.resolution (Return Toy.config_entryPoints)) None
  = Return (false, 2, 2, 1,
            Some {| encapsulationViolations := [];
                    dependencyRuleViolations :=
                      [ {| fromTag := "shared"; toTags := ["app:project-ii"];
                           rawImport := "@app/feature" |} ] |}).
Proof. vm_compute. reflexivity. Qed.

(** * Further properties of the code *)

(** ** Resolution and execution of plugins *)

(** X1. [validatePlugin] accepts exactly the objects whose [name] is a
    string that is not blank and whose [execute] is a function, and hands
    these three properties on unchanged; every other value is refused with a
    [PluginInvalidError]. *)
Theorem validatePlugin_accepts_named_executables (plugin : PluginValue) :
  (∀ valid,
     validatePlugin plugin = Return valid ↔
     ∃ o n ex,
       plugin = PObject o ∧ name o = Some n ∧ trim n ≠ "" ∧ execute o = Some ex
       ∧ valid = {| plugin_name := n;
                    plugin_description := description o;
                    plugin_execute := ex |})
  ∧ (returns (validatePlugin plugin)
     ∨ ∃ details,
         validatePlugin plugin = Throw (PluginInvalidError details)
         ∧ error_code (PluginInvalidError details) = Some SH_014).
Proof.
  split.
  - intros valid. split.
    + destruct plugin as [| |o|[[|n|truthy conversion] d [ex|]]]; simpl;
        try case_bool_decide; intros [= <-].
      by exists {| name_value := VString n; description_value := d; execute := Some ex |},
                n, ex.
    + intros (o & n & ex & -> & Hname & Hblank & Hex & ->). simpl.
      rewrite Hname, Hex. by rewrite bool_decide_eq_false_2.
  - destruct (validatePlugin plugin) as [valid|e] eqn:Hv; [left; by eexists|].
    right. destruct (validatePlugin_Throw _ _ Hv) as [details ->]. eauto.
Qed.

Lemma matches_name_optional (wanted : string) (p : PluginValue) :
  matches_name wanted p = optional_name_is p wanted.
Proof.
  unfold matches_name.
  destruct p as [| |o|[[|n|truthy conversion] d [ex|]]]; simpl; try done;
    case_bool_decide; simpl; try done.
  apply bool_decide_ext. split; [by intros -> | by intros [= ->]].
Qed.

Lemma find_first_of_name (wanted : string) (before after : list PluginValue)
    (p : PluginValue) :
  (∀ q, q ∈ before → optional_name_is q wanted = false) →
  optional_name_is p wanted = true →
  List.find (matches_name wanted) (before ++ p :: after) = Some p.
Proof.
  intros Hbefore Hp. induction before as [|q before IH]; simpl.
  - by rewrite matches_name_optional, Hp.
  - rewrite matches_name_optional, (Hbefore q) by by left.
    apply IH. intros q' Hq'. apply Hbefore. by right.
Qed.

Lemma find_none_of_name (wanted : string) (registered : list PluginValue) :
  (∀ q, q ∈ registered → optional_name_is q wanted = false) →
  List.find (matches_name wanted) registered = None.
Proof.
  induction registered as [|q registered IH]; intros Hnone; simpl; [done|].
  rewrite matches_name_optional, (Hnone q) by by left.
  apply IH. intros q' Hq'. apply Hnone. by right.
Qed.

Lemma findPluginByName_found (wanted : string)
    (registered : option (list PluginValue)) (valid : SheriffPlugin) :
  findPluginByName wanted registered = Return valid →
  ∃ p, validatePlugin p = Return valid ∧ optional_name_is p wanted = true.
Proof.
  destruct registered as [[|q registered]|]; cbn [findPluginByName]; try discriminate.
  destruct (List.find _ _) as [p|] eqn:Hfind; [|discriminate].
  apply find_some in Hfind as [_ Hmatch]. rewrite matches_name_optional in Hmatch.
  intros Hvalid. by exists p.
Qed.

Lemma findPluginByName_name (wanted : string)
    (registered : option (list PluginValue)) (valid : SheriffPlugin) :
  findPluginByName wanted registered = Return valid → plugin_name valid = wanted.
Proof.
  intros (p & Hvalid & Hmatch)%findPluginByName_found. revert Hvalid.
  destruct p as [| |o|[[|n|truthy conversion] d [ex|]]]; simpl;
    try case_bool_decide; try discriminate.
  intros [= <-]. simpl in *. by apply bool_decide_eq_true in Hmatch as [= ->].
Qed.

(** X2. [findPluginByName] searches by name only, among objects and
    functions alike: the first registered value whose [name] is the wanted
    string decides, so the result is what [validatePlugin] makes of that
    value (a function, or a malformed object, fails the lookup even if a
    well-formed plugin of the same name follows), and a returned plugin has
    the wanted name. When no registered value carries the name, or nothing
    is registered, the lookup fails with [PluginNotFoundError]. *)
Theorem findPluginByName_first_of_that_name (wanted : string) :
  (∀ before p after,
     (∀ q, q ∈ before → optional_name_is q wanted = false) →
     optional_name_is p wanted = true →
     findPluginByName wanted (Some (before ++ p :: after)) = validatePlugin p)
  ∧ (∀ registered,
       (∀ q, q ∈ registered → optional_name_is q wanted = false) →
       findPluginByName wanted (Some registered) = Throw (PluginNotFoundError wanted))
  ∧ findPluginByName wanted None = Throw (PluginNotFoundError wanted)
  ∧ (∀ registered valid,
       findPluginByName wanted registered = Return valid → plugin_name valid = wanted).
Proof.
  split_and!.
  - intros before p after Hbefore Hp. unfold findPluginByName.
    rewrite (find_first_of_name _ _ _ _ Hbefore Hp). by destruct before.
  - intros registered Hnone. unfold findPluginByName.
    rewrite (find_none_of_name _ _ Hnone). by destruct registered.
  - reflexivity.
  - apply findPluginByName_name.
Qed.

Lemma findPluginByName_first_of_that_name_witness :
  let reporter :=
    PNonObject {| name_value := VString "reporter"; description_value := VUndefined;
                  execute := None |} in
  optional_name_is reporter "reporter" = true
  ∧ findPluginByName "reporter"
      (Some [ PUndefined; Toy.plugin_called "junit"; reporter; Toy.plugin_called "reporter" ])
    = Throw (PluginInvalidError "Plugin must be an object").
Proof.
  intros reporter. split; [reflexivity|].
  destruct (findPluginByName_first_of_that_name "reporter") as [Hfirst _].
  refine (Hfirst [PUndefined; Toy.plugin_called "junit"] reporter
            [Toy.plugin_called "reporter"] _ eq_refl).
  intros q Hq. apply elem_of_cons in Hq as [-> | Hq]; [reflexivity|].
  apply list_elem_of_singleton in Hq as ->. reflexivity.
Defined.

(** The object that passed [validatePlugin] passes it again. *)
Lemma validatePlugin_as_value (p : PluginValue) (valid : SheriffPlugin) :
  validatePlugin p = Return valid → validatePlugin (as_value valid) = Return valid.
Proof.
  destruct p as [| |o|[[|n|truthy conversion] d [ex|]]]; simpl;
    try case_bool_decide; try discriminate.
  intros [= <-]. simpl. rewrite bool_decide_eq_false_2 by done.
  unfold description. simpl. by destruct d.
Qed.

Lemma await_lifted {A} (call : Run CliEvent (Promise CliEvent A)) :
  await (let '(t, r) := call in ((FromCli <$> t, lift_promise <$> r) : Run MainEvent _))
  = (FromCli <$> (await call).1, (await call).2).
Proof.
  destruct call as [t [[t' outcome]|e]]; simpl; try done; by rewrite fmap_app.
Qed.

(** What [executePlugin] does once the plugin is resolved. *)
Lemma executePlugin_resolved (pluginName : string) (args : list string)
    (registered : option (list PluginValue)) (plugin : SheriffPlugin) :
  findPluginByName pluginName registered = Return plugin →
  executePlugin pluginName args registered
  = (InvokeExecute plugin args :: (FromCli <$> (await (plugin_execute plugin args)).1),
     match (await (plugin_execute plugin args)).2 with
     | Fulfilled _ => Fulfilled ()
     | Rejected error =>
         match error_or_string error with
         | Return originalError => Rejected (PluginExecutionError pluginName originalError)
         | Throw e => Rejected e
         end
     | Pending => Pending
     end).
Proof.
  intros Hfind. unfold executePlugin. rewrite Hfind.
  destruct (findPluginByName_found _ _ _ Hfind) as (p & Hvalid & _).
  cbn [mbind Result_bind]. rewrite (validatePlugin_as_value _ _ Hvalid).
  cbn [mbind Result_bind]. rewrite await_lifted.
  by destruct (await (plugin_execute plugin args)) as [t [[]|e|]].
Qed.

(** X3. [executePlugin] calls [execute] of the resolved plugin exactly once,
    with the arguments it was given, and of no other plugin; when the plugin
    cannot be resolved it calls nothing, does nothing else either, and
    rejects with the error of the lookup. *)
Theorem executePlugin_invokes_the_resolved_plugin_once
    (pluginName : string) (args : list string) (registered : option (list PluginValue)) :
  match findPluginByName pluginName registered with
  | Return plugin =>
      invocations (executePlugin pluginName args registered).1 = [(plugin, args)]
      ∧ plugin_name plugin = pluginName
  | Throw e => executePlugin pluginName args registered = ([], Rejected e)
  end.
Proof.
  destruct (findPluginByName pluginName registered) as [plugin|e] eqn:Hfind.
  - rewrite (executePlugin_resolved _ _ _ _ Hfind). split.
    + simpl. f_equal. induction (await (plugin_execute plugin args)).1; by simpl.
    + by eapply findPluginByName_name.
  - unfold executePlugin. by rewrite Hfind.
Qed.

(** X4. When the resolved plugin fails, by throwing before it returns its
    promise or by rejecting it, with an [Error] or with a value that has a
    conversion to a string, [executePlugin] rejects with a
    [PluginExecutionError] under SH-015 whose message names the plugin and
    carries the message of the original [Error], or the string of the other
    value. When the plugin fails with a value that is no [Error] and on
    which the conversion to a string throws, [executePlugin] rejects with
    what the conversion throws instead. When the plugin fulfils, so does
    [executePlugin]; while the plugin's promise stays pending, so does that
    of [executePlugin]. What the plugin wrote through the API is part of the
    trace in every case. *)
Theorem executePlugin_wraps_what_the_plugin_throws
    (pluginName : string) (args : list string)
    (registered : option (list PluginValue)) (plugin : SheriffPlugin) :
  findPluginByName pluginName registered = Return plugin →
  (∀ t original,
     await (plugin_execute plugin args) = (t, Rejected original) →
     match printed_message original with
     | Some text =>
         ∃ message,
           executePlugin pluginName args registered
             = (InvokeExecute plugin args :: (FromCli <$> t),
                Rejected (UserError SH_015 message))
           ∧ mentions message pluginName
           ∧ mentions message text
     | None =>
         ∃ thrown,
           original = Unconvertible thrown
           ∧ executePlugin pluginName args registered
             = (InvokeExecute plugin args :: (FromCli <$> t), Rejected thrown)
     end)
  ∧ (∀ t,
       await (plugin_execute plugin args) = (t, Fulfilled ()) →
       executePlugin pluginName args registered
         = (InvokeExecute plugin args :: (FromCli <$> t), Fulfilled ()))
  ∧ (∀ t,
       await (plugin_execute plugin args) = (t, Pending) →
       executePlugin pluginName args registered
         = (InvokeExecute plugin args :: (FromCli <$> t), Pending)).
Proof.
  intros Hfind. rewrite (executePlugin_resolved _ _ _ _ Hfind). split_and!.
  - intros t original ->. cbn [fst snd].
    destruct original as [code m|m|m|m|text|thrown]; simpl; [| | | | |by eexists];
      (eexists; split; [reflexivity|]; split;
       [apply mentions_here | apply mentions_later, mentions_later, mentions_at_end]).
  - by intros t ->.
  - by intros t ->.
Qed.

Lemma executePlugin_wraps_what_the_plugin_throws_witness :
  let failing :=
    {| plugin_name := "junit-reporter"; plugin_description := None;
       plugin_execute := λ _, ([Log "writing"], Return ([], Rejected (NonError "disk full"))) |} in
  let registered :=
    Some [ PObject {| name_value := VString "junit-reporter"; description_value := VUndefined;
                      execute := Some (plugin_execute failing) |} ] in
  findPluginByName "junit-reporter" registered = Return failing
  ∧ executePlugin "junit-reporter" ["--format=xml"] registered
    = ([InvokeExecute failing ["--format=xml"]; FromCli (Log "writing")],
       Rejected (UserError SH_015
                   "Plugin 'junit-reporter' failed during execution: disk full")).
Proof.
  intros failing registered. split; [reflexivity|].
  destruct (executePlugin_wraps_what_the_plugin_throws
              "junit-reporter" ["--format=xml"] registered failing eq_refl) as [Hthrows _].
  destruct (Hthrows [Log "writing"] (NonError "disk full") eq_refl)
    as (message & Hrun & _).
  reflexivity.
Defined.

Lemma find_by_name_Some (cmd : string) (registered : list PluginValue) (p : PluginValue) :
  find_by_name cmd registered = Return (Some p) →
  ∃ before after,
    registered = before ++ p :: after
    ∧ (∀ q, q ∈ before → optional_name_is q cmd = false)
    ∧ optional_name_is p cmd = true.
Proof.
  induction registered as [|q registered IH]; simpl; [discriminate|].
  assert (Hstep : ∀ o, (q = PNonObject o ∨ q = PObject o) →
            (if bool_decide (name o = Some cmd) then Return (Some q)
             else find_by_name cmd registered) = Return (Some p) →
            ∃ before after,
              q :: registered = before ++ p :: after
              ∧ (∀ q', q' ∈ before → optional_name_is q' cmd = false)
              ∧ optional_name_is p cmd = true).
  { intros o Hq. case_bool_decide as Hname.
    - intros [= <-]. exists [], registered. split; [done|].
      split; [by intros q' ?%elem_of_nil|].
      destruct Hq as [-> | ->]; simpl; by apply bool_decide_eq_true.
    - intros (before & after & -> & Hbefore & Hp)%IH.
      exists (q :: before), after. split; [done|]. split; [|done].
      intros q' [-> | Hq']%elem_of_cons; [|by apply Hbefore].
      destruct Hq as [-> | ->]; simpl; by apply bool_decide_eq_false. }
  destruct q as [| |o|o]; [discriminate | discriminate | |]; apply Hstep; eauto.
Qed.

Lemma find_by_name_None (cmd : string) (registered : list PluginValue) :
  find_by_name cmd registered = Return None →
  ∀ q, q ∈ registered → optional_name_is q cmd = false.
Proof.
  induction registered as [|q registered IH]; simpl; [by intros _ q ?%elem_of_nil|].
  destruct q as [| |o|o]; [discriminate | discriminate | |];
    (case_bool_decide as Hname; [discriminate|];
     intros Hrest q [-> | Hq]%elem_of_cons;
       [simpl; by apply bool_decide_eq_false | by apply IH]).
Qed.

Lemma find_by_name_Throw (cmd : string) (registered : list PluginValue) (e : Thrown) :
  find_by_name cmd registered = Throw e → ∃ message, e = TypeError message.
Proof.
  induction registered as [|q registered IH]; simpl; [discriminate|].
  destruct q as [| |o|o]; [intros [= <-]; eauto | intros [= <-]; eauto | |];
    (case_bool_decide; [discriminate | exact IH]).
Qed.

Lemma help_line_of_object (o : PluginObject) :
  let line :=
    description ←
      (if truthy_value (description_value o) then
         text ← template_text (description_value o); Return (": " +:+ text)
       else Return EmptyString);
    name ← template_text (name_value o);
    Return ("  sheriff " +:+ name +:+ description) in
  if has_text (name_value o)
     && (negb (truthy_value (description_value o)) || has_text (description_value o))
  then ∃ text, line = Return ("  sheriff " +:+ text)
  else ∃ e truthy,
         line = Throw e
         ∧ (name_value o = VOther truthy (NoText e)
            ∨ description_value o = VOther truthy (NoText e)).
Proof.
  destruct o as [[|n|tn [cn|en]] [|d|[|] [cd|ed]] ex]; simpl;
    try destruct (truthy_string d); simpl;
    first [ by eexists
          | eexists _, _; split; [reflexivity|]; first [by left | by right] ].
Qed.

Lemma plugin_help_line_listable (p : PluginValue) :
  if listable p then ∃ line, plugin_help_line p = Return ("  sheriff " +:+ line)
  else ∃ e, plugin_help_line p = Throw e
            ∧ ((∃ message, e = TypeError message) ∨ conversion_throws p e).
Proof.
  destruct p as [| |o|o]; simpl; [eauto | eauto | |];
    pose proof (help_line_of_object o) as Hline; simpl in Hline;
    (destruct (has_text (name_value o)
               && (negb (truthy_value (description_value o))
                   || has_text (description_value o)));
     [exact Hline|]);
    destruct Hline as (e & truthy & Hline & Hconversion);
    (exists e; split; [exact Hline|]; right; exists o, truthy; eauto).
Qed.

Lemma log_plugin_lines_trace (registered : list PluginValue) :
  (∀ event, event ∈ (log_plugin_lines registered).1 →
     ∃ line, event = Log ("  sheriff " +:+ line))
  ∧ ((log_plugin_lines registered).2 = Return ()
     ↔ Forall (λ p, listable p = true) registered)
  ∧ (Forall (λ p, listable p = true) registered →
     length (log_plugin_lines registered).1 = length registered)
  ∧ (∀ e, (log_plugin_lines registered).2 = Throw e →
          (∃ message, e = TypeError message)
          ∨ ∃ p, p ∈ registered ∧ conversion_throws p e).
Proof.
  induction registered as [|p registered (IHlines & IHreturns & IHlength & IHthrows)];
    cbn [log_plugin_lines].
  - split_and!; [by intros event ?%elem_of_nil | done | done | discriminate].
  - pose proof (plugin_help_line_listable p) as Hline.
    destruct (listable p) eqn:Hlistable.
    + destruct Hline as [line ->].
      destruct (log_plugin_lines registered) as [t r]. simpl in *. split_and!.
      * intros event [-> | Hin]%elem_of_cons; [by eexists | by apply IHlines].
      * rewrite IHreturns, Forall_cons. tauto.
      * intros [_ Hrest]%Forall_cons. by rewrite IHlength.
      * intros e [Htype | (q & Hq & Hconversion)]%IHthrows; [by left | right].
        exists q. split; [by right | done].
    + destruct Hline as (e0 & -> & Hkind). simpl. split_and!.
      * by intros event ?%elem_of_nil.
      * rewrite Forall_cons, Hlistable. split; [discriminate | by intros [[=] _]].
      * rewrite Forall_cons, Hlistable. by intros [[=] _].
      * intros e [= <-]. destruct Hkind as [Htype | Hconversion]; [by left | right].
        exists p. split; [by left | done].
Qed.

Lemma showHelp_Throw `{Commands} (registered : list PluginValue) (e : Thrown) :
  (showHelp registered).2 = Throw e →
  (∃ message, e = TypeError message) ∨ ∃ p, p ∈ registered ∧ conversion_throws p e.
Proof.
  destruct (log_plugin_lines_trace registered) as (_ & _ & _ & Hthrows).
  unfold showHelp, then_run. simpl.
  case_bool_decide; simpl; [|discriminate].
  destruct (log_plugin_lines registered) as [t [[]|e']] eqn:Hrest; simpl;
    [discriminate|]. intros [= <-]. by eapply Hthrows.
Qed.

Lemma error_or_string_Throw (error e : Thrown) :
  error_or_string error = Throw e → error = Unconvertible e.
Proof. destruct error; simpl; try discriminate. by intros [= <-]. Qed.

(** How the promise of [handlePluginOrHelp] can reject. *)
Lemma handlePluginOrHelp_Rejected `{Commands}
    (cmd : option string) (args : list string) (registered : list PluginValue)
    (t : list MainEvent) (e : Thrown) :
  handlePluginOrHelp cmd args registered = (t, Rejected e) →
  ((∃ message, e = TypeError message)
   ∨ (∃ details, e = PluginInvalidError details)
   ∨ ∃ pluginName originalError, e = PluginExecutionError pluginName originalError)
  ∨ (∃ p, p ∈ registered ∧ conversion_throws p e)
  ∨ (∃ plugin,
       InvokeExecute plugin args ∈ t
       ∧ (await (plugin_execute plugin args)).2 = Rejected (Unconvertible e)).
Proof.
  assert (Hhelp : ∀ t' e', async (lift_cli (showHelp registered)) = (t', Rejected e') →
                  (∃ message, e' = TypeError message)
                  ∨ ∃ p, p ∈ registered ∧ conversion_throws p e').
  { intros t' e'. destruct (showHelp registered) as [t0 [[]|e0]] eqn:Hshow;
      unfold async, lift_cli; simpl; [discriminate|].
    intros [= <- <-]. apply (showHelp_Throw registered). by rewrite Hshow. }
  assert (Hhelp' : ∀ t' e', async (lift_cli (showHelp registered)) = (t', Rejected e') →
    ((∃ message, e' = TypeError message)
     ∨ (∃ details, e' = PluginInvalidError details)
     ∨ ∃ pluginName originalError, e' = PluginExecutionError pluginName originalError)
    ∨ (∃ p, p ∈ registered ∧ conversion_throws p e')
    ∨ (∃ plugin,
         InvokeExecute plugin args ∈ t'
         ∧ (await (plugin_execute plugin args)).2 = Rejected (Unconvertible e'))).
  { intros t' e' [Htype | Hconversion]%Hhelp; [left; by left | right; by left]. }
  intros Hrun.
  unfold handlePluginOrHelp in Hrun. destruct cmd as [c|]; [|by eapply Hhelp'].
  destruct (find_by_name c registered) as [[p|]|e'] eqn:Hfind.
  - destruct (find_by_name_Some _ _ _ Hfind) as (before & after & -> & Hbefore & Hp).
    destruct (findPluginByName c (Some (before ++ p :: after))) as [plugin|e'] eqn:Hlookup.
    + rewrite (executePlugin_resolved _ _ _ _ Hlookup) in Hrun.
      destruct (await (plugin_execute plugin args)).2 as [[]|error|] eqn:Houtcome;
        [discriminate| |discriminate].
      destruct (error_or_string error) as [originalError|e'] eqn:Hconversion;
        injection Hrun as <- <-.
      * left. right; right; eauto.
      * right; right. exists plugin. split; [by left|].
        rewrite Houtcome. f_equal. by apply error_or_string_Throw.
    + unfold executePlugin in Hrun. rewrite Hlookup in Hrun.
      injection Hrun as <- <-. unfold findPluginByName in Hlookup.
      rewrite (find_first_of_name _ _ _ _ Hbefore Hp) in Hlookup.
      left. right; left. apply (validatePlugin_Throw p). by destruct before.
  - by eapply Hhelp'.
  - injection Hrun as <- <-. left. left. by eapply find_by_name_Throw.
Qed.

(** X5. The promise of [handlePluginOrHelp] never rejects with a
    [PluginNotFoundError] of its own: a command that no registered plugin is
    named after gets the help, not an error. It rejects only with a
    [TypeError] (a registered value that is [undefined] or [null]), a
    [PluginInvalidError] or a [PluginExecutionError], or else with what a
    conversion to a string threw: that of the [name] or the [description]
    of a registered value for the help, or that of the value a plugin it
    called failed with. *)
Theorem handlePluginOrHelp_never_misses_a_plugin `{Commands}
    (cmd : option string) (args : list string) (registered : list PluginValue)
    (t : list MainEvent) (e : Thrown) :
  handlePluginOrHelp cmd args registered = (t, Rejected e) →
  (error_code e ≠ Some SH_013
   ∧ ((∃ message, e = TypeError message)
      ∨ (∃ details, e = PluginInvalidError details)
      ∨ ∃ pluginName originalError, e = PluginExecutionError pluginName originalError))
  ∨ (∃ p, p ∈ registered ∧ conversion_throws p e)
  ∨ (∃ plugin,
       InvokeExecute plugin args ∈ t
       ∧ (await (plugin_execute plugin args)).2 = Rejected (Unconvertible e)).
Proof.
  intros [Hkinds | Hconversion]%handlePluginOrHelp_Rejected; [left | by right].
  split; [|exact Hkinds].
  destruct Hkinds as [[message ->] | [[details ->] | (pluginName & originalError & ->)]];
    discriminate.
Qed.

Lemma handlePluginOrHelp_never_misses_a_plugin_witness :
  let broken :=
    PObject {| name_value := VString "broken"; description_value := VUndefined;
               execute := None |} in
  @handlePluginOrHelp Toy.commands (Some "broken") [] [Toy.plugin_called "reporter"; broken]
    = ([], Rejected (PluginInvalidError "Plugin is missing an 'execute' method"))
  ∧ error_code (PluginInvalidError "Plugin is missing an 'execute' method") ≠ Some SH_013.
Proof.
  intros broken. split; [reflexivity|].
  destruct (@handlePluginOrHelp_never_misses_a_plugin Toy.commands
              (Some "broken") [] [Toy.plugin_called "reporter"; broken]
              [] (PluginInvalidError "Plugin is missing an 'execute' method") eq_refl)
    as [[Hcode _] | [(p & _ & o & truthy & _ & [Hname | Hdescription])
                    | (plugin & Hcalled & _)]].
  - exact Hcode.
  - discriminate.
  - discriminate.
  - discriminate.
Defined.

(** A plugin that fails with an object whose [toString] throws: the
    promise rejects with what [toString] threw, whatever it is. *)
Example handlePluginOrHelp_rejects_with_what_a_conversion_throws :
  let failing : Execute :=
    λ _, ([], Return ([], Rejected (Unconvertible (PluginNotFoundError "reporter")))) in
  ∃ t,
    @handlePluginOrHelp Toy.commands (Some "reporter") []
      [ PObject {| name_value := VString "reporter"; description_value := VUndefined;
                   execute := Some failing |} ]
    = (t, Rejected (PluginNotFoundError "reporter")).
Proof. intros failing. by eexists. Qed.

(** ** Help, plugin loading and dispatch *)






Lemma showHelp_trace `{Commands} (registered : list PluginValue) :
  ((showHelp registered).2 = Return () ↔ Forall (λ p, listable p = true) registered)
  ∧ (Log "Plugins:" ∈ tail (showHelp registered).1 ↔ registered ≠ [])
  ∧ (Forall (λ p, listable p = true) registered →
     length (showHelp registered).1
       = 11 + (if bool_decide (registered = []) then 0 else 2 + length registered)).
Proof.
  destruct (log_plugin_lines_trace registered) as (Hlines & Hreturns & Hlength & _).
  unfold showHelp.
  destruct registered as [|p registered].
  { split_and!; [done | | done]. split; [|done]. simpl.
    intros Hin. repeat (apply elem_of_cons in Hin as [[=] | Hin]).
    by apply elem_of_nil in Hin. }
  rewrite bool_decide_eq_true_2 by (simpl; lia).
  rewrite (bool_decide_eq_false_2 (p :: registered = [])) by done.
  destruct (log_plugin_lines (p :: registered)) as [t [[]|e]];
    unfold then_run; cbn [fst snd app tail] in *.
  - split_and!.
    + split; [intros _; by apply Hreturns | done].
    + split; [done | intros _]. rewrite !elem_of_cons. tauto.
    + intros Hno. cbn [length]. rewrite length_app, (Hlength Hno). simpl. lia.
  - split_and!.
    + split; [discriminate | intros Hno; by apply Hreturns in Hno].
    + split; [done | intros _]. rewrite !elem_of_cons. tauto.
    + intros Hno. by apply Hreturns in Hno.
Qed.

(** X7. [showHelp] returns exactly when every registered value can be
    listed: it is neither [undefined] nor [null], its [name] can be put
    into a template literal, and so can its [description] unless that is
    falsy. Otherwise [showHelp] throws: a [TypeError] for a registered value
    that is [undefined] or [null], and what the conversion of a [name] or a
    [description] throws, which is a [TypeError] for a symbol. After its
    title line it logs the section headed [Plugins:] exactly when something
    is registered, and then one line per registered value: eleven lines
    without plugins, two more for the heading and one more for each plugin
    with them. *)
Theorem showHelp_lists_the_plugins `{Commands} (registered : list PluginValue) :
  ((showHelp registered).2 = Return () ↔ Forall (λ p, listable p = true) registered)
  ∧ (∀ e, (showHelp registered).2 = Throw e →
          (∃ message, e = TypeError message)
          ∨ ∃ p, p ∈ registered ∧ conversion_throws p e)
  ∧ (Log "Plugins:" ∈ tail (showHelp registered).1 ↔ registered ≠ [])
  ∧ (Forall (λ p, listable p = true) registered →
     length (showHelp registered).1
       = 11 + (if bool_decide (registered = []) then 0 else 2 + length registered)).
Proof.
  destruct (showHelp_trace registered) as (Hreturns & Hheading & Hlength).
  split_and!; [exact Hreturns | apply showHelp_Throw | exact Hheading | exact Hlength].
Qed.

(** X8. [getPlugins] never fails: it is empty when there is no
    sheriff.config.ts, when the path or the configuration cannot be read,
    and when the configuration has no [plugins]; otherwise it is the
    [plugins] array of the configuration as it stands. *)
Theorem getPlugins_swallows_every_error `{Fs, Core} :
  let configPath := fs_join [fs_cwd; "sheriff.config.ts"] in
  (fs_exists configPath = false → getPlugins = [])
  ∧ (∀ e, toFsPath configPath = Throw e → getPlugins = [])
  ∧ (∀ path e, toFsPath configPath = Return path → parseConfig path = Throw e →
       getPlugins = [])
  ∧ (∀ path config,
       fs_exists configPath = true →
       toFsPath configPath = Return path → parseConfig path = Return config →
       getPlugins = default [] (plugins config))
  ∧ (getPlugins ≠ [] →
     ∃ path config,
       fs_exists configPath = true
       ∧ toFsPath configPath = Return path ∧ parseConfig path = Return config
       ∧ plugins config = Some getPlugins).
Proof.
  intros configPath. unfold getPlugins. fold configPath.
  destruct (fs_exists configPath); simpl;
    [|split_and!; try done; by intros; try discriminate].
  destruct (toFsPath configPath) as [path|e]; simpl;
    [|split_and!; try done; by intros; try discriminate].
  destruct (parseConfig path) as [config|e] eqn:Hconfig; simpl.
  - split_and!; try done.
    + by intros ? ? [= <-]; rewrite Hconfig.
    + by intros ? ? _ [= <-]; rewrite Hconfig; intros [= <-].
    + destruct (plugins config) as [ps|] eqn:Hplugins; simpl; [|done].
      intros _. exists path, config. by rewrite Hplugins.
  - split_and!; try done.
    by intros ? ? _ [= <-]; rewrite Hconfig.
Qed.




(** ** Entry resolution and export *)

Lemma map_throwing_app {A B} (f : A → Result B) (l1 l2 : list A) :
  map_throwing f (l1 ++ l2)
  = ys1 ← map_throwing f l1; ys2 ← map_throwing f l2; Return (ys1 ++ ys2).
Proof.
  induction l1 as [|x l1 IH]; simpl.
  - by destruct (map_throwing f l2).
  - destruct (f x) as [y|e]; simpl; [|reflexivity]. rewrite IH.
    destruct (map_throwing f l1) as [ys1|e]; simpl; [|reflexivity].
    by destruct (map_throwing f l2).
Qed.

Lemma processEntryFile_names `{Fs, Core} (v : EntryValue) (runInit : bool)
    (entries : list (ProjectEntry (TEntry runInit))) :
  processEntryFile v runInit = Return entries →
  projectName <$> entries
  = match v with
    | EntryString _ => [DEFAULT_PROJECT_NAME]
    | EntryRecord r => Object_keys r
    end.
Proof.
  destruct v as [s|r]; simpl.
  - by intros (e & _ & [= <-])%bind_Return.
  - unfold Object_entries, Object_keys. revert entries.
    induction r as [|[n path] r IH]; intros entries; simpl.
    + by intros [= <-].
    + intros (pe & (e & _ & [= <-])%bind_Return
                 & (rest & Hrest & [= <-])%bind_Return)%bind_Return.
      simpl. f_equal. by apply IH.
Qed.

(** X10. Whenever entry resolution returns without an argument (none, or
    the empty string), it has read a sheriff.config.ts that declares exactly
    one of the two options, and the entries are never empty: the single
    entry [default] for a declared [entryFile], beside which [entryPoints]
    is present and empty; one entry per key of a non-empty [entryPoints]
    otherwise. *)
Theorem getEntryFromCliOrConfig_from_config_is_never_empty `{Fs, Core}
    (entryFileOrEntryPoints : option EntryValue) (runInit : bool)
    (entries : list (ProjectEntry (TEntry runInit))) :
  truthy_entry entryFileOrEntryPoints = false →
  getEntryFromCliOrConfig entryFileOrEntryPoints runInit = Return entries →
  entries ≠ []
  ∧ fs_exists (fs_join [fs_cwd; "sheriff.config.ts"]) = true
  ∧ ∃ sheriffConfig,
      parseConfig (fs_join [fs_cwd; "sheriff.config.ts"]) = Return sheriffConfig
      ∧ (entryFile sheriffConfig ≠ "" →
         entryPoints sheriffConfig = Some []
         ∧ projectName <$> entries = ["default"])
      ∧ (entryFile sheriffConfig = "" →
         ∃ declared,
           entryPoints sheriffConfig = Some declared ∧ declared ≠ []
           ∧ projectName <$> entries = Object_keys declared).
Proof.
  intros Hfalsy Hrun. rewrite getEntryFromCliOrConfig_not_given in Hrun by done.
  destruct (fs_exists (fs_join [fs_cwd; "sheriff.config.ts"])) eqn:Hexists; last first.
  { unfold getEntryFromCliOrConfig in Hrun. simpl in Hrun. by rewrite Hexists in Hrun. }
  destruct (parseConfig (fs_join [fs_cwd; "sheriff.config.ts"]))
    as [sheriffConfig|e] eqn:Hconfig; last first.
  { unfold getEntryFromCliOrConfig in Hrun. simpl in Hrun.
    by rewrite Hexists, Hconfig in Hrun. }
  rewrite (getEntryFromCliOrConfig_from_config _ _ Hexists Hconfig) in Hrun.
  assert (Hnames : ∀ v, processEntryFile v runInit = Return entries →
            (match v with EntryString _ => True | EntryRecord r => r ≠ [] end) →
            entries ≠ []).
  { intros v Hv Hne ->. apply processEntryFile_names in Hv.
    destruct v as [s|[|p r]]; done. }
  destruct (entryPoints sheriffConfig) as [[|p r]|] eqn:Hpoints,
           (entryFile sheriffConfig) as [|c file] eqn:Hfile;
    cbn [truthy_string] in Hrun; try discriminate.
  - split; [by eapply Hnames|]. split; [done|]. exists sheriffConfig.
    rewrite Hpoints, Hfile. split; [done|]. split; [|done].
    intros _. split; [done|]. by apply processEntryFile_names in Hrun.
  - split; [by eapply Hnames|]. split; [done|]. exists sheriffConfig.
    rewrite Hpoints, Hfile. split; [done|]. split; [done|].
    intros _. exists (p :: r). split; [done|]. split; [done|].
    by apply processEntryFile_names in Hrun.
Qed.

Lemma getEntryFromCliOrConfig_from_config_is_never_empty_witness :
  truthy_entry (Some (EntryString "")) = false
  ∧ @getEntryFromCliOrConfig Toy.fs (Toy.core (Return Toy.config_entryPoints))
      (Some (EntryString "")) false
    = Return [ {| projectName := "project-i"; entry := "projects/project-i/src/main.ts" |};
               {| projectName := "project-ii"; entry := "projects/project-ii/src/main.ts" |} ]
  ∧ @fs_exists Toy.fs (@fs_join Toy.fs [@fs_cwd Toy.fs; "sheriff.config.ts"]) = true.
Proof.
  split; [reflexivity|]. split; [reflexivity|].
  exact (proj1 (proj2 (@getEntryFromCliOrConfig_from_config_is_never_empty
                         Toy.fs (Toy.core (Return Toy.config_entryPoints))
                         (Some (EntryString "")) false _ eq_refl eq_refl))).
Defined.

(** X11. Resolving a record of entry points is all or nothing: when the
    paths before one resolve and that one fails, the whole call throws the
    error of that path; the entries resolved before it are not returned, and
    the paths after it are not looked at. *)
Theorem processEntryFile_stops_at_the_first_failure `{Fs, Core} (runInit : bool)
    (before after : Record string) (name path : string) (e : Thrown) :
  (∀ name' path', (name', path') ∈ before → returns (entryOf runInit path')) →
  entryOf runInit path = Throw e →
  processEntryFile (EntryRecord (before ++ (name, path) :: after)) runInit = Throw e
  ∧ getEntryFromCliOrConfig (Some (EntryRecord (before ++ (name, path) :: after))) runInit
    = Throw e.
Proof.
  intros Hbefore Hpath.
  assert (Hthrow : processEntryFile (EntryRecord (before ++ (name, path) :: after)) runInit
                   = Throw e).
  { unfold processEntryFile, Object_entries. rewrite map_throwing_app.
    destruct (map_throwing_total
                (λ '(projectName, entry),
                   e ← entryOf runInit entry;
                   Return {| projectName := projectName; entry := e |}) before)
      as [entries Hentries].
    { intros [name' path'] Hin. destruct (Hbefore _ _ Hin) as [e' He'].
      eexists. by rewrite He'. }
    rewrite Hentries. simpl. by rewrite Hpath. }
  split; [exact Hthrow|]. by rewrite getEntryFromCliOrConfig_given.
Qed.

Lemma processEntryFile_stops_at_the_first_failure_witness :
  (∀ name' path',
     (name', path') ∈ [("project-i", "projects/project-i/src/main.ts")] →
     returns (@entryOf Toy.fs (Toy.core (Return Toy.config_neither)) true path'))
  ∧ @entryOf Toy.fs (Toy.core (Return Toy.config_neither)) true "projects/gone/main.ts"
    = Throw (Error "/project/projects/gone/main.ts does not exist")
  ∧ @processEntryFile Toy.fs (Toy.core (Return Toy.config_neither))
      (EntryRecord [ ("project-i", "projects/project-i/src/main.ts");
                     ("gone", "projects/gone/main.ts");
                     ("project-ii", "projects/project-ii/src/main.ts") ]) true
    = Throw (Error "/project/projects/gone/main.ts does not exist").
Proof.
  assert (Hbefore : ∀ name' path',
            (name', path') ∈ [("project-i", "projects/project-i/src/main.ts")] →
            returns (@entryOf Toy.fs (Toy.core (Return Toy.config_neither)) true path')).
  { intros name' path' [= -> ->]%list_elem_of_singleton. by eexists. }
  split; [exact Hbefore|]. split; [reflexivity|].
  exact (proj1 (@processEntryFile_stops_at_the_first_failure
                  Toy.fs (Toy.core (Return Toy.config_neither)) true
                  [("project-i", "projects/project-i/src/main.ts")]
                  [("project-ii", "projects/project-ii/src/main.ts")]
                  "gone" "projects/gone/main.ts" _ Hbefore eq_refl)).
Defined.

(** X12. Entry resolution against its former version, which knew
    [entryFile] only. With an argument the two agree. Without one, whatever
    the former version returned came from the [entryFile] of the
    configuration, and what the present one does depends on the
    [entryPoints] of that configuration: it returns the same entries when
    they are an empty record, refuses the configuration for declaring both
    when they are a record that is not empty, and ends in a [TypeError]
    when [entryPoints] is left out. Where the present version returns and
    the former did not, the entries come from [entryPoints]. *)
Theorem getEntryFromCliOrConfig_against_the_former_version `{Fs, Core}
    (given : option EntryValue) (runInit : bool) :
  (truthy_entry given = true →
   getEntryFromCliOrConfig given runInit = Legacy.getEntryFromCliOrConfig given runInit)
  ∧ (truthy_entry given = false →
     ∀ entries,
       Legacy.getEntryFromCliOrConfig given runInit = Return entries →
       ∃ sheriffConfig,
         parseConfig (fs_join [fs_cwd; "sheriff.config.ts"]) = Return sheriffConfig
         ∧ truthy_string (entryFile sheriffConfig) = true
         ∧ processEntryFile (EntryString (entryFile sheriffConfig)) runInit = Return entries
         ∧ getEntryFromCliOrConfig given runInit
           = match entryPoints sheriffConfig with
             | Some [] => Return entries
             | Some (_ :: _) => Throw both_declared
             | None => Throw (TypeError "Cannot convert undefined or null to object")
             end)
  ∧ (∀ entries,
       getEntryFromCliOrConfig given runInit = Return entries →
       Legacy.getEntryFromCliOrConfig given runInit = Return entries
       ∨ ∃ sheriffConfig declared,
           parseConfig (fs_join [fs_cwd; "sheriff.config.ts"]) = Return sheriffConfig
           ∧ entryPoints sheriffConfig = Some declared
           ∧ processEntryFile (EntryRecord declared) runInit = Return entries).
Proof.
  destruct (truthy_entry given) eqn:Htruthy.
  { assert (Hsame : getEntryFromCliOrConfig given runInit
                    = Legacy.getEntryFromCliOrConfig given runInit).
    { unfold getEntryFromCliOrConfig, Legacy.getEntryFromCliOrConfig.
      rewrite Htruthy. by destruct given. }
    rewrite Hsame. split_and!; [done | discriminate | by left]. }
  rewrite getEntryFromCliOrConfig_not_given by done.
  assert (Hlegacy : Legacy.getEntryFromCliOrConfig given runInit
                    = Legacy.getEntryFromCliOrConfig None runInit).
  { unfold Legacy.getEntryFromCliOrConfig. by rewrite Htruthy. }
  rewrite Hlegacy. clear Hlegacy. split; [done|].
  destruct (fs_exists (fs_join [fs_cwd; "sheriff.config.ts"])) eqn:Hexists; last first.
  { unfold getEntryFromCliOrConfig, Legacy.getEntryFromCliOrConfig. simpl.
    rewrite Hexists. split; [intros _|]; by intros entries. }
  destruct (parseConfig (fs_join [fs_cwd; "sheriff.config.ts"]))
    as [sheriffConfig|e] eqn:Hconfig; last first.
  { unfold getEntryFromCliOrConfig, Legacy.getEntryFromCliOrConfig. simpl.
    rewrite Hexists, Hconfig. split; [intros _|]; by intros entries. }
  rewrite (getEntryFromCliOrConfig_from_config _ _ Hexists Hconfig).
  unfold Legacy.getEntryFromCliOrConfig. simpl. rewrite Hexists, Hconfig. simpl.
  destruct (entryPoints sheriffConfig) as [[|p r]|] eqn:Hpoints,
           (truthy_string (entryFile sheriffConfig)) eqn:Hfile;
    (split; [intros _ entries Hrun | intros entries Hrun]); try discriminate; auto;
    try (exists sheriffConfig; by rewrite Hpoints).
  right. by exists sheriffConfig, (p :: r).
Qed.

Lemma getEntryFromCliOrConfig_against_the_former_version_witness :
  truthy_entry None = false
  ∧ ∃ entries,
      @Legacy.getEntryFromCliOrConfig Toy.fs (Toy.core (Return Toy.config_both)) None false
        = Return entries
      ∧ @getEntryFromCliOrConfig Toy.fs (Toy.core (Return Toy.config_both)) None false
        = Throw both_declared.
Proof.
  split; [reflexivity|]. eexists. split; [reflexivity|].
  destruct (proj1 (proj2 (@getEntryFromCliOrConfig_against_the_former_version
                            Toy.fs (Toy.core (Return Toy.config_both)) None false))
              eq_refl _ eq_refl) as (sheriffConfig & Hconfig & _ & _ & Hrun).
  injection Hconfig as <-. exact Hrun.
Defined.

Lemma export_entries_app `{Fs, Core, !Exporter} (entries1 entries2 : list (ProjectEntry string)) :
  export_entries (entries1 ++ entries2)
  = then_run (export_entries entries1) (λ _, export_entries entries2).
Proof.
  induction entries1 as [|entry0 entries1 IH]; simpl.
  - by destruct (export_entries entries2).
  - destruct (getProjectData_in _ _ _) as [data|e]; simpl; [|reflexivity].
    rewrite IH. destruct (export_entries entries1) as [t [[]|e]]; simpl; [|reflexivity].
    by destruct (export_entries entries2).
Qed.

Lemma export_entries_all `{Fs, Core, !Exporter}
    (entries : list (ProjectEntry string)) (datas : list ProjectData) :
  Forall2 (λ entry0 data,
             getProjectData_in (entry entry0) fs_cwd {| includeExternalLibraries := true |}
             = Return data) entries datas →
  export_entries entries = ((λ data, Log (JSON_stringify data)) <$> datas, Return ()).
Proof.
  induction 1 as [|entry0 data entries datas Hdata _ IH]; simpl; [reflexivity|].
  by rewrite Hdata, IH.
Qed.

(** X13. [exportData] logs one JSON document per resolved entry, in the
    order of the entries, each one computed for the entry as it was
    resolved, under the working directory and with the external libraries
    included. It stops at the first entry whose data cannot be computed:
    the documents of the entries before it are already logged, that error
    is thrown, and nothing is logged for the entries after it. *)
Theorem exportData_logs_one_document_per_entry `{Fs, Core, !Exporter}
    (args : list string) (entries : list (ProjectEntry string)) :
  getEntryFromCliOrConfig (EntryString <$> head args) false = Return entries →
  (∀ datas,
     Forall2 (λ entry0 data,
                getProjectData_in (entry entry0) fs_cwd {| includeExternalLibraries := true |}
                = Return data) entries datas →
     exportData args = ((λ data, Log (JSON_stringify data)) <$> datas, Return ()))
  ∧ (∀ before failing after datas e,
       entries = before ++ failing :: after →
       Forall2 (λ entry0 data,
                  getProjectData_in (entry entry0) fs_cwd {| includeExternalLibraries := true |}
                  = Return data) before datas →
       getProjectData_in (entry failing) fs_cwd {| includeExternalLibraries := true |}
         = Throw e →
       exportData args = ((λ data, Log (JSON_stringify data)) <$> datas, Throw e)).
Proof.
  intros Hentries. unfold exportData. rewrite Hentries. split.
  - apply export_entries_all.
  - intros before failing after datas e -> Hbefore Hfailing.
    rewrite export_entries_app, (export_entries_all _ _ Hbefore). simpl.
    by rewrite Hfailing, (right_id_L [] (++)).
Qed.

Lemma exportData_logs_one_document_per_entry_witness :
  @getEntryFromCliOrConfig Toy.fs (Toy.core (Return Toy.config_entryPoints))
    (EntryString <$> head []) false
  = Return [ {| projectName := "project-i"; entry := "projects/project-i/src/main.ts" |};
             {| projectName := "project-ii"; entry := "projects/project-ii/src/main.ts" |} ]
  ∧ @exportData Toy.fs (Toy.core (Return Toy.config_entryPoints))
      (Toy.exporter (Return Toy.config_entryPoints)) []
    = ([ Log "{ path: /project/projects/project-i/src/main.ts }";
         Log "{ path: /project/projects/project-ii/src/main.ts }" ], Return ()).
Proof.
  split; [reflexivity|].
  refine (proj1 (@exportData_logs_one_document_per_entry
                   Toy.fs (Toy.core (Return Toy.config_entryPoints))
                   (Toy.exporter (Return Toy.config_entryPoints)) [] _ eq_refl)
            [ ("/project/projects/project-i/src/main.ts",
               {| opt_projectName := "default"; opt_skipImportResolution := None |});
              ("/project/projects/project-ii/src/main.ts",
               {| opt_projectName := "default"; opt_skipImportResolution := None |}) ] _).
  repeat constructor.
Defined.

(** X14. With a first argument that is not empty, [exportData] exports
    exactly that file: the argument is handed to [getProjectData] as it
    stands, the configuration file is not consulted and the further
    arguments are ignored. When entry resolution fails, [exportData] throws
    that error and logs nothing. *)
Theorem exportData_exports_the_given_file `{Fs, Core, !Exporter}
    (entryFile : string) (rest : list string) :
  entryFile ≠ "" →
  exportData (entryFile :: rest)
  = match getProjectData_in entryFile fs_cwd {| includeExternalLibraries := true |} with
    | Return data => ([Log (JSON_stringify data)], Return ())
    | Throw e => ([], Throw e)
    end
  ∧ (∀ args e,
       getEntryFromCliOrConfig (EntryString <$> head args) false = Throw e →
       exportData args = ([], Throw e)).
Proof.
  intros Hgiven. split.
  - unfold exportData. cbn [head fmap option_fmap option_map].
    rewrite getEntryFromCliOrConfig_given by by destruct entryFile.
    simpl. by destruct (getProjectData_in _ _ _).
  - intros args e Hthrow. unfold exportData. by rewrite Hthrow.
Qed.

Lemma exportData_exports_the_given_file_witness :
  "src/main.ts" ≠ ""
  ∧ @exportData Toy.fs (Toy.core (Return Toy.config_both))
      (Toy.exporter (Return Toy.config_both)) ["src/main.ts"; "src/other.ts"]
    = ([Log "{ path: /project/src/main.ts }"], Return ()).
Proof.
  assert (Hgiven : "src/main.ts" ≠ "") by discriminate.
  split; [exact Hgiven|].
  exact (proj1 (@exportData_exports_the_given_file
                  Toy.fs (Toy.core (Return Toy.config_both))
                  (Toy.exporter (Return Toy.config_both))
                  "src/main.ts" ["src/other.ts"] Hgiven)).
Defined.

(** ** Results of the verification *)

Lemma recorded_files_zero (reports : list (string * FileViolations)) :
  length (filter (λ report, has_violations report.2 = true) reports) = 0 ↔
  ∀ report, report ∈ reports → has_violations report.2 = false.
Proof.
  induction reports as [|report reports IH].
  - split; [by intros _ report ?%elem_of_nil | done].
  - destruct (has_violations report.2) eqn:Hhas.
    + rewrite filter_cons_True by done. split; [done|].
      intros Hall. rewrite (Hall report) in Hhas by by left. discriminate.
    + rewrite filter_cons_False by congruence. rewrite IH. split.
      * intros Hall report' [-> | Hin]%elem_of_cons; [done | by apply Hall].
      * intros Hall report' Hin. apply Hall. by right.
Qed.

Lemma record_of_empty (reports : list (string * FileViolations)) :
  (∀ report, report ∈ reports → has_violations report.2 = false) →
  record_of reports = ∅.
Proof.
  intros Hall. apply map_eq. intros key. rewrite lookup_empty.
  destruct (record_of reports !! key) as [report|] eqn:Hlookup; [|done].
  apply record_of_lookup_Some in Hlookup as [Hin Hhas].
  apply Hall in Hin. simpl in Hin. congruence.
Qed.

Lemma record_of_empty_inv (reports : list (string * FileViolations)) :
  (∀ report, report ∈ reports → report.1 ≠ "__proto__") →
  record_of reports = ∅ →
  ∀ report, report ∈ reports → has_violations report.2 = false.
Proof.
  intros Hproto Hempty [key report] Hin. simpl.
  destruct (has_violations report) eqn:Hhas; [|done].
  destruct (record_of_lookup_is_Some _ _ _ (Hproto _ Hin) Hin Hhas) as [report' Hlookup].
  by rewrite Hempty, lookup_empty in Hlookup.
Qed.

Lemma record_of_is_Some (reports : list (string * FileViolations)) (key : string) :
  is_Some (record_of reports !! key) ↔
  key ≠ "__proto__" ∧ ∃ report, (key, report) ∈ reports ∧ has_violations report = true.
Proof.
  split.
  - intros [report Hlookup]. split.
    + intros ->. by rewrite record_of_lookup_proto in Hlookup.
    + exists report. by apply record_of_lookup_Some.
  - intros [Hproto (report & Hin & Hhas)]. by eapply record_of_lookup_is_Some.
Qed.

Lemma record_of_size (reports : list (string * FileViolations)) :
  size (record_of reports)
  ≤ length (filter (λ report, has_violations report.2 = true) reports).
Proof.
  induction reports as [|report reports IH] using rev_ind.
  - unfold record_of. simpl. by rewrite map_size_empty.
  - rewrite record_of_snoc, filter_app, length_app.
    destruct (has_violations report.2) eqn:Hhas.
    + rewrite filter_cons_True by done. unfold assign.
      case_bool_decide; [simpl; lia|]. rewrite map_size_insert. simpl.
      destruct (record_of reports !! report.1); simpl; lia.
    + rewrite filter_cons_False by congruence. simpl. lia.
Qed.

Lemma recorded_files_le_totals (reports : list (string * FileViolations)) :
  length (filter (λ report, has_violations report.2 = true) reports)
  ≤ total_encapsulation reports + total_dependency reports.
Proof.
  unfold total_encapsulation, total_dependency.
  induction reports as [|report reports IH]; [done|].
  rewrite !sum_list_fmap_cons.
  destruct (has_violations report.2) eqn:Hhas.
  - rewrite filter_cons_True by done. simpl.
    unfold has_violations in Hhas. apply orb_true_iff in Hhas.
    rewrite !bool_decide_eq_true in Hhas. lia.
  - rewrite filter_cons_False by congruence. lia.
Qed.

Lemma verifyForPlugin_Return `{Fs, Core, !EntryResolution}
    (entryFile : option string) (r : VerificationResult) :
  verifyForPlugin entryFile = Return r →
  ∃ projectEntries reports,
    getEntriesFromCliOrConfig entryFile true = Return projectEntries
    ∧ reports_of (visits projectEntries) reports
    ∧ r = summary reports.
Proof.
  rewrite verifyForPlugin_alone.
  intros (projectEntries & Hentries
            & (reports & Hreports & ->)%verify_alone_Return)%bind_Return.
  eauto.
Qed.

(** X15. Every result that [verifyForPlugin] returns is consistent in
    itself: [success] holds exactly when no file is counted, and then the
    record of violations is empty; an empty record means [success] as long
    as no visited file has the relative path [__proto__], under which
    nothing is ever recorded; the record never has more entries than files
    were counted (it has fewer when a file is visited from several entry
    points), no more files are counted than violations, and every recorded
    entry holds at least one violation. *)
Theorem verifyForPlugin_result_is_consistent `{Fs, Core, !EntryResolution}
    (entryFile : option string) (r : VerificationResult) :
  verifyForPlugin entryFile = Return r →
  (success r = true ↔ filesWithViolationsCount r = 0)
  ∧ (success r = true → violations r = ∅)
  ∧ (violations r = ∅ →
     (∀ projectEntries projectInfo fileInfo,
        getEntriesFromCliOrConfig entryFile true = Return projectEntries →
        (projectInfo, fileInfo) ∈ visits projectEntries →
        key_of fileInfo ≠ "__proto__") →
     success r = true)
  ∧ violations r !! "__proto__" = None
  ∧ size (violations r) ≤ filesWithViolationsCount r
  ∧ filesWithViolationsCount r
    ≤ encapsulationViolationCount r + dependencyRuleViolationCount r
  ∧ (∀ key report,
       violations r !! key = Some report →
       encapsulationViolations report ≠ [] ∨ dependencyRuleViolations report ≠ []).
Proof.
  intros (projectEntries & reports & Hentries & Hreports & ->)%verifyForPlugin_Return.
  assert (Hsuccess : success (summary reports) = true ↔
            ∀ report, report ∈ reports → has_violations report.2 = false).
  { simpl. by rewrite andb_true_iff, !bool_decide_eq_true, totals_zero. }
  split_and!.
  - rewrite Hsuccess. symmetry. apply recorded_files_zero.
  - rewrite Hsuccess. apply record_of_empty.
  - intros Hempty Hproto. apply Hsuccess. apply record_of_empty_inv; [|exact Hempty].
    intros [key report] Hin.
    destruct (reports_of_report _ _ _ _ Hreports Hin)
      as ([projectInfo fileInfo] & Hvisit & -> & _).
    by eapply Hproto.
  - apply record_of_lookup_proto.
  - apply record_of_size.
  - apply recorded_files_le_totals.
  - intros key report [_ Hhas]%record_of_lookup_Some. by apply has_violations_lengths.
Qed.

Lemma verifyForPlugin_result_is_consistent_witness :
  ∃ r,
    @verifyForPlugin Toy.fs (Toy.core (Return Toy.config_entryPoints))
      (Toy.resolution (Return Toy.config_entryPoints)) None = Return r
    ∧ size (violations r) = 1
    ∧ filesWithViolationsCount r = 2
    ∧ size (violations r) ≤ filesWithViolationsCount r.
Proof.
  eexists. split; [vm_compute; reflexivity|].
  split; [vm_compute; reflexivity|]. split; [reflexivity|].
  exact (proj1 (proj2 (proj2 (proj2 (proj2
           (@verifyForPlugin_result_is_consistent
              Toy.fs (Toy.core (Return Toy.config_entryPoints))
              (Toy.resolution (Return Toy.config_entryPoints)) None _ eq_refl)))))).
Defined.

(** X16. Verifying two lists of entry points in one run, whether or not
    they share files: the run returns when the run over each list does; the
    three counts are the sums and [success] the conjunction; and the record
    holds for every key what the later list records under it, and what the
    earlier list records only where the later one records nothing. *)
Theorem later_entry_points_override_earlier_reports `{Fs, Core}
    (entries1 entries2 : list (ProjectEntry ProjectInfo))
    (alone1 alone2 : VerificationResult) :
  verify_alone entries1 = Return alone1 →
  verify_alone entries2 = Return alone2 →
  ∃ both,
    verify_alone (entries1 ++ entries2) = Return both
    ∧ (∀ key,
         violations both !! key
         = match violations alone2 !! key with
           | Some report => Some report
           | None => violations alone1 !! key
           end)
    ∧ success both = success alone1 && success alone2
    ∧ encapsulationViolationCount both
        = encapsulationViolationCount alone1 + encapsulationViolationCount alone2
    ∧ dependencyRuleViolationCount both
        = dependencyRuleViolationCount alone1 + dependencyRuleViolationCount alone2
    ∧ filesWithViolationsCount both
        = filesWithViolationsCount alone1 + filesWithViolationsCount alone2.
Proof.
  intros Halone1 Halone2.
  exists {| success := success alone1 && success alone2;
            encapsulationViolationCount :=
              encapsulationViolationCount alone1 + encapsulationViolationCount alone2;
            dependencyRuleViolationCount :=
              dependencyRuleViolationCount alone1 + dependencyRuleViolationCount alone2;
            filesWithViolationsCount :=
              filesWithViolationsCount alone1 + filesWithViolationsCount alone2;
            violations := violations alone2 ∪ violations alone1 |}.
  split.
  { apply verify_alone_app. exists alone1, alone2. by split_and!. }
  split; [|done]. intros key. simpl. rewrite lookup_union.
  by destruct (violations alone2 !! key), (violations alone1 !! key).
Qed.

Lemma later_entry_points_override_earlier_reports_witness :
  ∃ alone1 alone2 both,
    @verify_alone Toy.fs (Toy.core (Return Toy.config_entryPoints)) [Toy.project_i]
      = Return alone1
    ∧ @verify_alone Toy.fs (Toy.core (Return Toy.config_entryPoints)) [Toy.project_ii]
      = Return alone2
    ∧ @verify_alone Toy.fs (Toy.core (Return Toy.config_entryPoints))
        ([Toy.project_i] ++ [Toy.project_ii]) = Return both
    ∧ violations both !! "libs/shared/util.ts" = violations alone2 !! "libs/shared/util.ts"
    ∧ violations both !! "libs/shared/util.ts" ≠ violations alone1 !! "libs/shared/util.ts".
Proof.
  destruct (@later_entry_points_override_earlier_reports
              Toy.fs (Toy.core (Return Toy.config_entryPoints))
              [Toy.project_i] [Toy.project_ii] _ _ eq_refl eq_refl)
    as (both & Hboth & Hrecord & _).
  eexists _, _, both. split; [reflexivity|]. split; [reflexivity|].
  split; [exact Hboth|]. rewrite (Hrecord "libs/shared/util.ts").
  split; [vm_compute; reflexivity | vm_compute; discriminate].
Defined.

Lemma map_throwing_Permutation {A B} (f : A → Result B) (l l' : list A) (ys : list B) :
  l ≡ₚ l' → map_throwing f l = Return ys →
  ∃ ys', map_throwing f l' = Return ys' ∧ ys ≡ₚ ys'.
Proof.
  intros Hperm. revert ys.
  induction Hperm as [|x l l' Hperm IH|x y l|l l' l'' Hperm IH Hperm' IH']; intros ys; simpl.
  - intros [= <-]. by exists [].
  - intros (y & Hy & (ys0 & Hys0 & [= <-])%bind_Return)%bind_Return.
    destruct (IH _ Hys0) as (ys0' & -> & Hys0').
    exists (y :: ys0'). rewrite Hy. simpl. split; [done|]. by f_equiv.
  - intros (y' & Hy & (ys1 & (x' & Hx & (ys0 & Hys0 & [= <-])%bind_Return)%bind_Return
                         & [= <-])%bind_Return)%bind_Return.
    exists (x' :: y' :: ys0). rewrite Hx, Hy, Hys0. simpl. split; [done|].
    apply Permutation_swap.
  - intros Hys. destruct (IH _ Hys) as (ys' & Hys' & Hp).
    destruct (IH' _ Hys') as (ys'' & Hys'' & Hp').
    exists ys''. split; [done|]. by etrans.
Qed.

Lemma summary_Permutation (reports reports' : list (string * FileViolations)) :
  reports ≡ₚ reports' →
  success (summary reports') = success (summary reports)
  ∧ encapsulationViolationCount (summary reports')
    = encapsulationViolationCount (summary reports)
  ∧ dependencyRuleViolationCount (summary reports')
    = dependencyRuleViolationCount (summary reports)
  ∧ filesWithViolationsCount (summary reports')
    = filesWithViolationsCount (summary reports)
  ∧ (∀ key, is_Some (violations (summary reports') !! key)
            ↔ is_Some (violations (summary reports) !! key)).
Proof.
  intros Hperm.
  assert (Henc : total_encapsulation reports' = total_encapsulation reports).
  { unfold total_encapsulation. by rewrite Hperm. }
  assert (Hdep : total_dependency reports' = total_dependency reports).
  { unfold total_dependency. by rewrite Hperm. }
  simpl. rewrite Henc, Hdep. split_and!; try done.
  - by rewrite Hperm.
  - intros key. rewrite !record_of_is_Some.
    by setoid_rewrite Hperm.
Qed.

(** X17. The order in which entry points are verified, whatever their
    number, has no effect on whether the run returns, on [success], on the
    three counts or on the set of files that are recorded. It leaves the
    recorded entry of a file as it is when every visit of the file that
    finds violations finds the same, as for a file that one entry point
    alone reaches, once; it decides only whose report is kept for a file
    that is found with different violations at different visits. *)
Theorem entry_point_order_keeps_counts_and_keys `{Fs, Core}
    (entries entries' : list (ProjectEntry ProjectInfo)) (r : VerificationResult) :
  entries ≡ₚ entries' →
  verify_alone entries = Return r →
  ∃ r',
    verify_alone entries' = Return r'
    ∧ success r' = success r
    ∧ encapsulationViolationCount r' = encapsulationViolationCount r
    ∧ dependencyRuleViolationCount r' = dependencyRuleViolationCount r
    ∧ filesWithViolationsCount r' = filesWithViolationsCount r
    ∧ (∀ key, is_Some (violations r' !! key) ↔ is_Some (violations r !! key))
    ∧ (∀ key report,
         violations r !! key = Some report →
         (∀ projectInfo fileInfo report',
            (projectInfo, fileInfo) ∈ visits entries →
            key_of fileInfo = key →
            file_report projectInfo fileInfo = Return report' →
            has_violations report' = true →
            report' = report) →
         violations r' !! key = Some report).
Proof.
  intros Hperm (reports & Hreports & ->)%verify_alone_Return.
  assert (Hvisits : visits entries ≡ₚ visits entries').
  { unfold visits. by rewrite Hperm. }
  pose proof Hreports as Hrun. apply keyed_reports_Return in Hrun.
  destruct (map_throwing_Permutation _ _ _ _ Hvisits Hrun) as (reports' & Hrun' & Hreports').
  exists (summary reports'). split.
  { apply verify_alone_Return. exists reports'. split; [|done].
    by apply keyed_reports_Return. }
  destruct (summary_Permutation _ _ Hreports') as (Hsuccess & Henc & Hdep & Hfiles & Hkeys).
  split_and!; try done.
  intros key report Hlookup Hagree.
  destruct (proj2 (Hkeys key)) as [report' Hlookup']; [by eexists|].
  rewrite Hlookup'. f_equal.
  apply record_of_lookup_Some in Hlookup' as [Hin Hhas].
  rewrite <- Hreports' in Hin.
  destruct (reports_of_report _ _ _ _ Hreports Hin)
    as ([projectInfo fileInfo] & Hvisit & -> & Hreport).
  by eapply Hagree.
Qed.

Lemma entry_point_order_keeps_counts_and_keys_witness :
  [Toy.project_i; Toy.project_ii] ≡ₚ [Toy.project_ii; Toy.project_i]
  ∧ ∃ r r',
      @verify_alone Toy.fs (Toy.core (Return Toy.config_entryPoints))
        [Toy.project_i; Toy.project_ii] = Return r
      ∧ @verify_alone Toy.fs (Toy.core (Return Toy.config_entryPoints))
          [Toy.project_ii; Toy.project_i] = Return r'
      ∧ filesWithViolationsCount r' = filesWithViolationsCount r
      ∧ violations r' ≠ violations r.
Proof.
  assert (Hperm : [Toy.project_i; Toy.project_ii] ≡ₚ [Toy.project_ii; Toy.project_i])
    by apply Permutation_swap.
  split; [exact Hperm|].
  destruct (@entry_point_order_keeps_counts_and_keys
              Toy.fs (Toy.core (Return Toy.config_entryPoints))
              [Toy.project_i; Toy.project_ii] [Toy.project_ii; Toy.project_i] _
              Hperm eq_refl)
    as (r' & Hr' & _ & _ & _ & Hfiles & _).
  eexists _, r'. split; [reflexivity|]. split; [exact Hr'|]. split; [exact Hfiles|].
  injection Hr' as <-. intros Hsame.
  apply (f_equal (λ m, m !! "libs/shared/util.ts")) in Hsame.
  vm_compute in Hsame. discriminate Hsame.
Defined.

(** X18. [verifyForPlugin] gives no partial result: when a checker throws
    for a visited file, after the checkers returned for every file visited
    before it, [verifyForPlugin] throws that error; what was found until
    then is lost, and the files after it are not checked. *)
Theorem verifyForPlugin_fails_with_the_first_checker_error `{Fs, Core, !EntryResolution}
    (entryFile : option string) (projectEntries : list (ProjectEntry ProjectInfo))
    (before after : list (ProjectInfo * FileInfo)) (visit : ProjectInfo * FileInfo)
    (reports : list (string * FileViolations)) (e : Thrown) :
  getEntriesFromCliOrConfig entryFile true = Return projectEntries →
  visits projectEntries = before ++ visit :: after →
  reports_of before reports →
  file_report visit.1 visit.2 = Throw e →
  verifyForPlugin entryFile = Throw e.
Proof.
  intros Hentries Hvisits Hbefore%keyed_reports_Return Hvisit.
  rewrite verifyForPlugin_alone, Hentries. simpl.
  unfold verify_alone. rewrite verify_entries_reports, Hvisits, map_throwing_app, Hbefore.
  assert (Hthrow : map_throwing keyed_report (visit :: after) = Throw e).
  { assert (Hkeyed : keyed_report visit = Throw e)
      by (unfold keyed_report; by rewrite Hvisit).
    cbn [map_throwing]. by rewrite Hkeyed. }
  by rewrite Hthrow.
Qed.

Lemma verifyForPlugin_fails_with_the_first_checker_error_witness :
  @getEntriesFromCliOrConfig (Toy.core_without_rule (Return Toy.config_entryPoints))
    (Toy.resolution_without_rule (Return Toy.config_entryPoints)) None true
  = Return [Toy.project_i; Toy.project_ii]
  ∧ @verifyForPlugin Toy.fs (Toy.core_without_rule (Return Toy.config_entryPoints))
      (Toy.resolution_without_rule (Return Toy.config_entryPoints)) None
    = Throw (NoDependencyRuleForTagError "shared").
Proof.
  split; [reflexivity|].
  refine (@verifyForPlugin_fails_with_the_first_checker_error
            Toy.fs (Toy.core_without_rule (Return Toy.config_entryPoints))
            (Toy.resolution_without_rule (Return Toy.config_entryPoints))
            None [Toy.project_i; Toy.project_ii]
            [(Toy.main_i, Toy.main_i)]
            [ (Toy.main_i, "/project/projects/project-i/src/feature.ts");
              (Toy.main_ii, Toy.main_ii); (Toy.main_ii, Toy.util_ts);
              (Toy.main_ii, "/project/projects/project-ii/src/feature.ts") ]
            (Toy.main_i, Toy.util_ts)
            [("projects/project-i/src/main.ts", Toy.clean)]
            _ eq_refl eq_refl _ eq_refl).
  repeat constructor.
Defined.

(** X19. [verifyForPlugin] throws nothing of its own: violations are
    returned, never thrown. When it throws, the error is the one entry
    resolution threw, or the one a checker threw for a file that the run
    visits. *)
Theorem verifyForPlugin_throws_only_what_it_is_thrown `{Fs, Core, !EntryResolution}
    (entryFile : option string) (e : Thrown) :
  verifyForPlugin entryFile = Throw e →
  getEntriesFromCliOrConfig entryFile true = Throw e
  ∨ ∃ projectEntries projectInfo fileInfo,
      getEntriesFromCliOrConfig entryFile true = Return projectEntries
      ∧ (projectInfo, fileInfo) ∈ visits projectEntries
      ∧ (hasEncapsulationViolations (fileInfo_path fileInfo) projectInfo = Throw e
         ∨ checkForDependencyRuleViolation (fileInfo_path fileInfo) projectInfo = Throw e).
Proof.
  rewrite verifyForPlugin_alone.
  destruct (getEntriesFromCliOrConfig entryFile true) as [projectEntries|e'];
    simpl; [|intros [= ->]; by left].
  unfold verify_alone. rewrite verify_entries_reports.
  destruct (map_throwing keyed_report (visits projectEntries)) as [reports|e'] eqn:Hreports;
    simpl; [discriminate|].
  intros [= ->]. right.
  apply map_throwing_Throw in Hreports as ([projectInfo fileInfo] & Hin & Hthrow).
  exists projectEntries, projectInfo, fileInfo. split; [done|]. split; [done|].
  unfold keyed_report, file_report in Hthrow. simpl in Hthrow.
  destruct (hasEncapsulationViolations (fileInfo_path fileInfo) projectInfo)
    as [encapsulations|e']; simpl in Hthrow; [|left; congruence].
  destruct (checkForDependencyRuleViolation (fileInfo_path fileInfo) projectInfo)
    as [dependencyRuleViolations|e']; simpl in Hthrow; [discriminate | right; congruence].
Qed.

Lemma verifyForPlugin_throws_only_what_it_is_thrown_witness :
  @verifyForPlugin Toy.fs (Toy.core_without_rule (Return Toy.config_entryPoints))
    (Toy.resolution_without_rule (Return Toy.config_entryPoints)) None
  = Throw (NoDependencyRuleForTagError "shared")
  ∧ (@getEntriesFromCliOrConfig (Toy.core_without_rule (Return Toy.config_entryPoints))
       (Toy.resolution_without_rule (Return Toy.config_entryPoints)) None true
     = Throw (NoDependencyRuleForTagError "shared")
     ∨ ∃ projectEntries projectInfo fileInfo,
         @getEntriesFromCliOrConfig (Toy.core_without_rule (Return Toy.config_entryPoints))
           (Toy.resolution_without_rule (Return Toy.config_entryPoints)) None true
         = Return projectEntries
         ∧ (projectInfo, fileInfo)
           ∈ @visits (Toy.core_without_rule (Return Toy.config_entryPoints)) projectEntries
         ∧ (@hasEncapsulationViolations (Toy.core_without_rule (Return Toy.config_entryPoints))
              (@fileInfo_path (Toy.core_without_rule (Return Toy.config_entryPoints)) fileInfo)
              projectInfo
            = Throw (NoDependencyRuleForTagError "shared")
            ∨ @checkForDependencyRuleViolation
                (Toy.core_without_rule (Return Toy.config_entryPoints))
                (@fileInfo_path (Toy.core_without_rule (Return Toy.config_entryPoints)) fileInfo)
                projectInfo
              = Throw (NoDependencyRuleForTagError "shared"))).
Proof.
  split; [reflexivity|].
  exact (@verifyForPlugin_throws_only_what_it_is_thrown
           Toy.fs (Toy.core_without_rule (Return Toy.config_entryPoints))
           (Toy.resolution_without_rule (Return Toy.config_entryPoints))
           None (NoDependencyRuleForTagError "shared") eq_refl).
Defined.

(** ** The end of a run of the CLI *)









(** ** The entry argument once more *)

(** X21. When the trimmed input is delimited by braces and parses as it
    stands to an object whose values are all strings, that object is the
    result: the replacement of single quotes is not tried, so a single quote
    inside a value stays as it is. White space around the braces makes no
    difference to the record. *)
Theorem parseStringOrRecord_prefers_the_direct_parse `{Json}
    (input : string) (props : Record JsonValue) :
  startsWith (trim input) "{" = true →
  endsWith (trim input) "}" = true →
  JSON_parse (trim input) = Return (JObject props) →
  string_valued props →
  ∀ input', trim input' = trim input →
    parseStringOrRecord input' = Return (ARecord (JObject props)).
Proof.
  intros Hstart Hend Hparse Hvalued%allValuesAreStrings_object input' Htrim.
  unfold parseStringOrRecord. rewrite Htrim, Hstart, Hend, Hparse. simpl.
  by rewrite Hvalued.
Qed.

Lemma parseStringOrRecord_prefers_the_direct_parse_witness :
  let input := String "{" (DQUOTE +:+ "app" +:+ DQUOTE +:+ ": "
                             +:+ DQUOTE +:+ "src/it's/main.ts" +:+ DQUOTE +:+ "}") in
  startsWith (trim input) "{" = true
  ∧ endsWith (trim input) "}" = true
  ∧ @JSON_parse reference_Json (trim input)
    = Return (JObject [("app", JString "src/it's/main.ts")])
  ∧ string_valued [("app", JString "src/it's/main.ts")]
  ∧ @parseStringOrRecord reference_Json ("  " +:+ input +:+ " ")
    = Return (ARecord (JObject [("app", JString "src/it's/main.ts")])).
Proof.
  intros input.
  assert (Hvalued : string_valued [("app", JString "src/it's/main.ts")]).
  { repeat constructor. by eexists. }
  split; [reflexivity|]. split; [reflexivity|].
  split; [vm_compute; reflexivity|]. split; [exact Hvalued|].
  refine (@parseStringOrRecord_prefers_the_direct_parse reference_Json input
            [("app", JString "src/it's/main.ts")] eq_refl eq_refl _ Hvalued
            ("  " +:+ input +:+ " ") _); vm_compute; reflexivity.
Defined.
